(** * ai-teacher: command-safety and tool-use orchestration

    A shallow embedding of the parts of the assistant that decide what may
    run on the user's machine:

    - [CommandPolicy]: src/services/commandPolicy.ts
    - [Orchestrator]: handleFunctionCall and the tool-call loop of
      sendMessageWithVision in src/services/gemini.ts
    - [Scanner]: addFunctionCall and scanForFunctionCalls of gemini.ts
    - [ToolLoop]: the per-call handling and the heuristic injections of
      the loop of sendMessageWithVision
    - [UseChat]: the approval hook useChat (handleCommandRequest,
      approveCommandRequest, denyCommandRequest)
    - [WindowAnalysis]: the capture-analysis cache (windowAnalysis.ts)
    - [WindowSelection]: extractRequestedIndex and
      resolveWindowSelectionFromOptions of gemini.ts
    - [SelectionCache]: the window-selection cache and
      resolveWindowSelection of gemini.ts
    - [CaptureCase]: the capture_window_with_ocr case of
      handleFunctionCall and buildWindowSelectionPrompt
    - [Docker]: recordDockerContainers, resolveContainerName and the
      rewriting of docker logs calls in sendMessageWithVision
    - [CaptureHistory]: hasRecentCapture of gemini.ts
    - [ContextManager]: buildOptimizedHistory of contextManager.ts

    Strings.  A JavaScript string is a sequence of UTF-16 code units.  The
    development covers the strings whose code units are all below 256; such
    a string is a [string] with one [ascii] per code unit.  On these strings
    [toLowerCase], [trim] and the regular-expression classes below are the
    JavaScript ones.

    Time.  [Date.now()] is an input: every reading of the clock is a
    parameter of the function that reads it.

    The host and the reasoning service are parameters too: a host command
    is a function giving its result or the error it throws, and what the
    code does to the outside is returned as a list of events. *)

From Stdlib Require Import ZArith Lia Bool Ascii String DecimalString.
From stdpp Require Import base strings list gmap.

Local Open Scope string_scope.
Local Open Scope list_scope.

(** ** JavaScript string primitives *)

Module Js.

Definition code (c : ascii) : N := N_of_ascii c.

(** [\d] *)
Definition isDigit (c : ascii) : bool :=
  (48 <=? code c)%N && (code c <=? 57)%N.

(** [\w], that is [A-Za-z0-9_] *)
Definition isWordChar (c : ascii) : bool :=
  isDigit c
  || ((65 <=? code c)%N && (code c <=? 90)%N)
  || ((97 <=? code c)%N && (code c <=? 122)%N)
  || (code c =? 95)%N.

(** White space and line terminators below U+0100: TAB, LF, VT, FF, CR,
    SP and NBSP. *)
Definition isSpace (c : ascii) : bool :=
  ((9 <=? code c)%N && (code c <=? 13)%N) || (code c =? 32)%N || (code c =? 160)%N.

(** Lower-casing of one code unit below U+0100: A-Z, and the Latin-1
    capitals U+00C0..U+00DE except the multiplication sign U+00D7. *)
Definition lowerChar (c : ascii) : ascii :=
  let n := code c in
  if ((65 <=? n)%N && (n <=? 90)%N)
     || ((192 <=? n)%N && (n <=? 222)%N && negb (n =? 215)%N)
  then ascii_of_N (n + 32)
  else c.

Fixpoint toLowerCase (s : string) : string :=
  match s with
  | EmptyString => EmptyString
  | String c r => String (lowerChar c) (toLowerCase r)
  end.

Fixpoint trimStart (s : string) : string :=
  match s with
  | EmptyString => EmptyString
  | String c r => if isSpace c then trimStart r else s
  end.

(** [trimEnd] keeps a character when it is not white space or when
    something is left after it. *)
Fixpoint trimEnd (s : string) : string :=
  match s with
  | EmptyString => EmptyString
  | String c r =>
      match trimEnd r with
      | EmptyString => if isSpace c then EmptyString else String c EmptyString
      | r' => String c r'
      end
  end.

Definition trim (s : string) : string := trimEnd (trimStart s).

Fixpoint startsWith (s p : string) {struct p} : bool :=
  match p, s with
  | EmptyString, _ => true
  | String a p', String b s' => if Ascii.eqb a b then startsWith s' p' else false
  | String _ _, EmptyString => false
  end.

(** [s.includes(p)] *)
Fixpoint includes (s p : string) : bool :=
  startsWith s p
  || match s with
     | EmptyString => false
     | String _ r => includes r p
     end.

Definition head (s : string) : option ascii :=
  match s with
  | EmptyString => None
  | String c _ => Some c
  end.

Fixpoint last (s : string) : option ascii :=
  match s with
  | EmptyString => None
  | String c EmptyString => Some c
  | String _ r => last r
  end.

Definition isWordOpt (c : option ascii) : bool :=
  match c with
  | Some c => isWordChar c
  | None => false
  end.

(** The assertion [\b] between a character (or the start of input) and the
    next one (or the end of input). *)
Definition wordBoundary (before after : option ascii) : bool :=
  xorb (isWordOpt before) (isWordOpt after).

(** One element of a regular-expression alternative: a literal
    character, or the dot, which matches any character but a line
    terminator. *)
Inductive PatChar :=
| Lit (c : ascii)
| AnyChar.

Definition Pattern := list PatChar.

Definition lit (s : string) : Pattern := map Lit (list_ascii_of_string s).

Definition isLineTerminator (c : ascii) : bool :=
  (code c =? 10)%N || (code c =? 13)%N.

Definition patCharMatches (p : PatChar) (c : ascii) : bool :=
  match p with
  | Lit a => Ascii.eqb a c
  | AnyChar => negb (isLineTerminator c)
  end.

(** The alternative matched at the start of [s]: the last character
    consumed ([prev] when nothing is consumed) and what is left of [s]. *)
Fixpoint matchAlt (prev : option ascii) (alt : Pattern) (s : string)
  : option (option ascii * string) :=
  match alt with
  | [] => Some (prev, s)
  | p :: alt' =>
      match s with
      | EmptyString => None
      | String c r => if patCharMatches p c then matchAlt (Some c) alt' r else None
      end
  end.

(** [/\b(a1|a2|...)\b/.test(s)]: some position carries one of the
    alternatives with a word boundary on each side.  [prev] is the
    character before the current position. *)
Definition altAt (prev : option ascii) (s : string) (alt : Pattern) : bool :=
  wordBoundary prev (head s)
  && match matchAlt prev alt s with
     | Some (lastMatched, rest) => wordBoundary lastMatched (head rest)
     | None => false
     end.

Fixpoint testBoundedFrom (alts : list Pattern) (prev : option ascii) (s : string) : bool :=
  existsb (altAt prev s) alts
  || match s with
     | EmptyString => false
     | String c r => testBoundedFrom alts (Some c) r
     end.

Definition testBounded (alts : list Pattern) (s : string) : bool :=
  testBoundedFrom alts None s.

(** JavaScript truthiness of a string: only the empty string is falsy. *)
Definition truthy (s : string) : bool :=
  match s with
  | EmptyString => false
  | String _ _ => true
  end.

End Js.

(** ** The command policy (src/services/commandPolicy.ts) *)

Module CommandPolicy.

Inductive CommandApprovalLevel := auto | approval_required | blocked.
Inductive CommandCategory := context | critical | forbidden.

Record CommandPolicyDecision := {
  level : CommandApprovalLevel;
  reason : string;
  category : CommandCategory;
  suggestedConfirmation : option string;
  notes : option string;
}.

Record CommandRule := {
  command : string;
  argsPrefix : option (list string);
  rule_level : CommandApprovalLevel;
  rule_category : CommandCategory;
  rule_reason : string;
  rule_notes : option string;
}.

Definition rule (c : string) (p : option (list string))
    (l : CommandApprovalLevel) (k : CommandCategory) (r : string) : CommandRule :=
  {| command := c; argsPrefix := p; rule_level := l; rule_category := k;
     rule_reason := r; rule_notes := None |}.

Definition contextOnlyRules : list CommandRule := [
  rule "docker" (Some ["ps"]) auto context "Lists container status without changing state.";
  rule "docker" (Some ["ps"; "-a"]) auto context "Displays all containers without modifying anything.";
  rule "docker" (Some ["logs"]) auto context "Returns container logs for debugging purposes only.";
  rule "docker" (Some ["stats"]) auto context "Shows resource usage without mutating containers.";
  rule "docker" (Some ["inspect"]) auto context "Reads container or image metadata without any side effects.";
  rule "git" (Some ["status"]) auto context "Shows repository state without modifying files.";
  rule "git" (Some ["branch"]) auto context "Lists branches without switching or editing.";
  rule "git" (Some ["log"]) auto context "Reads commit history only.";
  rule "git" (Some ["show"]) auto context "Displays commit details without altering the repo.";
  rule "git" (Some ["config"; "--list"]) auto context "Displays configuration without making changes.";
  rule "kubectl" (Some ["get"]) auto context "Fetches cluster resource information.";
  rule "kubectl" (Some ["describe"]) auto context "Reads detailed resource information only.";
  rule "npm" (Some ["ls"]) auto context "Shows dependency tree without installation.";
  rule "npm" (Some ["run"; "lint"]) approval_required critical "Runs project scripts that may be long running or mutate cache.";
  rule "node" (Some ["--version"]) auto context "Reports installed Node.js version.";
  rule "python" (Some ["--version"]) auto context "Reports installed Python version.";
  rule "pwsh" (Some ["-Command"; "Get-Process"]) auto context "Lists running processes only.";
  rule "powershell" (Some ["-Command"; "Get-Process"]) auto context "Lists running processes only.";
  rule "cmd" (Some ["/c"; "tasklist"]) auto context "Shows task list without side effects.";
  rule "wmic" (Some ["process"; "list"; "brief"]) auto context "Displays process data for diagnostics.";
  rule "systeminfo" None auto context "Displays system configuration information.";
  rule "whoami" None auto context "Shows current user identity only.";
  rule "hostname" None auto context "Displays machine hostname only.";
  rule "ls" None auto context "Lists directory contents.";
  rule "dir" None auto context "Lists directory contents."
].

Definition criticalRules : list CommandRule := [
  rule "docker" (Some ["start"]) approval_required critical "Starts containers and changes runtime state.";
  rule "docker" (Some ["stop"]) approval_required critical "Stops containers impacting running services.";
  rule "docker" (Some ["restart"]) approval_required critical "Restarts containers and can interrupt workloads.";
  rule "docker" (Some ["rm"]) blocked forbidden "Removes containers and risks data loss.";
  rule "docker" (Some ["compose"; "down"]) blocked forbidden "docker compose down removes services and should never run automatically.";
  rule "docker" (Some ["compose"; "up"]) approval_required critical "Creates or modifies containers and volumes.";
  rule "docker" (Some ["compose"; "rm"]) blocked forbidden "Removes services and volumes.";
  rule "git" (Some ["reset"]) approval_required critical "Potentially discards commits or changes.";
  rule "git" (Some ["clean"]) approval_required critical "Deletes untracked files from the working tree.";
  rule "git" (Some ["checkout"]) approval_required critical "Switches branches or overwrites files.";
  rule "git" (Some ["pull"]) approval_required critical "Mutates local repository state.";
  rule "npm" (Some ["install"]) approval_required critical "Modifies node_modules and lockfiles.";
  rule "npm" (Some ["update"]) approval_required critical "Upgrades dependencies and may break builds.";
  rule "npm" (Some ["run"]) approval_required critical "Runs arbitrary project scripts.";
  rule "pip" (Some ["install"]) approval_required critical "Installs Python packages and alters environment.";
  rule "apt" None approval_required critical "Installs or removes system packages.";
  rule "brew" None approval_required critical "Installs or removes packages on macOS.";
  rule "kubectl" None approval_required critical "Cluster operations can impact production workloads.";
  rule "taskkill" None approval_required critical "Terminates running processes."
].

Definition forbiddenCommands : list CommandRule := [
  rule "rm" None blocked forbidden "Deleting files is never performed automatically.";
  rule "rd" None blocked forbidden "Removing directories is not permitted.";
  rule "del" None blocked forbidden "Deleting files is not permitted.";
  rule "erase" None blocked forbidden "Deleting data is not permitted.";
  rule "format" None blocked forbidden "Formatting drives is destructive and disallowed.";
  rule "shutdown" None blocked forbidden "System power operations require manual execution by the user.";
  rule "reboot" None blocked forbidden "System reboot requires explicit manual action.";
  rule "poweroff" None blocked forbidden "Powering off the machine is never automated.";
  rule "mkfs" None blocked forbidden "Creating filesystems is destructive.";
  rule "diskpart" None blocked forbidden "Disk partition changes are disallowed."
].

Definition allRules : list CommandRule :=
  forbiddenCommands ++ criticalRules ++ contextOnlyRules.

(** The loop [for (i = 0; i < prefix.length; i++) if (prefix[i] !== args[i])
    return false], entered only when [prefix.length <= args.length]. *)
Fixpoint prefixLoop (prefix args : list string) : bool :=
  match prefix, args with
  | [], _ => true
  | p :: prefix', a :: args' => if String.eqb p a then prefixLoop prefix' args' else false
  | _ :: _, [] => false
  end.

Definition matchesRule (r : CommandRule) (cmd : string) (args : list string) : bool :=
  if negb (String.eqb (command r) cmd) then false
  else
    match argsPrefix r with
    | None => true
    | Some [] => true
    | Some prefix =>
        if (length args <? length prefix)%nat then false
        else prefixLoop prefix args
    end.

Definition is_approval_required (l : CommandApprovalLevel) : bool :=
  match l with approval_required => true | _ => false end.

Definition buildDecision (r : CommandRule) : CommandPolicyDecision :=
  {| level := rule_level r;
     reason := rule_reason r;
     category := rule_category r;
     notes := rule_notes r;
     suggestedConfirmation :=
       if is_approval_required (rule_level r)
       then Some "Explain why this command is needed and wait for the user to approve before running it."
       else None |}.

Definition defaultDecision (cmd : string) : CommandPolicyDecision :=
  {| level := approval_required;
     category := critical;
     reason := "No explicit policy found for '" +:+ cmd +:+ "'. Defaulting to user approval.";
     suggestedConfirmation :=
       Some "Describe what this command will do and ask the user to approve it before execution.";
     notes := None |}.

Definition evaluateCommandPolicy (cmd : string) (args : list string) : CommandPolicyDecision :=
  let normalizedCommand := Js.toLowerCase cmd in
  let normalizedArgs := map Js.toLowerCase args in
  match find (fun r => matchesRule r normalizedCommand normalizedArgs) allRules with
  | Some matchedRule => buildDecision matchedRule
  | None => defaultDecision normalizedCommand
  end.

Definition isContextOnlyCommand (cmd : string) (args : list string) : bool :=
  match level (evaluateCommandPolicy cmd args) with auto => true | _ => false end.

End CommandPolicy.


(** ** JavaScript values of a streamed response *)

Module JsValue.

#[local] Set Warnings "-register-all".

(** The values the scanner walks over.  A property list is in
    [Object.entries] order and has distinct keys.  A callable is modelled by
    what invoking it without arguments does: [Some v] returns [v], [None]
    throws.  Numbers are the integral ones. *)
Inductive value :=
| VUndefined
| VNull
| VBool (b : bool)
| VNumber (n : Z)
| VString (s : string)
| VArray (items : list value)
| VObject (props : list (string * value))
| VFunction (call : option value).

(** [!!v] *)
Definition truthy (v : value) : bool :=
  match v with
  | VUndefined | VNull => false
  | VBool b => b
  | VNumber n => negb (n =? 0)%Z
  | VString s => Js.truthy s
  | VArray _ | VObject _ | VFunction _ => true
  end.

(** [typeof v === "object"]: also true of [null] and of arrays. *)
Definition typeofObject (v : value) : bool :=
  match v with
  | VNull | VArray _ | VObject _ => true
  | _ => false
  end.

Definition typeofFunction (v : value) : bool :=
  match v with VFunction _ => true | _ => false end.

Definition typeofString (v : value) : bool :=
  match v with VString _ => true | _ => false end.

Fixpoint lookup (k : string) (props : list (string * value)) : value :=
  match props with
  | [] => VUndefined
  | (k', v) :: rest => if String.eqb k k' then v else lookup k rest
  end.

(** [v?.k] for the keys the orchestrator reads; none of them is a property
    of a primitive, an array or a callable. *)
Definition get (v : value) (k : string) : value :=
  match v with
  | VObject props => lookup k props
  | _ => VUndefined
  end.

(** [v === s] for a string [s] *)
Definition strictEqString (v : value) (s : string) : bool :=
  match v with
  | VString t => String.eqb t s
  | _ => false
  end.

Definition list_max (l : list nat) : nat := fold_right Nat.max 0%nat l.

(** Nesting depth, counting what a callable returns. *)
Fixpoint height (v : value) : nat :=
  match v with
  | VArray items => S (list_max (map height items))
  | VObject props => S (list_max (map (fun p => height (snd p)) props))
  | VFunction (Some r) => S (height r)
  | VFunction None => 1
  | _ => 0
  end.

End JsValue.

(** ** Tool-call extraction (addFunctionCall, scanForFunctionCalls) *)

Module Scanner.
Import JsValue.

Record FunctionCall := {
  name : string;
  args : value;
}.

(** The per-turn collection state: [functionCallSet], [functionCalls], and
    a log of the property names of the callables the scanner invoked. *)
Record ScanState := {
  functionCallSet : gset string;
  functionCalls : list FunctionCall;
  invoked : list string;
}.

Definition emptyScan : ScanState :=
  {| functionCallSet := ∅; functionCalls := []; invoked := [] |}.

Definition logInvoke (k : string) (st : ScanState) : ScanState :=
  {| functionCallSet := functionCallSet st;
     functionCalls := functionCalls st;
     invoked := invoked st ++ [k] |}.

(** [String(n)] for an integral number *)
Definition numberToString (n : Z) : string :=
  DecimalString.NilZero.string_of_int (Z.to_int n).

Section WithStringify.

(** [JSON.stringify], a function of the value. *)
Variable stringify : value -> string.

Definition callName (call : value) : string :=
  match get call "name" with
  | VString s => s
  | VNumber n => numberToString n
  | _ => "unknown"
  end.

(** [(call.args && typeof call.args === "object" ? call.args : undefined)
    ?? (call.arguments && ... ? call.arguments : undefined) ?? {}] *)
Definition callArgs (call : value) : value :=
  let a := get call "args" in
  if truthy a && typeofObject a then a
  else
    let b := get call "arguments" in
    if truthy b && typeofObject b then b else VObject [].

Definition callKey (call : value) : string :=
  callName call +:+ "::" +:+ stringify (callArgs call).

Definition entryKey (fc : FunctionCall) : string :=
  name fc +:+ "::" +:+ stringify (args fc).

Definition addFunctionCall (call : value) (st : ScanState) : ScanState :=
  if negb (truthy call) || negb (typeofObject call) then st
  else
    let key := callKey call in
    if bool_decide (key ∈ functionCallSet st) then st
    else
      {| functionCallSet := {[key]} ∪ functionCallSet st;
         functionCalls := functionCalls st ++ [{| name := callName call; args := callArgs call |}];
         invoked := invoked st |}.

Definition skippedKeys : list string :=
  ["functionCall"; "functionCalls"; "function_call"; "candidates"].

Definition looksLikeCall (source : value) : bool :=
  typeofString (get source "name")
  && (typeofObject (get source "args") || typeofObject (get source "arguments")).

(** The body of [scanForFunctionCalls], block by block; [rec] is the
    recursive call. *)
Section Body.
Variable rec : value -> ScanState -> ScanState.

Definition scanAll (l : list value) (st : ScanState) : ScanState :=
  fold_left (fun st v => rec v st) l st.

(** Known helper: [source.functionCalls()], inside [try]. *)
Definition scanHelper (source : value) (st : ScanState) : ScanState :=
  match get source "functionCalls" with
  | VFunction r =>
      let st := logInvoke "functionCalls" st in
      match r with
      | Some (VArray calls) => scanAll calls st
      | _ => st
      end
  | _ => st
  end.

(** [source.functionCall] when it is not a callable, then
    [source.function_call]. *)
Definition scanDirect (source : value) (st : ScanState) : ScanState :=
  let st :=
    let fc := get source "functionCall" in
    if truthy fc && negb (typeofFunction fc) then rec fc st else st in
  let fc := get source "function_call" in
  if truthy fc then rec fc st else st.

(** [typeof source.candidates === "function" ? source.candidates() :
    source.candidates], inside [try]; a throw leaves [undefined]. *)
Definition readCandidates (source : value) (st : ScanState) : value * ScanState :=
  match get source "candidates" with
  | VFunction r =>
      (match r with Some v => v | None => VUndefined end,
       logInvoke "candidates" st)
  | v => (v, st)
  end.

Definition scanPart (part : value) (st : ScanState) : ScanState :=
  let st :=
    let fc := get part "functionCall" in
    if truthy fc then rec fc st else st in
  let fc := get part "function_call" in
  if truthy fc then rec fc st else st.

Definition scanCandidate (candidate : value) (st : ScanState) : ScanState :=
  let st := rec candidate st in
  match get (get candidate "content") "parts" with
  | VArray parts => fold_left (fun st part => scanPart part st) parts st
  | _ => st
  end.

Definition scanCandidates (candidates : value) (st : ScanState) : ScanState :=
  match candidates with
  | VArray cs => fold_left (fun st c => scanCandidate c st) cs st
  | _ => st
  end.

(** [Object.entries(source).forEach(...)] *)
Definition scanEntry (entry : string * value) (st : ScanState) : ScanState :=
  let '(key, v) := entry in
  if truthy v && typeofObject v && negb (existsb (String.eqb key) skippedKeys)
  then rec v st else st.

Definition scanEntries (props : list (string * value)) (st : ScanState) : ScanState :=
  fold_left (fun st e => scanEntry e st) props st.

Definition captureSelf (source : value) (st : ScanState) : ScanState :=
  if looksLikeCall source then addFunctionCall source st else st.

Definition scanBody (source : value) (st : ScanState) : ScanState :=
  if negb (truthy source) then st
  else
    match source with
    | VFunction _ => st
    | VArray items => scanAll items st
    | VObject props =>
        let st := scanHelper source st in
        let st := scanDirect source st in
        let '(candidates, st) := readCandidates source st in
        let st := scanCandidates candidates st in
        let st := scanEntries props st in
        captureSelf source st
    | _ => st
    end.

End Body.

(** [scan n] is [scanForFunctionCalls] unfolded to nesting depth [n]. *)
Fixpoint scan (n : nat) (source : value) (st : ScanState) : ScanState :=
  match n with
  | O => st
  | S n => scanBody (scan n) source st
  end.

Definition scanForFunctionCalls (source : value) (st : ScanState) : ScanState :=
  scan (height source) source st.

(** The stream loop: every chunk is scanned, then the full response (when
    awaiting it does not fail). *)
Definition collectFunctionCalls (chunks : list value) (fullResponse : option value) : ScanState :=
  let st := fold_left (fun st chunk => scanForFunctionCalls chunk st) chunks emptyScan in
  match fullResponse with
  | Some r => scanForFunctionCalls r st
  | None => st
  end.

End WithStringify.

End Scanner.

(** ** The orchestrator (src/services/gemini.ts) *)

Module Orchestrator.
Import JsValue Scanner CommandPolicy.

(** *** isConversationWrapMessage and the start of sendMessageWithVision *)

(** The alternatives of the wrap-up pattern, in source order; the dot of
    the last but one is the regular-expression dot. *)
Definition wrapPhrases : list Js.Pattern := [
  Js.lit "all good"; Js.lit "that's all"; Js.lit "that is all"; Js.lit "thanks";
  Js.lit "thank you"; Js.lit "appreciate it"; Js.lit "no further";
  Js.lit "no that's it"; Js.lit "just checking"; Js.lit "just wanted to check";
  Js.lit "all set"; Js.lit "we're good"; Js.lit "done for now";
  Js.lit "thanks, that";
  Js.lit "thanks" ++ [Js.AnyChar] ++ Js.lit " that";
  Js.lit "cheers"
].

Definition isConversationWrapMessage (message : string) : bool :=
  if negb (Js.truthy message) then false
  else
    let normalized := Js.toLowerCase (Js.trim message) in
    Js.testBounded wrapPhrases normalized.

Inductive Role := user | assistant | system.

Record Message := {
  role : Role;
  content : string;
}.

Definition isUser (m : Message) : bool :=
  match role m with user => true | _ => false end.

(** The content of the last message of role user, or the empty string. *)
Definition lastUserMessageContent (messages : list Message) : string :=
  match find isUser (rev messages) with
  | Some m => content m
  | None => EmptyString
  end.

(** What a turn does outside the function: calls to the reasoning
    service, scans of a response for tool calls, and host capabilities. *)
Inductive Effect :=
| ReasoningCall (what : string)
| ToolCallScan
| HostCall (what : string).

Inductive TurnResult :=
| Throws (message : string)
| Stream (chunks : list string).

Definition wrapAcknowledgement : string :=
  "Yep, I still have it in view. Let me know if you need anything else!".

Section SendMessage.

(** The initialised model, and everything sendMessageWithVision does after
    the wrap-up check (screenshot analysis, system context, the streamed
    exchange): its result and the effects it performs. *)
Variable Model : Type.
Variable restOfTurn : Model -> list Message -> list string -> TurnResult * list Effect.

Definition sendMessageWithVision (currentModel : option Model)
    (messages : list Message) (screenshots : list string) : TurnResult * list Effect :=
  match currentModel with
  | None => (Throws "Gemini not initialized. Please set API key in settings.", [])
  | Some model =>
      let lastUserMessageContent := lastUserMessageContent messages in
      if isConversationWrapMessage lastUserMessageContent
      then (Stream [wrapAcknowledgement], [])
      else restOfTurn model messages screenshots
  end.

End SendMessage.

(** *** handleFunctionCall *)

Record CommandResult := {
  cr_success : bool;
  cr_stdout : string;
  cr_stderr : string;
  cr_exit_code : option Z;
  cr_error : option string;
}.

(** The fields of a tool response that the orchestrator reads back. *)
Record ToolResponse := {
  success : bool;
  resp_blocked : bool;
  needsApproval : bool;
  multiple_windows_found : bool;
  resp_command : option string;
  resp_args : option (list string);
  resp_policy : option CommandPolicyDecision;
  resp_error : option string;
  request_id : option string;
  stdout : option string;
  stderr : option string;
  exit_code : option Z;
  image_base64 : option string;
}.

Record FunctionResponse := {
  fr_name : string;
  response : ToolResponse;
}.

Definition failure (err : string) : ToolResponse :=
  {| success := false; resp_blocked := false; needsApproval := false;
     multiple_windows_found := false; resp_command := None; resp_args := None;
     resp_policy := None; resp_error := Some err; request_id := None;
     stdout := None; stderr := None; exit_code := None; image_base64 := None |}.

(** Host capabilities invoked while handling a call. *)
Inductive HostEvent :=
| ExecuteCommand (command : string) (args : list string)
| CaptureCapability (detail : string).

(** [x || y] on strings *)
Definition orElse (x : option string) (y : string) : string :=
  match x with
  | Some s => if Js.truthy s then s else y
  | None => y
  end.

(** The elements of [args.args] as the strings [arg.toLowerCase()] is
    called on; [None] when that call is a TypeError. *)
Fixpoint asStrings (l : list value) : option (list string) :=
  match l with
  | [] => Some []
  | VString s :: r =>
      match asStrings r with
      | Some r' => Some (s :: r')
      | None => None
      end
  | _ :: _ => None
  end.

Section HandleFunctionCall.

(** [executeCommand] of the host: a result, or a thrown error with its
    message.  [captureWindow] stands for the capture_window_with_ocr case. *)
Variable executeCommand : string -> list string -> CommandResult + option string.
Variable captureWindow : value -> FunctionResponse * list HostEvent.

Definition commandOf (args : value) : string :=
  match get args "command" with
  | VString s => s
  | _ => EmptyString
  end.

Definition commandArgsOf (args : value) : list value :=
  match get args "args" with
  | VArray l => l
  | _ => []
  end.

(** The execute_command case; [requestId] is what [generateId("cmd")]
    returns. *)
Definition handleExecuteCommand (requestId : string) (args : value)
  : FunctionResponse * list HostEvent :=
  let functionName := "execute_command" in
  let command := commandOf args in
  match asStrings (commandArgsOf args) with
  | None =>
      (* evaluateCommandPolicy throws; the outer catch answers *)
      ({| fr_name := functionName;
          response := failure "arg.toLowerCase is not a function" |}, [])
  | Some commandArgs =>
      let policyDecision := evaluateCommandPolicy command commandArgs in
      match level policyDecision with
      | blocked =>
          ({| fr_name := functionName;
              response :=
                {| success := false; resp_blocked := true; needsApproval := false;
                   multiple_windows_found := false;
                   resp_command := Some command; resp_args := Some commandArgs;
                   resp_policy := Some policyDecision;
                   resp_error := Some (reason policyDecision);
                   request_id := Some requestId;
                   stdout := None; stderr := None; exit_code := None;
                   image_base64 := None |} |}, [])
      | approval_required =>
          ({| fr_name := functionName;
              response :=
                {| success := false; resp_blocked := false; needsApproval := true;
                   multiple_windows_found := false;
                   resp_command := Some command; resp_args := Some commandArgs;
                   resp_policy := Some policyDecision;
                   resp_error := Some (reason policyDecision);
                   request_id := Some requestId;
                   stdout := None; stderr := None; exit_code := None;
                   image_base64 := None |} |}, [])
      | auto =>
          let events := [ExecuteCommand command commandArgs] in
          match executeCommand command commandArgs with
          | inl cmdResult =>
              ({| fr_name := functionName;
                  response :=
                    {| success := cr_success cmdResult; resp_blocked := false;
                       needsApproval := false; multiple_windows_found := false;
                       resp_command := Some command; resp_args := Some commandArgs;
                       resp_policy := Some policyDecision;
                       resp_error :=
                         match cr_error cmdResult with
                         | Some e => if Js.truthy e then Some e else None
                         | None => None
                         end;
                       request_id := None;
                       stdout := Some (cr_stdout cmdResult);
                       stderr := Some (cr_stderr cmdResult);
                       exit_code := cr_exit_code cmdResult;
                       image_base64 := None |} |}, events)
          | inr thrown =>
              ({| fr_name := functionName;
                  response :=
                    {| success := false; resp_blocked := false;
                       needsApproval := false; multiple_windows_found := false;
                       resp_command := Some command; resp_args := Some commandArgs;
                       resp_policy := Some policyDecision;
                       resp_error := Some (orElse thrown "Command execution failed");
                       request_id := None;
                       stdout := Some EmptyString; stderr := Some EmptyString; exit_code := None;
                       image_base64 := None |} |}, events)
          end
      end
  end.

(** [functionCall.args || {}] *)
Definition argsOrEmpty (a : value) : value :=
  if truthy a then a else VObject [].

Definition handleFunctionCall (requestId : string) (functionCall : FunctionCall)
  : FunctionResponse * list HostEvent :=
  let functionName := name functionCall in
  let args := argsOrEmpty (Scanner.args functionCall) in
  if negb (Js.truthy functionName) then
    ({| fr_name := "unknown"; response := failure "Function call missing name" |}, [])
  else if String.eqb functionName "capture_window_with_ocr" then captureWindow args
  else if String.eqb functionName "execute_command" then handleExecuteCommand requestId args
  else
    ({| fr_name := functionName;
        response := failure ("Unknown function: " +:+ functionName) |}, []).

End HandleFunctionCall.

End Orchestrator.

(** ** The tool-call loop of sendMessageWithVision *)

Module ToolLoop.
Import JsValue Scanner CommandPolicy Orchestrator.

(** *** Pending command requests handed to the application *)

Inductive RequestStatus := pending | executing | executed | denied | status_blocked.

Record PendingCommandRequest := {
  id : string;
  req_command : string;
  req_args : list string;
  policy : CommandPolicyDecision;
  createdAt : Z;
  status : RequestStatus;
  result : option CommandResult;
  error : option string;
}.

Definition approvalFallbackPolicy (err : option string) : CommandPolicyDecision :=
  {| level := approval_required; category := critical;
     reason := orElse err "Command requires approval.";
     suggestedConfirmation := None; notes := None |}.

Definition blockedFallbackPolicy (err : option string) : CommandPolicyDecision :=
  {| level := blocked; category := forbidden;
     reason := orElse err "Command blocked by safety rules.";
     suggestedConfirmation := None; notes := None |}.

(** The request built after a tool response, if any: [generated] is what
    [generateId("cmd")] would return, [now] is [Date.now()].  The caller
    passes it to [onCommandRequest] unless its id was already notified. *)
Definition commandRequestOf (generated : string) (now : Z) (r : ToolResponse)
  : option PendingCommandRequest :=
  let requestId := orElse (request_id r) generated in
  let command := orElse (resp_command r) EmptyString in
  let args := match resp_args r with Some l => l | None => [] end in
  if needsApproval r then
    Some {| id := requestId; req_command := command; req_args := args;
            policy := match resp_policy r with
                      | Some p => p
                      | None => approvalFallbackPolicy (resp_error r)
                      end;
            createdAt := now; status := pending;
            result := None; error := None |}
  else if resp_blocked r then
    Some {| id := requestId; req_command := command; req_args := args;
            policy := match resp_policy r with
                      | Some p => p
                      | None => blockedFallbackPolicy (resp_error r)
                      end;
            createdAt := now; status := status_blocked;
            result := None; error := resp_error r |}
  else None.

(** *** What is sent to the chat after a tool result *)

Inductive ChatMessage :=
| SendFunctionResponse (fr : FunctionResponse)
| SendText (text : string)
| SendImage (imageBase64 : string).

Definition followUpPrompt : string :=
  "Please provide a response based on the command output above.".

(** [hasResponseText] and [responseTextLength] over the texts of the
    chunks of the reply. *)
Definition hasResponseText (chunks : list string) : bool :=
  existsb Js.truthy chunks.

Definition responseTextLength (chunks : list string) : nat :=
  fold_left (fun n c => if Js.truthy c then (n + String.length c)%nat else n) chunks 0%nat.

Definition awaitingApproval (r : ToolResponse) : bool :=
  needsApproval r || resp_blocked r.

Definition imageOf (r : ToolResponse) : option string :=
  match image_base64 r with
  | Some img => if success r && Js.truthy img then Some img else None
  | None => None
  end.

(** The follow-up block guarded by
    [functionResponse.name === "execute_command"]. *)
Definition commandFollowUp (fr : FunctionResponse) (replyChunks : list string)
  : list ChatMessage :=
  if String.eqb (fr_name fr) "execute_command" then
    if negb (awaitingApproval (response fr)) then
      if negb (hasResponseText replyChunks)
         || (hasResponseText replyChunks && (responseTextLength replyChunks <? 50)%nat)
      then [SendText followUpPrompt]
      else []
    else []
  else [].

(** First message of a conversation: the reply to the function response
    is always read, the image (if any) follows. *)
Definition afterToolResultFirst (fr : FunctionResponse) (replyChunks : list string)
  : list ChatMessage :=
  [SendFunctionResponse fr]
  ++ commandFollowUp fr replyChunks
  ++ match imageOf (response fr) with
     | Some img => [SendImage img]
     | None => []
     end.

(** Later messages: with an image the reply is not read and the image is
    sent with its prompt; without one the follow-up block runs. *)
Definition afterToolResultChat (fr : FunctionResponse) (replyChunks : list string)
  : list ChatMessage :=
  match imageOf (response fr) with
  | Some img => [SendFunctionResponse fr; SendImage img]
  | None => SendFunctionResponse fr :: commandFollowUp fr replyChunks
  end.

Definition isFollowUp (m : ChatMessage) : bool :=
  match m with
  | SendText t => String.eqb t followUpPrompt
  | _ => false
  end.

Definition followUpCount (l : list ChatMessage) : nat :=
  length (List.filter isFollowUp l).

(** *** Heuristic augmentation of the collected calls *)

(** The outcomes of the regular-expression tests on the last user message
    and on the recent messages, as inputs:
    - [explicitDockerQuestion]: isExplicitDockerQuestion(lastUserMsg);
    - [mentionsLogs]: [/\blogs?\b/i];
    - [hasActionVerb]: [/\b(start|stop|restart|kill|rm|remove|up|down|deploy|launch|spin up)\b/i];
    - [hasTargets]: normalizedTargets is not empty;
    - [mentionsContainersPlural]: [/\bcontainers?\b/i];
    - [logsMatch]: capture group 1 of
      [/\blogs?\s*(?:for|of|from)\s+([a-zA-Z0-9._-]+)/i];
    - [hasDockerContext]: one of the last five messages mentions docker or
      container. *)
Record Heuristics := {
  lastUserMsg : string;
  explicitDockerQuestion : bool;
  mentionsLogs : bool;
  hasActionVerb : bool;
  hasTargets : bool;
  mentionsContainersPlural : bool;
  logsMatch : option string;
  hasDockerContext : bool;
}.

Definition wrapConversation (h : Heuristics) : bool :=
  isConversationWrapMessage (lastUserMsg h).
Definition wantsLogs (h : Heuristics) : bool :=
  explicitDockerQuestion h && mentionsLogs h.
Definition mentionsSpecificContainer (h : Heuristics) : bool :=
  (explicitDockerQuestion h || hasActionVerb h) && hasTargets h.
Definition needsDockerPs (h : Heuristics) : bool :=
  negb (wrapConversation h)
  && (mentionsContainersPlural h || mentionsSpecificContainer h || explicitDockerQuestion h).
Definition needsDockerPsAll (h : Heuristics) : bool :=
  negb (wrapConversation h) && (wantsLogs h || mentionsSpecificContainer h).
Definition isDockerQuestion (h : Heuristics) : bool :=
  explicitDockerQuestion h || hasActionVerb h.

Definition dockerCall (argv : list string) : FunctionCall :=
  {| name := "execute_command";
     args := VObject [("command", VString "docker"); ("args", VArray (map VString argv))] |}.

Definition dockerPs : FunctionCall := dockerCall ["ps"].
Definition dockerPsAll : FunctionCall := dockerCall ["ps"; "-a"].
Definition dockerLogs (containerName : string) : FunctionCall :=
  dockerCall ["logs"; "--tail"; "200"; containerName].

Definition isExecuteCommand (fc : FunctionCall) : bool :=
  String.eqb (name fc) "execute_command".

(** [Array.isArray(fc.args?.args) && fc.args.args.includes(s)] *)
Definition argsInclude (fc : FunctionCall) (s : string) : bool :=
  match get (args fc) "args" with
  | VArray l => existsb (fun v => strictEqString v s) l
  | _ => false
  end.

Definition isDockerCommand (fc : FunctionCall) : bool :=
  isExecuteCommand fc && strictEqString (get (args fc) "command") "docker".

Definition isLogsCommand (fc : FunctionCall) : bool :=
  isExecuteCommand fc && argsInclude fc "logs".
Definition isPsAllCommand (fc : FunctionCall) : bool :=
  isDockerCommand fc && argsInclude fc "ps" && argsInclude fc "-a".
Definition isPsCommand (fc : FunctionCall) : bool :=
  isDockerCommand fc && argsInclude fc "ps" && negb (argsInclude fc "-a").

(** One step of [functionCalls.some(fc => fc.name === "capture_window_with_ocr"
    && (fc.args?.process_name as string)?.toLowerCase().includes("docker"))]:
    [None] when [toLowerCase] is not a function of the value. *)
Definition isDockerCapture (fc : FunctionCall) : option bool :=
  if String.eqb (name fc) "capture_window_with_ocr" then
    match get (args fc) "process_name" with
    | VString s => Some (Js.includes (Js.toLowerCase s) "docker")
    | VUndefined | VNull => Some false
    | _ => None
    end
  else Some false.

Fixpoint someDockerCapture (l : list FunctionCall) : option bool :=
  match l with
  | [] => Some false
  | fc :: r =>
      match isDockerCapture fc with
      | Some true => Some true
      | Some false => someDockerCapture r
      | None => None
      end
  end.

Record AugState := {
  calls : list FunctionCall;
  scheduledCommands : gset string;
  dockerPsAllScheduled : bool;
  pendingLogRequest : option (string * string);
}.

Definition push (fc : FunctionCall) (st : AugState) : AugState :=
  {| calls := calls st ++ [fc]; scheduledCommands := scheduledCommands st;
     dockerPsAllScheduled := dockerPsAllScheduled st;
     pendingLogRequest := pendingLogRequest st |}.
Definition unshift (fc : FunctionCall) (st : AugState) : AugState :=
  {| calls := fc :: calls st; scheduledCommands := scheduledCommands st;
     dockerPsAllScheduled := dockerPsAllScheduled st;
     pendingLogRequest := pendingLogRequest st |}.
Definition schedule (k : string) (st : AugState) : AugState :=
  {| calls := calls st; scheduledCommands := {[k]} ∪ scheduledCommands st;
     dockerPsAllScheduled := dockerPsAllScheduled st;
     pendingLogRequest := pendingLogRequest st |}.
Definition markPsAllScheduled (st : AugState) : AugState :=
  {| calls := calls st; scheduledCommands := scheduledCommands st;
     dockerPsAllScheduled := true;
     pendingLogRequest := pendingLogRequest st |}.
Definition setPendingLog (containerName : string) (st : AugState) : AugState :=
  {| calls := calls st; scheduledCommands := scheduledCommands st;
     dockerPsAllScheduled := dockerPsAllScheduled st;
     pendingLogRequest := Some (Js.toLowerCase containerName, containerName) |}.
Definition scheduled (k : string) (st : AugState) : bool :=
  bool_decide (k ∈ scheduledCommands st).

Definition isEmpty {A} (l : list A) : bool :=
  match l with [] => true | _ => false end.

(** The block run when the model requested nothing. *)
Definition injectWhenEmpty (h : Heuristics) (st : AugState) : AugState :=
  if isEmpty (calls st) then
    let orPs st :=
      if negb (wrapConversation h)
         && (needsDockerPs h || (explicitDockerQuestion h && hasDockerContext h))
      then
        if negb (scheduled "docker::ps" st)
        then schedule "docker::ps" (push dockerPs st)
        else st
      else st in
    match logsMatch h with
    | Some containerName =>
        if negb (wrapConversation h) && wantsLogs h then
          let st := setPendingLog containerName st in
          let st :=
            if negb (scheduled "docker::ps-a" st)
            then markPsAllScheduled (schedule "docker::ps-a" (push dockerPsAll st))
            else st in
          let key := "docker::logs::" +:+ Js.toLowerCase containerName in
          if negb (scheduled key st)
          then schedule key (push (dockerLogs containerName) st)
          else st
        else orPs st
    | None => orPs st
    end
  else st.

(** The blocks run when calls are present, in program order.  Each takes
    and returns the state and the local [hasExecuteCommand]. *)
Definition logsBlock (h : Heuristics) (sx : AugState * bool) : AugState * bool :=
  let '(st, hasExecuteCommand) := sx in
  let hasLogsCommand := existsb isLogsCommand (calls st) in
  match logsMatch h with
  | Some containerName =>
      if negb (wrapConversation h) && wantsLogs h && negb hasLogsCommand then
        let st := setPendingLog containerName st in
        let hasPsAll := existsb isPsAllCommand (calls st) in
        let st :=
          if negb hasPsAll then
            if negb (scheduled "docker::ps-a" st)
            then markPsAllScheduled (schedule "docker::ps-a" (unshift dockerPsAll st))
            else st
          else st in
        (unshift (dockerLogs containerName) st, true)
      else (st, hasExecuteCommand)
  | None => (st, hasExecuteCommand)
  end.

Definition psBlock (h : Heuristics) (sx : AugState * bool) : AugState * bool :=
  let '(st, hasExecuteCommand) := sx in
  let hasPsCommand := existsb isPsCommand (calls st) in
  if negb (wrapConversation h) && needsDockerPs h && negb hasPsCommand then
    if negb (scheduled "docker::ps" st)
    then (schedule "docker::ps" (unshift dockerPs st), true)
    else (st, hasExecuteCommand)
  else (st, hasExecuteCommand).

(** [hasPsAllCommand] is computed together with [hasPsCommand], before the
    ps block runs. *)
Definition psAllBlock (h : Heuristics) (hasPsAllCommand : bool) (sx : AugState * bool)
  : AugState * bool :=
  let '(st, hasExecuteCommand) := sx in
  if negb (wrapConversation h) && needsDockerPsAll h && negb hasPsAllCommand
     && negb (dockerPsAllScheduled st)
  then
    if negb (scheduled "docker::ps-a" st)
    then (markPsAllScheduled (schedule "docker::ps-a" (unshift dockerPsAll st)), true)
    else (st, hasExecuteCommand)
  else (st, hasExecuteCommand).

Definition captureBlock (h : Heuristics) (hasDockerCapture : bool) (sx : AugState * bool)
  : AugState :=
  let '(st, hasExecuteCommand) := sx in
  if (isDockerQuestion h || hasDockerContext h) && hasDockerCapture && negb hasExecuteCommand
  then unshift dockerPs st
  else st.

Definition injectWhenPresent (h : Heuristics) (hasDockerCapture : bool) (st : AugState)
  : AugState :=
  let hasExecuteCommand := existsb isExecuteCommand (calls st) in
  let sx := logsBlock h (st, hasExecuteCommand) in
  let hasPsAllCommand := existsb isPsAllCommand (calls (fst sx)) in
  let sx := psBlock h sx in
  let sx := psAllBlock h hasPsAllCommand sx in
  captureBlock h hasDockerCapture sx.

Definition startAugment (collected : list FunctionCall) : AugState :=
  {| calls := collected; scheduledCommands := ∅; dockerPsAllScheduled := false;
     pendingLogRequest := None |}.

(** The call list the execution loop runs over; [None] when computing
    [hasDockerCapture] throws.  An empty list ends the turn. *)
Definition augment (h : Heuristics) (collected : list FunctionCall)
  : option (list FunctionCall) :=
  let st := injectWhenEmpty h (startAugment collected) in
  if isEmpty (calls st) then Some []
  else
    match someDockerCapture (calls st) with
    | None => None
    | Some hasDockerCapture => Some (calls (injectWhenPresent h hasDockerCapture st))
    end.

End ToolLoop.

(** ** Window selection (extractRequestedIndex,
       resolveWindowSelectionFromOptions) *)

Module WindowSelection.

Record WindowSelectionOption := {
  title : string;
  displayName : string;
  processName : string;
  isActive : bool;
}.

Record Selection := {
  sel_title : string;
  sel_displayName : string;
  sel_processName : string;
}.

Definition select (processName : string) (o : WindowSelectionOption) : Selection :=
  {| sel_title := title o; sel_displayName := displayName o; sel_processName := processName |}.

(** [Object.entries(ORDINAL_WORDS)], in insertion order. *)
Definition ORDINAL_WORDS : list (string * N) := [
  ("first", 1%N); ("second", 2%N); ("third", 3%N); ("fourth", 4%N);
  ("fifth", 5%N); ("sixth", 6%N); ("seventh", 7%N); ("eighth", 8%N);
  ("ninth", 9%N); ("tenth", 10%N)
].

(** The quote characters U+0022, U+0027 and U+0060. *)
Definition isQuote (c : ascii) : bool :=
  (Js.code c =? 34)%N || (Js.code c =? 39)%N || (Js.code c =? 96)%N.

(** Every quote character removed, as by the global [replace]. *)
Fixpoint removeQuotes (s : string) : string :=
  match s with
  | EmptyString => EmptyString
  | String c r => if isQuote c then removeQuotes r else String c (removeQuotes r)
  end.

(** The longest prefix of digits, and what follows it. *)
Fixpoint digitRun (s : string) : string * string :=
  match s with
  | EmptyString => (EmptyString, EmptyString)
  | String c r =>
      if Js.isDigit c
      then let '(run, rest) := digitRun r in (String c run, rest)
      else (EmptyString, s)
  end.

(** [input.match(/\b(\d+)\b/)]: the first run of digits with a word
    boundary on each side.  A shorter prefix of a run never matches, its
    next character being a digit; [prev] is the character before [s]. *)
Fixpoint matchDigitsFrom (prev : option ascii) (s : string) : option string :=
  match s with
  | EmptyString => None
  | String c r =>
      if Js.isDigit c && Js.wordBoundary prev (Some c) then
        let '(run, rest) := digitRun s in
        if Js.wordBoundary (Js.last run) (Js.head rest) then Some run
        else matchDigitsFrom (Some c) r
      else matchDigitsFrom (Some c) r
  end.

Definition matchDigits (input : string) : option string :=
  matchDigitsFrom None input.

(** [parseInt(digits, 10)] on a run of digits.  The value is exact here;
    the code compares it with an array length only, and beyond 2^53 the
    rounded double is above every array length as well. *)
Definition parseInt (digits : string) : N :=
  fold_left (fun acc c => (acc * 10 + (Js.code c - 48))%N) (list_ascii_of_string digits) 0%N.

Definition inRange (value total : N) : bool :=
  (1 <=? value)%N && (value <=? total)%N.

Fixpoint firstOrdinalWord (lower : string) (total : N) (words : list (string * N)) : option nat :=
  match words with
  | [] => None
  | (word, value) :: rest =>
      if Js.includes lower word && inRange value total
      then Some (N.to_nat (value - 1))
      else firstOrdinalWord lower total rest
  end.

Definition extractRequestedIndex (input : string) (total : nat) : option nat :=
  let fromWords := firstOrdinalWord (Js.toLowerCase input) (N.of_nat total) ORDINAL_WORDS in
  match matchDigits input with
  | Some digits =>
      let candidate := parseInt digits in
      if inRange candidate (N.of_nat total)
      then Some (N.to_nat (candidate - 1))
      else fromWords
  | None => fromWords
  end.

(** *** The matching stages *)

Definition stopWords : list string := [
  "window"; "app"; "tab"; "project"; "file"; "view"; "editor"; "panel";
  "screen"; "pane"; "the"; "this"; "that"; "one"; "please"; "focus";
  "select"; "choose"; "open"; "show"; "display"; "look"; "at"; "into"; "on"
].

(** The first stop word, in the order of the alternation, that stands at
    the start of [s] with a word boundary after it: its length. *)
Fixpoint stopWordHere (prev : option ascii) (s : string) (words : list string) : option nat :=
  match words with
  | [] => None
  | word :: rest =>
      match Js.matchAlt prev (Js.lit word) s with
      | Some (lastMatched, after) =>
          if Js.wordBoundary lastMatched (Js.head after)
          then Some (String.length word)
          else stopWordHere prev s rest
      | None => stopWordHere prev s rest
      end
  end.

(** The global replacement of the stop words by a space.  [skip] counts
    the characters of a match still to be passed over; [prev] is the
    character before [s]. *)
Fixpoint replaceStopWords (prev : option ascii) (skip : nat) (s : string) : string :=
  match s with
  | EmptyString => EmptyString
  | String c r =>
      match skip with
      | S k => replaceStopWords (Some c) k r
      | O =>
          let matched :=
            if Js.wordBoundary prev (Some c) then stopWordHere prev s stopWords else None in
          match matched with
          | Some (S k) => String " " (replaceStopWords (Some c) k r)
          | _ => String c (replaceStopWords (Some c) 0 r)
          end
      end
  end.

(** Every run of white space replaced by one space. *)
Fixpoint collapseSpaces (inRun : bool) (s : string) : string :=
  match s with
  | EmptyString => EmptyString
  | String c r =>
      if Js.isSpace c
      then if inRun then collapseSpaces true r else String " " (collapseSpaces true r)
      else String c (collapseSpaces false r)
  end.

Definition normalizeWindowText (text : string) : string :=
  Js.trim
    (collapseSpaces false
       (replaceStopWords None 0 (removeQuotes (Js.toLowerCase text)))).

(** [s.split(" ")] *)
Fixpoint splitOnSpace (s : string) : list string :=
  match s with
  | EmptyString => [EmptyString]
  | String c r =>
      if (Js.code c =? 32)%N then EmptyString :: splitOnSpace r
      else
        match splitOnSpace r with
        | first :: rest => String c first :: rest
        | [] => [String c EmptyString]
        end
  end.

Definition tokensOf (normalized : string) : list string :=
  List.filter Js.truthy (splitOnSpace normalized).

Definition sameIgnoringCase (a b : string) : bool :=
  String.eqb (Js.toLowerCase a) (Js.toLowerCase b).

Definition absDiff (a b : nat) : nat := ((a - b) + (b - a))%nat.

Definition scoreOption (normalizedRequested : string) (tokens : list string)
    (option : WindowSelectionOption) : nat :=
  let normalizedTitle := normalizeWindowText (title option) in
  let normalizedDisplay := normalizeWindowText (displayName option) in
  let score := 0%nat in
  let score :=
    if Js.truthy normalizedRequested
       && (Js.startsWith normalizedTitle normalizedRequested
           || Js.startsWith normalizedDisplay normalizedRequested)
    then (score + 60)%nat
    else if Js.truthy normalizedRequested
            && (Js.includes normalizedTitle normalizedRequested
                || Js.includes normalizedDisplay normalizedRequested)
    then (score + 45)%nat
    else score in
  let score :=
    if (0 <? length tokens)%nat then
      let matchedTokens :=
        List.filter
          (fun token =>
             (1 <? String.length token)%nat
             && (Js.includes normalizedTitle token || Js.includes normalizedDisplay token))
          tokens in
      if (0 <? length matchedTokens)%nat then
        let score := (score + length matchedTokens * 10)%nat in
        if (length matchedTokens =? length tokens)%nat then (score + 10)%nat else score
      else score
    else score in
  let score := if isActive option then (score + 5)%nat else score in
  if Js.truthy normalizedRequested && (0 <? String.length normalizedTitle)%nat
  then (score + (8 - absDiff (String.length normalizedTitle)
                             (String.length normalizedRequested)))%nat
  else score.

(** The scoring loop: [(bestOption, bestScore)]. *)
Definition bestScored (normalizedRequested : string) (tokens : list string)
    (options : list WindowSelectionOption) : option WindowSelectionOption * nat :=
  fold_left
    (fun '(bestOption, bestScore) option =>
       let score := scoreOption normalizedRequested tokens option in
       if (bestScore <? score)%nat then (Some option, score) else (bestOption, bestScore))
    options (None, 0%nat).

(** Exact title, exact display name, normalised text, then the scored
    match with its threshold of 15. *)
Definition matchStages (processName : string) (options : list WindowSelectionOption)
    (cleaned : string) : option Selection :=
  let normalizedRequested := normalizeWindowText cleaned in
  let tokens := tokensOf normalizedRequested in
  match find (fun option => sameIgnoringCase (title option) cleaned) options with
  | Some directTitleMatch => Some (select processName directTitleMatch)
  | None =>
  match find (fun option => sameIgnoringCase (displayName option) cleaned) options with
  | Some directDisplayMatch => Some (select processName directDisplayMatch)
  | None =>
  match find (fun option =>
                String.eqb (normalizeWindowText (title option)) normalizedRequested
                || String.eqb (normalizeWindowText (displayName option)) normalizedRequested)
             options with
  | Some normalizedMatches => Some (select processName normalizedMatches)
  | None =>
      match bestScored normalizedRequested tokens options with
      | (Some bestOption, bestScore) =>
          if (15 <=? bestScore)%nat then Some (select processName bestOption) else None
      | (None, _) => None
      end
  end end end.

(** *** resolveWindowSelectionFromOptions *)

Definition resolveWindowSelectionFromOptions (processName : string)
    (options : list WindowSelectionOption) (requested : string) : option Selection :=
  if negb (Js.truthy requested) then None
  else
    let cleaned := Js.trim (removeQuotes requested) in
    if negb (Js.truthy cleaned) then None
    else
      match extractRequestedIndex cleaned (length options) with
      | Some indexFromWords =>
          match options !! indexFromWords with
          | Some option => Some (select processName option)
          | None => matchStages processName options cleaned
          end
      | None => matchStages processName options cleaned
      end.

End WindowSelection.

(** ** The capture-analysis cache (windowAnalysis.ts) *)

Module WindowAnalysis.

Definition CACHE_TTL : Z := 5 * 60 * 1000.
Definition MAX_CACHE_SIZE : nat := 50.

Section Cache.

Variable WindowAnalysis : Type.

Record CacheEntry := {
  analysis : WindowAnalysis;
  timestamp : Z;
}.

(** The [Map], as its entries in insertion order. *)
Definition Cache := list (string * CacheEntry).

(** [imageHash.substring(0, 16)] *)
Fixpoint take (n : nat) (s : string) : string :=
  match n, s with
  | S n', String c r => String c (take n' r)
  | _, _ => EmptyString
  end.

Definition getCacheKey (windowTitle processName imageHash : string) : string :=
  windowTitle +:+ "|" +:+ processName +:+ "|" +:+ take 16 imageHash.

Definition cacheGet (key : string) (cache : Cache) : option CacheEntry :=
  match find (fun e => String.eqb (fst e) key) cache with
  | Some e => Some (snd e)
  | None => None
  end.

Definition cacheDelete (key : string) (cache : Cache) : Cache :=
  List.filter (fun e => negb (String.eqb (fst e) key)) cache.

(** [cache.set]: an existing key keeps its place. *)
Fixpoint cacheSet (key : string) (entry : CacheEntry) (cache : Cache) : Cache :=
  match cache with
  | [] => [(key, entry)]
  | (k, e) :: rest =>
      if String.eqb k key then (k, entry) :: rest
      else (k, e) :: cacheSet key entry rest
  end.

Definition cleanExpiredEntries (now : Z) (cache : Cache) : Cache :=
  List.filter (fun e => negb (now - timestamp (snd e) >? CACHE_TTL)%Z) cache.

(** The search loop of evictIfNeeded: [(oldestKey, oldestTime)]. *)
Definition findOldest (now : Z) (cache : Cache) : option string * Z :=
  fold_left
    (fun '(oldestKey, oldestTime) e =>
       if (timestamp (snd e) <? oldestTime)%Z
       then (Some (fst e), timestamp (snd e))
       else (oldestKey, oldestTime))
    cache (None, now).

Definition evictIfNeeded (now : Z) (cache : Cache) : Cache :=
  if (MAX_CACHE_SIZE <=? length cache)%nat then
    match fst (findOldest now cache) with
    | Some oldestKey => if Js.truthy oldestKey then cacheDelete oldestKey cache else cache
    | None => cache
    end
  else cache.

(** The four readings of [Date.now()] in one call, in program order. *)
Record Clock := {
  atClean : Z;
  atLookup : Z;
  atEvict : Z;
  atStore : Z;
}.

(** [performed] is what performAnalysis yields: a result, or [None] when
    it throws.  The answer of the call and the cache afterwards. *)
Definition analyzeWindowCapture (clock : Clock) (performed : option WindowAnalysis)
    (windowTitle processName imageHash : string) (cache : Cache)
  : option WindowAnalysis * Cache :=
  let cache := cleanExpiredEntries (atClean clock) cache in
  let cacheKey := getCacheKey windowTitle processName imageHash in
  let miss :=
    let cache := evictIfNeeded (atEvict clock) cache in
    match performed with
    | Some a => (Some a, cacheSet cacheKey {| analysis := a; timestamp := atStore clock |} cache)
    | None => (None, cache)
    end in
  match cacheGet cacheKey cache with
  | Some cached =>
      if (atLookup clock - timestamp cached <? CACHE_TTL)%Z
      then (Some (analysis cached), cache)
      else miss
  | None => miss
  end.

(** One capture: its clock readings, the analysis performed on a miss and
    the window it is about. *)
Record Capture := {
  clock : Clock;
  performed : option WindowAnalysis;
  windowTitle : string;
  processName : string;
  imageHash : string;
}.

Definition runCaptures (captures : list Capture) (cache : Cache) : Cache :=
  fold_left
    (fun cache c =>
       snd (analyzeWindowCapture (clock c) (performed c)
              (windowTitle c) (processName c) (imageHash c) cache))
    captures cache.

End Cache.

End WindowAnalysis.

(** ** The approval hook (useChat) *)

(** The state of the hook is the list [pendingCommands].  A callback reads
    the list of the render it was created in; here it is given the current
    list. *)

Module UseChat.
Import CommandPolicy Orchestrator ToolLoop.

Definition hasId (requestId : string) (item : PendingCommandRequest) : bool :=
  String.eqb (id item) requestId.

Definition setStatus (s : RequestStatus) (res : option CommandResult) (err : option string)
    (item : PendingCommandRequest) : PendingCommandRequest :=
  {| id := id item; req_command := req_command item; req_args := req_args item;
     policy := policy item; createdAt := createdAt item;
     status := s; result := res; error := err |}.

(** The spread of a request coming from the orchestrator over an existing
    item.  The orchestrator's literals carry no [result]; the one for a
    blocked command carries [error], the one for a pending command does
    not. *)
Definition merge (old request : PendingCommandRequest) : PendingCommandRequest :=
  {| id := id request; req_command := req_command request; req_args := req_args request;
     policy := policy request; createdAt := createdAt request;
     status := status request;
     result := result old;
     error := match status request with
              | status_blocked => error request
              | _ => error old
              end |}.

Fixpoint upsert (request : PendingCommandRequest) (prev : list PendingCommandRequest)
  : list PendingCommandRequest :=
  match prev with
  | [] => [request]
  | item :: rest =>
      if hasId (id request) item then merge item request :: rest
      else item :: upsert request rest
  end.

(** [findIndex]; then the item updated in place, or the request appended. *)
Definition handleCommandRequest (request : PendingCommandRequest)
    (prev : list PendingCommandRequest) : list PendingCommandRequest :=
  upsert request prev.

Definition isExecuted (s : RequestStatus) : bool :=
  match s with executed => true | _ => false end.
Definition isExecuting (s : RequestStatus) : bool :=
  match s with executing => true | _ => false end.
Definition isDenied (s : RequestStatus) : bool :=
  match s with denied => true | _ => false end.

(** What the hook does outside its state. *)
Inductive HookEvent :=
| Execute (command : string) (args : list string)
| SendMessage (text : string).

(** The guard of approveCommandRequest: the request to run, if any. *)
Definition approvable (requestId : string) (pendingCommands : list PendingCommandRequest)
  : option PendingCommandRequest :=
  match find (hasId requestId) pendingCommands with
  | None => None
  | Some request =>
      if isExecuted (status request) || isExecuting (status request) then None
      else Some request
  end.

Definition markExecuting (requestId : string) (prev : list PendingCommandRequest) :=
  map (fun item => if hasId requestId item then setStatus executing (result item) None item else item) prev.

(** [result.error || undefined] *)
Definition truthyError (e : option string) : option string :=
  match e with
  | Some s => if Js.truthy s then Some s else None
  | None => None
  end.

Definition markExecuted (requestId : string) (outcome : CommandResult + option string)
    (prev : list PendingCommandRequest) :=
  map (fun item =>
         if hasId requestId item then
           match outcome with
           | inl res => setStatus executed (Some res) (truthyError (cr_error res)) item
           | inr thrown => setStatus executed (result item) (Some (orElse thrown "Command execution failed")) item
           end
         else item) prev.

Definition remove (requestId : string) (prev : list PendingCommandRequest) :=
  List.filter (fun item => negb (hasId requestId item)) prev.

Definition markDenied (requestId : string) (prev : list PendingCommandRequest) :=
  map (fun item => if hasId requestId item then setStatus denied (result item) None item else item) prev.

Section Hook.

Variable executeCommand : string -> list string -> CommandResult + option string.

(** approveCommandRequest, run to completion: the pending list after it
    and what it did. *)
Definition approveCommandRequest (requestId : string)
    (pendingCommands : list PendingCommandRequest)
  : list PendingCommandRequest * list HookEvent :=
  match approvable requestId pendingCommands with
  | None => (pendingCommands, [])
  | Some request =>
      let running := markExecuting requestId pendingCommands in
      let outcome := executeCommand (req_command request) (req_args request) in
      let done := markExecuted requestId outcome running in
      let text :=
        match outcome with
        | inl _ => "Command executed successfully. What would you like to do next?"
        | inr thrown =>
            "Command execution failed: " +:+ orElse thrown "Command execution failed"
            +:+ ". Please try a different approach."
        end in
      (remove requestId done,
       [Execute (req_command request) (req_args request); SendMessage text])
  end.

Definition deniable (requestId : string) (pendingCommands : list PendingCommandRequest) : bool :=
  match find (hasId requestId) pendingCommands with
  | None => false
  | Some request => negb (isExecuted (status request) || isDenied (status request))
  end.

Definition denyCommandRequest (requestId : string)
    (pendingCommands : list PendingCommandRequest)
  : list PendingCommandRequest * list HookEvent :=
  if deniable requestId pendingCommands then
    (remove requestId (markDenied requestId pendingCommands),
     [SendMessage "Command was denied for safety reasons. Please try a different approach."])
  else (pendingCommands, []).

End Hook.

(** The operations on the pending list, one state update each.  An
    approval is [Approve] (the guard and the update to executing, after
    which the host command runs), then [Completed], then [Dismiss]; a
    denial is [Deny], then [Dismiss]. *)
Inductive Op :=
| Notify (generated : string) (now : Z) (r : ToolResponse)
| Approve (requestId : string)
| Completed (requestId : string) (outcome : CommandResult + option string)
| Deny (requestId : string)
| Dismiss (requestId : string).

Definition step (op : Op) (st : list PendingCommandRequest) : list PendingCommandRequest :=
  match op with
  | Notify generated now r =>
      match commandRequestOf generated now r with
      | Some request => handleCommandRequest request st
      | None => st
      end
  | Approve requestId =>
      match approvable requestId st with
      | Some _ => markExecuting requestId st
      | None => st
      end
  | Completed requestId outcome => markExecuted requestId outcome st
  | Deny requestId =>
      if deniable requestId st then markDenied requestId st else st
  | Dismiss requestId => remove requestId st
  end.

(** The host commands an operation starts. *)
Definition runs (op : Op) (st : list PendingCommandRequest) : list HookEvent :=
  match op with
  | Approve requestId =>
      match approvable requestId st with
      | Some request => [Execute (req_command request) (req_args request)]
      | None => []
      end
  | _ => []
  end.

End UseChat.

(** * Further parts of the code *)

(** ** Further string primitives *)

Module JsString.

Fixpoint drop (n : nat) (s : string) : string :=
  match n, s with
  | S n', String _ r => drop n' r
  | _, _ => s
  end.

(** [s.endsWith(suffix)] *)
Definition endsWith (s suffix : string) : bool :=
  (String.length suffix <=? String.length s)%nat
  && String.eqb (drop (String.length s - String.length suffix) s) suffix.

(** [s.slice(0, -k)] for [k > 0] *)
Definition dropLast (k : nat) (s : string) : string :=
  WindowAnalysis.take (String.length s - k) s.

(** [s.split(sep)] for a separator that is not empty: the pieces between
    the occurrences of [sep] found from left to right.  [skip] counts the
    characters of an occurrence still to be passed over. *)
Fixpoint splitFrom (sep : string) (skip : nat) (s : string) : list string :=
  match s with
  | EmptyString => [EmptyString]
  | String c r =>
      match skip with
      | S k => splitFrom sep k r
      | O =>
          if Js.startsWith s sep
          then EmptyString :: splitFrom sep (String.length sep - 1) r
          else
            match splitFrom sep 0 r with
            | first :: rest => String c first :: rest
            | [] => [String c EmptyString]
            end
      end
  end.

Definition split (sep s : string) : list string := splitFrom sep 0 s.

(** [parts.join(sep)] *)
Fixpoint join (sep : string) (parts : list string) : string :=
  match parts with
  | [] => EmptyString
  | [p] => p
  | p :: rest => p +:+ sep +:+ join sep rest
  end.

(** The line feed, and the quotation mark U+0022. *)
Definition nl : string := String "010"%char EmptyString.
Definition quote : string := String "034"%char EmptyString.

End JsString.

(** ** The window-selection cache and resolveWindowSelection (gemini.ts) *)

Module SelectionCache.
Import WindowSelection.

Definition WINDOW_SELECTION_TTL : Z := 2 * 60 * 1000.

Record CachedWindowSelection := {
  options : list WindowSelectionOption;
  timestamp : Z;
}.

(** [windowSelectionCache], as the entries of the [Map] in insertion
    order. *)
Definition SelectionMap := list (string * CachedWindowSelection).

Definition mapGet (key : string) (m : SelectionMap) : option CachedWindowSelection :=
  match find (fun e => String.eqb (fst e) key) m with
  | Some e => Some (snd e)
  | None => None
  end.

(** [Map.set]: an existing key keeps its place. *)
Fixpoint mapSet (key : string) (v : CachedWindowSelection) (m : SelectionMap) : SelectionMap :=
  match m with
  | [] => [(key, v)]
  | (k, old) :: rest =>
      if String.eqb k key then (k, v) :: rest else (k, old) :: mapSet key v rest
  end.

Definition mapDelete (key : string) (m : SelectionMap) : SelectionMap :=
  List.filter (fun e => negb (String.eqb (fst e) key)) m.

(** [processName.trim().toLowerCase()] *)
Definition keyOf (processName : string) : string :=
  Js.toLowerCase (Js.trim processName).

Definition cacheWindowOptions (now : Z) (processName : string)
    (opts : list WindowSelectionOption) (m : SelectionMap) : SelectionMap :=
  let key := keyOf processName in
  if negb (Js.truthy key) then m
  else mapSet key {| options := opts; timestamp := now |} m.

Definition getCachedWindowOptions (now : Z) (processName : string) (m : SelectionMap)
  : option (list WindowSelectionOption) * SelectionMap :=
  let key := keyOf processName in
  match mapGet key m with
  | None => (None, m)
  | Some cached =>
      if (now - timestamp cached >? WINDOW_SELECTION_TTL)%Z
      then (None, mapDelete key m)
      else (Some (options cached), m)
  end.

(** The loop of getAllCachedWindowOptions from entry number [k] on;
    [clock k] is the reading of [Date.now()] at entry number [k].  The
    entries returned and the entries kept. *)
Fixpoint sweepFrom (clock : nat -> Z) (k : nat) (m : SelectionMap)
  : list (string * list WindowSelectionOption) * SelectionMap :=
  match m with
  | [] => ([], [])
  | (key, cached) :: rest =>
      let '(entries, kept) := sweepFrom clock (S k) rest in
      if (clock k - timestamp cached <=? WINDOW_SELECTION_TTL)%Z
      then ((key, options cached) :: entries, (key, cached) :: kept)
      else (entries, kept)
  end.

Definition getAllCachedWindowOptions (clock : nat -> Z) (m : SelectionMap)
  : list (string * list WindowSelectionOption) * SelectionMap :=
  sweepFrom clock 0 m.

(** [resolved.displayName || resolved.title] *)
Definition candidateText (resolved : Selection) : string :=
  if Js.truthy (sel_displayName resolved) then sel_displayName resolved
  else sel_title resolved.

(** The score of a selection resolved from one cached entry. *)
Definition crossScore (requested : string) (resolved : Selection) : nat :=
  let normalizedRequested := normalizeWindowText requested in
  let normalizedCandidate := normalizeWindowText (candidateText resolved) in
  if String.eqb normalizedCandidate normalizedRequested then 100%nat
  else if Js.startsWith normalizedCandidate normalizedRequested then 80%nat
  else if Js.includes normalizedCandidate normalizedRequested then 60%nat
  else
    let tokens := tokensOf normalizedRequested in
    let matchedTokens :=
      List.filter
        (fun token => (1 <? String.length token)%nat && Js.includes normalizedCandidate token)
        tokens in
    (length matchedTokens * 10)%nat.

(** The loop over all cached entries: [(bestMatch, bestScore)]. *)
Definition bestAcross (requested : string)
    (allOptions : list (string * list WindowSelectionOption)) : option Selection * nat :=
  fold_left
    (fun '(bestMatch, bestScore) entry =>
       match resolveWindowSelectionFromOptions (fst entry) (snd entry) requested with
       | Some resolved =>
           let score := crossScore requested resolved in
           if (bestScore <? score)%nat then (Some resolved, score) else (bestMatch, bestScore)
       | None => (bestMatch, bestScore)
       end)
    allOptions (None, 0%nat).

(** The readings of [Date.now()] in one call of resolveWindowSelection. *)
Record Clock := {
  atScoped : Z;
  atSweep : nat -> Z;
}.

(** The options cached for the process, when the name is given. *)
Definition scopedOptions (clock : Clock) (processName : option string) (m : SelectionMap)
  : option (list WindowSelectionOption) * SelectionMap :=
  match processName with
  | Some p => if Js.truthy p then getCachedWindowOptions (atScoped clock) p m else (None, m)
  | None => (None, m)
  end.

Definition resolveWindowSelection (clock : Clock) (processName : option string)
    (requested : string) (m : SelectionMap) : option Selection * SelectionMap :=
  if negb (Js.truthy requested) then (None, m)
  else
    let '(scoped, m1) := scopedOptions clock processName m in
    let resolvedInProcess :=
      match processName, scoped with
      | Some p, Some opts =>
          if (0 <? length opts)%nat then resolveWindowSelectionFromOptions p opts requested
          else None
      | _, _ => None
      end in
    match resolvedInProcess with
    | Some resolved => (Some resolved, m1)
    | None =>
        let '(allOptions, m2) := getAllCachedWindowOptions (atSweep clock) m1 in
        (fst (bestAcross requested allOptions), m2)
    end.

End SelectionCache.

(** ** The capture_window_with_ocr case of handleFunctionCall (gemini.ts) *)

(** The arguments [process_name] and [window_title] of the call are
    strings or absent.  The host functions listWindowsByProcess and
    captureWindowWithOCR are parameters: each gives its result, or the
    message of the error it throws. *)

Module CaptureCase.
Import WindowSelection SelectionCache JsString.
Import Orchestrator (orElse).

Record WindowInfo := {
  wi_title : string;
  wi_process_name : string;
  wi_is_active : bool;
}.

Record CaptureArgs := {
  process_name : option string;
  window_title : option string;
}.

(** Truthiness of an argument that is a string or absent. *)
Definition given (a : option string) : bool :=
  match a with
  | Some s => Js.truthy s
  | None => false
  end.

(** The title without the suffix [" - " + process_name]; of what is left,
    the part after the last [" - "]. *)
Definition displayNameOf (w : WindowInfo) : string :=
  let processSuffix := " - " +:+ wi_process_name w in
  let cleaned :=
    if endsWith (wi_title w) processSuffix
    then dropLast (String.length processSuffix) (wi_title w)
    else wi_title w in
  let parts := split " - " cleaned in
  if (1 <? length parts)%nat then List.last parts cleaned else cleaned.

Definition optionOf (w : WindowInfo) : WindowSelectionOption :=
  {| title := wi_title w;
     displayName := displayNameOf w;
     processName := wi_process_name w;
     isActive := wi_is_active w |}.

Definition numberOf (n : nat) : string := Scanner.numberToString (Z.of_nat n).

(** One line of the list shown to the user; [idx] counts from 0. *)
Definition optionLine (idx : nat) (opt : WindowSelectionOption) : string :=
  numberOf (idx + 1) +:+ ". " +:+ quote +:+ displayName opt +:+ quote +:+ " "
  +:+ (if isActive opt then "(currently active)" else EmptyString).

Definition windowList (opts : list WindowSelectionOption) : string :=
  join nl (imap optionLine opts).

Definition severalWindowsMessage (opts : list WindowSelectionOption) : string :=
  "I found " +:+ numberOf (length opts) +:+ " windows:" +:+ nl +:+ nl
  +:+ windowList opts +:+ nl +:+ nl
  +:+ "Which one would you like me to focus on? Please specify by number (1-"
  +:+ numberOf (length opts) +:+ ") or by window name.".

Definition oneWindowMessage (opts : list WindowSelectionOption) : string :=
  "I found 1 window:" +:+ nl +:+ nl +:+ windowList opts +:+ nl +:+ nl
  +:+ "Would you like me to focus on this window?".

Definition noWindowsError (processName : string) : string :=
  "No windows found for process " +:+ quote +:+ processName +:+ quote
  +:+ ". Please check if the application is running.".

Definition unmatchedReason (windowTitle : string) : string :=
  "I couldn't match " +:+ quote +:+ windowTitle +:+ quote
  +:+ " to a specific window. Please pick from the list below using the exact number or by copying the window title.".

Section Case.

Variable WindowAnalysis : Type.

Record WindowCaptureResult := {
  cap_image_base64 : string;
  cap_hash : string;
  cap_ocr_text : option string;
  cap_window_title : string;
  cap_process_name : string;
  cap_analysis : option WindowAnalysis;
}.

(** The [response] of the case:
    - [NoWindows]: success false, the error, an empty [windows];
    - [ChooseWindow]: success false, multiple_windows_found true, the
      message, the instruction to show it verbatim, and the options;
    - [Captured]: success true with image_base64, ocr_text,
      window_title, process_name and analysis;
    - [Failed]: the answer of the catch block, success false and the
      error. *)
Inductive CaptureResponse :=
| NoWindows (error : string)
| ChooseWindow (message : string) (windows : list WindowSelectionOption)
| Captured (image_base64 ocr_text window_title process_name : string)
    (analysis : option WindowAnalysis)
| Failed (error : string).

(** What the case does outside: status updates and host calls. *)
Inductive HostCall :=
| StatusUpdate (status : string)
| ListWindows (processName : string)
| CaptureWindow (processName windowTitle : option string).

(** The host: the listing made by the case, the listing made by
    buildWindowSelectionPrompt, and the capture. *)
Variable listWindowsByProcess : string -> list WindowInfo + option string.
Variable listWindowsAgain : string -> list WindowInfo + option string.
Variable captureWindowWithOCR :
  option string -> option string -> WindowCaptureResult + option string.

(** The readings of [Date.now()], in program order. *)
Record CaptureClock := {
  atCache : Z;
  atResolve : Clock;
  atCacheAgain : Z;
}.

Definition Outcome : Type := CaptureResponse * list HostCall * SelectionMap.

(** The catch block of handleFunctionCall. *)
Definition caught (thrown : option string) (events : list HostCall) (m : SelectionMap)
  : Outcome :=
  (Failed (orElse thrown "Function call failed"),
   events ++ [StatusUpdate "Error occurred"], m).

Definition buildWindowSelectionPrompt (clock : CaptureClock) (processName : string)
    (reason : string) (events : list HostCall) (m : SelectionMap) : Outcome :=
  let events := events ++ [ListWindows processName] in
  match listWindowsAgain processName with
  | inr thrown => caught thrown events m
  | inl [] => (NoWindows (noWindowsError processName), events, m)
  | inl windows =>
      let windowOptions := map optionOf windows in
      let baseMessage :=
        if (length windows =? 1)%nat then oneWindowMessage windowOptions
        else severalWindowsMessage windowOptions in
      let message :=
        if Js.truthy reason then Js.trim reason +:+ nl +:+ nl +:+ baseMessage
        else baseMessage in
      (ChooseWindow message windowOptions, events,
       cacheWindowOptions (atCacheAgain clock) processName windowOptions m)
  end.

(** [args.process_name || args.window_title || "the window"] *)
Definition targetApp (args : CaptureArgs) : string :=
  orElse (process_name args) (orElse (window_title args) "the window").

(** The capture itself, with the arguments as they stand. *)
Definition proceedWithCapture (args : CaptureArgs) (events : list HostCall)
    (m : SelectionMap) : Outcome :=
  let events :=
    events ++ [StatusUpdate ("Capturing " +:+ targetApp args +:+ "...");
               CaptureWindow (process_name args) (window_title args)] in
  match captureWindowWithOCR (process_name args) (window_title args) with
  | inr thrown => caught thrown events m
  | inl result =>
      (Captured (cap_image_base64 result)
         (orElse (cap_ocr_text result) EmptyString)
         (cap_window_title result) (cap_process_name result) (cap_analysis result),
       events ++ [StatusUpdate "Understanding its content..."], m)
  end.

(** From [onStatusUpdate?.("Focusing on app...")] on: the title is
    resolved against the cached options, then the window is captured. *)
Definition focusAndCapture (clock : CaptureClock) (args : CaptureArgs)
    (events : list HostCall) (m : SelectionMap) : Outcome :=
  let events := events ++ [StatusUpdate "Focusing on app..."] in
  if given (window_title args) then
    let requested := orElse (window_title args) EmptyString in
    let '(resolvedWindow, m) :=
      resolveWindowSelection (atResolve clock) (process_name args) requested m in
    match resolvedWindow with
    | Some resolved =>
        let args :=
          {| window_title := Some (sel_title resolved);
             process_name :=
               if given (process_name args) then process_name args
               else Some (sel_processName resolved) |} in
        proceedWithCapture args events m
    | None =>
        if given (process_name args) then
          buildWindowSelectionPrompt clock (orElse (process_name args) EmptyString)
            (unmatchedReason requested) events m
        else proceedWithCapture args events m
    end
  else proceedWithCapture args events m.

Definition captureWindowCase (clock : CaptureClock) (args : CaptureArgs) (m : SelectionMap)
  : Outcome :=
  let events := [StatusUpdate "Checking for windows..."] in
  if given (process_name args) && negb (given (window_title args)) then
    let processName := orElse (process_name args) EmptyString in
    let events := events ++ [ListWindows processName] in
    match listWindowsByProcess processName with
    | inr thrown => caught thrown events m
    | inl [] => (NoWindows (noWindowsError processName), events, m)
    | inl windows =>
        let windowOptions := map optionOf windows in
        let m := cacheWindowOptions (atCache clock) processName windowOptions m in
        match windowOptions with
        | [single] =>
            focusAndCapture clock
              {| process_name := process_name args; window_title := Some (title single) |}
              events m
        | _ => (ChooseWindow (severalWindowsMessage windowOptions) windowOptions, events, m)
        end
    end
  else focusAndCapture clock args events m.

End Case.

End CaptureCase.

(** ** Docker containers seen in command output (sendMessageWithVision) *)

Module Docker.

Record DockerContainer := {
  name : string;
  id : string;
  status : string;
}.

Definition prepend (c : ascii) (pieces : list string) : list string :=
  match pieces with
  | first :: rest => String c first :: rest
  | [] => [String c EmptyString]
  end.

Definition isLF (c : ascii) : bool := (Js.code c =? 10)%N.
Definition isCR (c : ascii) : bool := (Js.code c =? 13)%N.
Definition isTab (c : ascii) : bool := (Js.code c =? 9)%N.

(** [stdout.split(/\r?\n/)] *)
Fixpoint splitLines (s : string) : list string :=
  match s with
  | EmptyString => [EmptyString]
  | String c r =>
      if isLF c then EmptyString :: splitLines r
      else
        match r with
        | String c' r' =>
            if isCR c && isLF c' then EmptyString :: splitLines r'
            else prepend c (splitLines r)
        | EmptyString => prepend c (splitLines r)
        end
  end.

(** The number of white-space characters [s] begins with. *)
Fixpoint spaceRun (s : string) : nat :=
  match s with
  | EmptyString => O
  | String c r => if Js.isSpace c then S (spaceRun r) else O
  end.

(** [line.split(/\s{2,}|\t+/)]: a separator is a run of two or more
    white-space characters, or a tab standing alone.  [skip] counts the
    characters of a separator still to be passed over. *)
Fixpoint splitColumnsFrom (skip : nat) (s : string) : list string :=
  match s with
  | EmptyString => [EmptyString]
  | String c r =>
      match skip with
      | S k => splitColumnsFrom k r
      | O =>
          if (2 <=? spaceRun s)%nat then EmptyString :: splitColumnsFrom (spaceRun s - 1) r
          else if isTab c then EmptyString :: splitColumnsFrom 0 r
          else prepend c (splitColumnsFrom 0 r)
      end
  end.

Definition splitColumns (line : string) : list string := splitColumnsFrom 0 line.

Definition isNameSeparator (c : ascii) : bool :=
  (Js.code c =? 44)%N || (Js.code c =? 32)%N.

(** [names.split(/[, ]+/)]; [inSeparator] tells that the character before
    belongs to a separator. *)
Fixpoint splitNamesFrom (inSeparator : bool) (s : string) : list string :=
  match s with
  | EmptyString => [EmptyString]
  | String c r =>
      if isNameSeparator c
      then if inSeparator then splitNamesFrom true r
           else EmptyString :: splitNamesFrom true r
      else prepend c (splitNamesFrom false r)
  end.

Definition splitNames (names : string) : list string := splitNamesFrom false names.

(** [/\b(Up|Exited|Created|Restarting|Paused)\b/i]: the letters of the
    pattern are ASCII, so the test on [p] is the case-sensitive test on
    the lower-cased [p]. *)
Definition statusWords : list Js.Pattern :=
  map Js.lit ["up"; "exited"; "created"; "restarting"; "paused"].

Definition looksLikeStatus (p : string) : bool :=
  Js.testBounded statusWords (Js.toLowerCase p).

Definition known (containerName : string) (dockerContainers : list DockerContainer) : bool :=
  existsb (fun c => String.eqb (name c) containerName) dockerContainers.

(** The [forEach] over the names of one line. *)
Definition recordNames (containerId containerStatus : string) (names : list string)
    (dockerContainers : list DockerContainer) : list DockerContainer :=
  fold_left
    (fun acc containerName =>
       if known containerName acc then acc
       else acc ++ [{| name := containerName; id := containerId; status := containerStatus |}])
    names dockerContainers.

Definition recordLine (dockerContainers : list DockerContainer) (line : string)
  : list DockerContainer :=
  let parts := splitColumns (Js.trim line) in
  if (2 <=? length parts)%nat then
    let containerId := List.hd EmptyString parts in
    let names := List.last parts EmptyString in
    let containerStatus :=
      match find looksLikeStatus parts with
      | Some p => p
      | None => EmptyString
      end in
    recordNames containerId containerStatus
      (List.filter Js.truthy (splitNames names)) dockerContainers
  else dockerContainers.

Definition recordDockerContainers (stdout : string) (dockerContainers : list DockerContainer)
  : list DockerContainer :=
  let lines := List.filter Js.truthy (splitLines stdout) in
  if (length lines <=? 1)%nat then dockerContainers
  else fold_left recordLine (List.tl lines) dockerContainers.

(** The answer of resolveContainerName: [name] and [suggestions]. *)
Record Resolution := {
  res_name : option string;
  suggestions : list string;
}.

Definition resolveContainerName (requested : string) (dockerContainers : list DockerContainer)
  : Resolution :=
  match dockerContainers with
  | [] => {| res_name := None; suggestions := [] |}
  | _ =>
      let lower := Js.toLowerCase requested in
      let found (c : DockerContainer) := {| res_name := Some (name c); suggestions := [] |} in
      match find (fun c => String.eqb (Js.toLowerCase (name c)) lower) dockerContainers with
      | Some exact => found exact
      | None =>
      match find (fun c => Js.startsWith (Js.toLowerCase (name c)) lower) dockerContainers with
      | Some starts => found starts
      | None =>
      match find (fun c => Js.includes (Js.toLowerCase (name c)) lower) dockerContainers with
      | Some contains => found contains
      | None =>
          {| res_name := None; suggestions := map name (take 5 dockerContainers) |}
      end end end
  end.

(** [pendingLogRequest] *)
Record PendingLog := {
  requested : string;
  original : string;
}.

Fixpoint findIndex {A} (f : A -> bool) (l : list A) : option nat :=
  match l with
  | [] => None
  | x :: r => if f x then Some O else option_map S (findIndex f r)
  end.

(** What follows ["logs"] in the rewritten arguments before the container
    name: the value of --tail, when the call gives one. *)
Definition tailArguments (argsArray : list string) : list string :=
  let second :=
    match argsArray !! 1%nat, argsArray !! 2%nat with
    | Some flag, Some value => if String.eqb flag "--tail" then ["--tail"; value] else []
    | _, _ => []
    end in
  match findIndex (fun arg => String.eqb (Js.toLowerCase arg) "--tail") argsArray with
  | Some tailIndex =>
      match argsArray !! (tailIndex + 1)%nat with
      | Some value => ["--tail"; value]
      | None => second
      end
  | None => second
  end.

(** The block before handleFunctionCall for an execute_command call:
    - [Proceed]: the call is handled with these arguments;
    - [NoSuchContainer]: the call is passed over and the message is kept
      for the end of the turn.
    Each with the pending log request afterwards. *)
Inductive Prepared :=
| Proceed (args : list string) (pendingLogRequest : option PendingLog)
| NoSuchContainer (message : string) (pendingLogRequest : option PendingLog).

Definition noSuchContainerMessage (pending : PendingLog) (names : list string) : string :=
  "I couldn't find a container matching " +:+ JsString.quote +:+ original pending
  +:+ JsString.quote +:+ ". "
  +:+ (if (0 <? length names)%nat
       then "Possible containers: " +:+ JsString.join ", " names
       else "No containers are currently listed by Docker.").

(** [command] is [funcCall.args?.command?.toLowerCase()]. *)
Definition prepareExecuteCommand (command : option string) (argsArray : list string)
    (pendingLogRequest : option PendingLog) (dockerContainers : list DockerContainer)
  : Prepared :=
  match command, pendingLogRequest with
  | Some c, Some pending =>
      if String.eqb c "docker" && existsb (String.eqb "logs") argsArray then
        let resolution := resolveContainerName (requested pending) dockerContainers in
        match res_name resolution with
        | Some containerName =>
            if Js.truthy containerName
            then Proceed (["logs"] ++ tailArguments argsArray ++ [containerName]) None
            else NoSuchContainer (noSuchContainerMessage pending (suggestions resolution)) None
        | None => NoSuchContainer (noSuchContainerMessage pending (suggestions resolution)) None
        end
      else Proceed argsArray pendingLogRequest
  | _, _ => Proceed argsArray pendingLogRequest
  end.

End Docker.

(** ** hasRecentCapture (gemini.ts) *)

Module CaptureHistory.
Import Orchestrator.

(** [/\b(captured|screenshot|window|ocr|extracted|image)\b/i]: the
    letters of the pattern are ASCII, so the test is the case-sensitive
    one on the lower-cased content. *)
Definition captureKeywords : list Js.Pattern :=
  map Js.lit ["captured"; "screenshot"; "window"; "ocr"; "extracted"; "image"].

(** [name && content.toLowerCase().includes(name.toLowerCase())] *)
Definition mentions (what : option string) (text : string) : bool :=
  match what with
  | Some n => Js.truthy n && Js.includes (Js.toLowerCase text) (Js.toLowerCase n)
  | None => false
  end.

Definition isAssistant (m : Message) : bool :=
  match role m with assistant => true | _ => false end.

(** The test the loop makes on one message. *)
Definition followsCapture (processName windowTitle : option string) (msg : Message) : bool :=
  isAssistant msg && Js.truthy (content msg)
  && (mentions processName (content msg) || mentions windowTitle (content msg)
      || Js.testBounded captureKeywords (Js.toLowerCase (content msg))).

(** [messages.slice(-maxMessagesBack)] *)
Definition recentMessages (maxMessagesBack : nat) (messages : list Message) : list Message :=
  match maxMessagesBack with
  | O => messages
  | _ => drop (length messages - maxMessagesBack) messages
  end.

(** The loop from [i] down to 0 over [recent]: [countdown] is [i + 1]. *)
Fixpoint searchBack (processName windowTitle : option string) (total : nat)
    (recent : list Message) (countdown : nat) : option nat :=
  match countdown with
  | O => None
  | S i =>
      let messageIndex := (total - (length recent - i))%nat in
      match recent !! i with
      | Some msg =>
          if followsCapture processName windowTitle msg && (0 <? messageIndex)%nat
          then Some messageIndex
          else searchBack processName windowTitle total recent i
      | None => searchBack processName windowTitle total recent i
      end
  end.

(** [captureMessageIndex] when [hasCapture] is true. *)
Definition hasRecentCapture (messages : list Message) (processName windowTitle : option string)
    (maxMessagesBack : nat) : option nat :=
  let recent := recentMessages maxMessagesBack messages in
  searchBack processName windowTitle (length messages) recent (length recent).

End CaptureHistory.

(** ** buildOptimizedHistory (contextManager.ts) *)

Module ContextManager.
Import Orchestrator (Role).

Record Message := {
  id : string;
  role : Role;
  content : string;
  timestamp : Z;
  screenshots : option (list string);
}.

(** [{...msg, screenshots: keep ? msg.screenshots : undefined}] *)
Definition keepScreenshots (keep : bool) (msg : Message) : Message :=
  {| id := id msg; role := role msg; content := content msg; timestamp := timestamp msg;
     screenshots := if keep then screenshots msg else None |}.

(** [messages.slice(-maxMessages + 1)]: from index 1 when [maxMessages]
    is 0, the whole list when it is 1, the last [maxMessages - 1]
    messages otherwise. *)
Definition lastMessages (maxMessages : nat) (messages : list Message) : list Message :=
  match maxMessages with
  | O => drop 1 messages
  | S O => messages
  | S k => drop (length messages - k) messages
  end.

Definition buildOptimizedHistory (messages : list Message) (maxMessages : nat) : list Message :=
  if (length messages <=? maxMessages)%nat then
    imap (fun index msg =>
            keepScreenshots (Z.of_nat (length messages) - 2 <=? Z.of_nat index)%Z msg)
      messages
  else
    match messages with
    | [] => []
    | first :: _ =>
        keepScreenshots false first
        :: imap (fun index msg =>
                   keepScreenshots
                     ((Z.of_nat (length messages) - Z.of_nat maxMessages + 1) - 2
                      <=? Z.of_nat index)%Z msg)
             (lastMessages maxMessages messages)
    end.

End ContextManager.

(** * Properties *)

(** ** Regular-expression tests *)

Module RegexFacts.

Lemma app_cons (c : ascii) (s t : string) : String c s +:+ t = String c (s +:+ t).
Proof. reflexivity. Qed.

Lemma app_empty (t : string) : EmptyString +:+ t = t.
Proof. reflexivity. Qed.

(** The character before the end of [pre], or [prev] when [pre] is empty. *)
Definition lastOr (prev : option ascii) (pre : string) : option ascii :=
  match Js.last pre with
  | Some c => Some c
  | None => prev
  end.

Lemma last_nonempty (c : ascii) (s : string) : exists d, Js.last (String c s) = Some d.
Proof.
  revert c. induction s as [|a s IH]; intros c; [now exists c|].
  destruct (IH a) as [d Hd]. exists d. exact Hd.
Qed.

Lemma last_cons (c : ascii) (s : string) :
  Js.last (String c s) = lastOr (Some c) s.
Proof.
  unfold lastOr. destruct s as [|a s]; [reflexivity|].
  destruct (last_nonempty a s) as [d Hd].
  change (Js.last (String c (String a s))) with (Js.last (String a s)).
  now rewrite Hd.
Qed.

Lemma lastOr_cons (prev : option ascii) (c : ascii) (s : string) :
  lastOr prev (String c s) = lastOr (Some c) s.
Proof. unfold lastOr at 1. rewrite last_cons. unfold lastOr. now destruct (Js.last s). Qed.

(** The text [m] is matched by the alternative, character by character. *)
Fixpoint matchesWhole (alt : Js.Pattern) (m : string) : bool :=
  match alt, m with
  | [], EmptyString => true
  | p :: alt', String c r => Js.patCharMatches p c && matchesWhole alt' r
  | _, _ => false
  end.

Lemma matchAlt_spec (alt : Js.Pattern) :
  forall prev s lastMatched rest,
    Js.matchAlt prev alt s = Some (lastMatched, rest)
    <-> exists m, s = m +:+ rest /\ matchesWhole alt m = true /\ lastMatched = lastOr prev m.
Proof.
  induction alt as [|p alt IH]; intros prev s lastMatched rest; cbn [Js.matchAlt].
  - split.
    + intros H. injection H as <- <-. exists EmptyString. auto.
    + intros (m & -> & Hm & ->). destruct m; [reflexivity|discriminate].
  - destruct s as [|c r].
    + split; [discriminate|]. intros (m & E & Hm & _).
      destruct m; [discriminate|]. rewrite app_cons in E. discriminate.
    + destruct (Js.patCharMatches p c) eqn:Ec.
      * rewrite IH. split.
        -- intros (m & -> & Hm & ->). exists (String c m).
           rewrite app_cons, lastOr_cons. cbn [matchesWhole]. now rewrite Ec, Hm.
        -- intros (m & E & Hm & ->). destruct m as [|d m]; [discriminate|].
           rewrite app_cons in E. injection E as <- ->.
           cbn [matchesWhole] in Hm. apply andb_true_iff in Hm as [_ Hm].
           exists m. rewrite lastOr_cons. auto.
      * split; [discriminate|]. intros (m & E & Hm & _).
        destruct m as [|d m]; [discriminate|]. rewrite app_cons in E. injection E as <- _.
        cbn [matchesWhole] in Hm. now rewrite Ec in Hm.
Qed.

(** A text [m] matched by the alternative occurs in [s] after [pre] with a
    word boundary on each side; [prev] is the character before [s]. *)
Definition occursAt (prev : option ascii) (s pre : string) (alt : Js.Pattern)
    (m post : string) : Prop :=
  s = pre +:+ m +:+ post
  /\ matchesWhole alt m = true
  /\ Js.wordBoundary (lastOr prev pre) (Js.head (m +:+ post)) = true
  /\ Js.wordBoundary (lastOr (lastOr prev pre) m) (Js.head post) = true.

Lemma altAt_occurs (prev : option ascii) (s : string) (alt : Js.Pattern) :
  Js.altAt prev s alt = true <-> exists m post, occursAt prev s EmptyString alt m post.
Proof.
  unfold Js.altAt, occursAt. split.
  - intros H. apply andb_true_iff in H as [H1 H2].
    destruct (Js.matchAlt prev alt s) as [[lastMatched rest]|] eqn:E; [|discriminate].
    apply matchAlt_spec in E as (m & -> & Hm & ->).
    exists m, rest. rewrite app_empty. auto.
  - intros (m & post & E & Hm & H2 & H3). rewrite app_empty in E. subst s.
    assert (M : Js.matchAlt prev alt (m +:+ post) = Some (lastOr prev m, post))
      by (apply matchAlt_spec; exists m; auto).
    rewrite M. apply andb_true_iff. split; [exact H2|exact H3].
Qed.

Lemma testBoundedFrom_occurs (alts : list Js.Pattern) (s : string) :
  forall prev,
    Js.testBoundedFrom alts prev s = true
    <-> exists pre alt m post, In alt alts /\ occursAt prev s pre alt m post.
Proof.
  induction s as [|c s IH]; intros prev; cbn [Js.testBoundedFrom].
  - rewrite orb_false_r. split.
    + intros H. apply existsb_exists in H as (alt & Ha & H).
      apply altAt_occurs in H as (m & post & H). exists EmptyString, alt, m, post. auto.
    + intros (pre & alt & m & post & Ha & H). apply existsb_exists. exists alt.
      split; [exact Ha|]. apply altAt_occurs. exists m, post.
      destruct pre; [exact H|]. destruct H as [E _]. discriminate.
  - split.
    + intros H. apply orb_true_iff in H as [H|H].
      * apply existsb_exists in H as (alt & Ha & H).
        apply altAt_occurs in H as (m & post & H). exists EmptyString, alt, m, post. auto.
      * apply IH in H as (pre & alt & m & post & Ha & E & Hm & H2 & H3).
        exists (String c pre), alt, m, post. split; [exact Ha|].
        unfold occursAt. rewrite lastOr_cons, app_cons, <- E. auto.
    + intros (pre & alt & m & post & Ha & H). apply orb_true_iff.
      destruct pre as [|d pre].
      * left. apply existsb_exists. exists alt. split; [exact Ha|].
        apply altAt_occurs. now exists m, post.
      * right. apply IH. exists pre, alt, m, post. split; [exact Ha|].
        destruct H as (E & Hm & H2 & H3). rewrite app_cons in E. injection E as -> E.
        unfold occursAt. rewrite lastOr_cons in H2, H3. auto.
Qed.

End RegexFacts.

(** ** The policy classifier *)

Module PolicyFacts.
Import CommandPolicy.

Lemma find_all_false {A} (f : A -> bool) (l : list A) :
  (forall x, In x l -> f x = false) -> find f l = None.
Proof.
  induction l as [|x l IH]; intros H; simpl; [reflexivity|].
  rewrite (H x (or_introl eq_refl)). apply IH. intros y Hy. apply H. now right.
Qed.

(** The commands that are forbidden whatever their arguments. *)
Definition forbiddenNames : list string :=
  ["rm"; "rd"; "del"; "erase"; "format"; "shutdown"; "reboot"; "poweroff"; "mkfs"; "diskpart"].

Definition isForbiddenDecision (d : CommandPolicyDecision) : Prop :=
  level d = blocked /\ category d = forbidden.

(** A command of the forbidden table is blocked, in any letter case and
    with any arguments. *)
Lemma forbidden_name_blocked (cmd : string) (args : list string) :
  In (Js.toLowerCase cmd) forbiddenNames ->
  isForbiddenDecision (evaluateCommandPolicy cmd args).
Proof.
  intros H. unfold evaluateCommandPolicy, isForbiddenDecision.
  unfold forbiddenNames in H. simpl in H.
  repeat (destruct H as [H|H]; [rewrite <- H; vm_compute; split; reflexivity|]).
  contradiction.
Qed.

(** The argument forms of docker that are forbidden. *)
Inductive ForbiddenDockerArgs : list string -> Prop :=
| docker_rm a rest :
    Js.toLowerCase a = "rm" -> ForbiddenDockerArgs (a :: rest)
| docker_compose_down a b rest :
    Js.toLowerCase a = "compose" -> Js.toLowerCase b = "down" ->
    ForbiddenDockerArgs (a :: b :: rest)
| docker_compose_rm a b rest :
    Js.toLowerCase a = "compose" -> Js.toLowerCase b = "rm" ->
    ForbiddenDockerArgs (a :: b :: rest).

Lemma forbidden_docker_blocked (cmd : string) (args : list string) :
  Js.toLowerCase cmd = "docker" -> ForbiddenDockerArgs args ->
  isForbiddenDecision (evaluateCommandPolicy cmd args).
Proof.
  intros Hc Ha. unfold evaluateCommandPolicy, isForbiddenDecision.
  rewrite Hc.
  destruct Ha as [a rest H1|a b rest H1 H2|a b rest H1 H2];
    cbn [map]; rewrite ?H1, ?H2; vm_compute; split; reflexivity.
Qed.

(** The rule that decides is the one the decision is built from. *)
Lemma decision_of_matching_rule (cmd : string) (args : list string) (r : CommandRule) :
  find (fun r => matchesRule r (Js.toLowerCase cmd) (map Js.toLowerCase args)) allRules = Some r ->
  evaluateCommandPolicy cmd args = buildDecision r.
Proof. intros H. unfold evaluateCommandPolicy. now rewrite H. Qed.

(** C2.  When no rule of the ordered table matches the normalised command
    and arguments, the decision is the default one: approval required,
    category critical, with the reason that no explicit policy was found
    and approval is the default; in particular its level is not auto. *)
Theorem default_decision_when_no_rule_matches (cmd : string) (args : list string) :
  (forall r, In r allRules ->
     matchesRule r (Js.toLowerCase cmd) (map Js.toLowerCase args) = false) ->
  evaluateCommandPolicy cmd args = defaultDecision (Js.toLowerCase cmd)
  /\ level (evaluateCommandPolicy cmd args) = approval_required
  /\ category (evaluateCommandPolicy cmd args) = critical
  /\ reason (evaluateCommandPolicy cmd args)
     = "No explicit policy found for '" +:+ Js.toLowerCase cmd
       +:+ "'. Defaulting to user approval."
  /\ level (evaluateCommandPolicy cmd args) <> auto.
Proof.
  intros H.
  assert (E : evaluateCommandPolicy cmd args = defaultDecision (Js.toLowerCase cmd)).
  { unfold evaluateCommandPolicy. now rewrite (find_all_false _ _ H). }
  rewrite E. cbn [defaultDecision level category reason]. repeat split. discriminate.
Qed.

Lemma default_decision_when_no_rule_matches_witness :
  (forall r, In r allRules ->
     matchesRule r (Js.toLowerCase "Flibbertigibbet") (map Js.toLowerCase ["--Now"]) = false)
  /\ level (evaluateCommandPolicy "Flibbertigibbet" ["--Now"]) = approval_required
  /\ reason (evaluateCommandPolicy "Flibbertigibbet" ["--Now"])
     = "No explicit policy found for 'flibbertigibbet'. Defaulting to user approval.".
Proof.
  assert (H : forall r, In r allRules ->
     matchesRule r (Js.toLowerCase "Flibbertigibbet") (map Js.toLowerCase ["--Now"]) = false).
  { intros r Hr. unfold allRules in Hr. simpl in Hr.
    repeat (destruct Hr as [Hr|Hr]; [rewrite <- Hr; vm_compute; reflexivity|]).
    contradiction. }
  split; [exact H|].
  destruct (default_decision_when_no_rule_matches "Flibbertigibbet" ["--Now"] H)
    as (_ & Hl & _ & Hr & _).
  split; [exact Hl | exact Hr].
Defined.

(** C3.  The four scenario results: docker ps is auto/context, docker rm x
    is blocked/forbidden, git reset --hard needs approval and is critical,
    and the unknown command flibbertigibbet gets the default decision. *)
Theorem classifier_scenarios :
  (level (evaluateCommandPolicy "docker" ["ps"]) = auto
   /\ category (evaluateCommandPolicy "docker" ["ps"]) = context)
  /\ (level (evaluateCommandPolicy "docker" ["rm"; "x"]) = blocked
      /\ category (evaluateCommandPolicy "docker" ["rm"; "x"]) = forbidden)
  /\ (level (evaluateCommandPolicy "git" ["reset"; "--hard"]) = approval_required
      /\ category (evaluateCommandPolicy "git" ["reset"; "--hard"]) = critical)
  /\ (evaluateCommandPolicy "flibbertigibbet" [] = defaultDecision "flibbertigibbet"
      /\ level (evaluateCommandPolicy "flibbertigibbet" []) = approval_required
      /\ category (evaluateCommandPolicy "flibbertigibbet" []) = critical).
Proof. vm_compute. repeat split. Qed.

End PolicyFacts.

(** ** The execute_command handler and the approval hook *)

Module ApprovalFacts.
Import JsValue Scanner CommandPolicy Orchestrator ToolLoop UseChat.

Section Handler.
Variable executeCommand : string -> list string -> CommandResult + option string.

(** The handler reaches the host only for a decision of level auto. *)
Lemma handler_runs_only_auto (requestId : string) (args : value) (strs : list string) :
  asStrings (commandArgsOf args) = Some strs ->
  level (evaluateCommandPolicy (commandOf args) strs) <> auto ->
  snd (handleExecuteCommand executeCommand requestId args) = [].
Proof.
  intros Hs Hl. unfold handleExecuteCommand. rewrite Hs.
  destruct (level (evaluateCommandPolicy (commandOf args) strs)); [contradiction| |]; reflexivity.
Qed.

(** A blocked command is answered with a failure marked blocked, and the
    host command is not invoked. *)
Lemma handler_blocks_without_running (requestId : string) (args : value) (strs : list string) :
  asStrings (commandArgsOf args) = Some strs ->
  level (evaluateCommandPolicy (commandOf args) strs) = blocked ->
  let '(fr, events) := handleExecuteCommand executeCommand requestId args in
  events = []
  /\ success (response fr) = false
  /\ resp_blocked (response fr) = true
  /\ resp_error (response fr) = Some (reason (evaluateCommandPolicy (commandOf args) strs)).
Proof.
  intros Hs Hl. unfold handleExecuteCommand. rewrite Hs, Hl. cbn. repeat split.
Qed.

End Handler.

(** Requests are created pending or blocked. *)
Lemma created_pending_or_blocked (generated : string) (now : Z) (r : ToolResponse)
    (request : PendingCommandRequest) :
  commandRequestOf generated now r = Some request ->
  status request = pending \/ status request = status_blocked.
Proof.
  unfold commandRequestOf. intros H.
  destruct (needsApproval r); [injection H as <-; now left|].
  destruct (resp_blocked r); [injection H as <-; now right|discriminate].
Qed.

Lemma hasId_eq (requestId : string) (item : PendingCommandRequest) :
  hasId requestId item = true -> id item = requestId.
Proof. unfold hasId. apply String.eqb_eq. Qed.

Lemma in_upsert (request r' : PendingCommandRequest) (prev : list PendingCommandRequest) :
  In r' (upsert request prev) ->
  In r' prev \/ status r' = status request.
Proof.
  induction prev as [|item rest IH]; simpl.
  - intros [<-|[]]. now right.
  - destruct (hasId (id request) item).
    + intros [<-|H]; [now right | left; now right].
    + intros [<-|H]; [left; now left|]. destruct (IH H) as [H'|H']; [left; now right | now right].
Qed.

Lemma find_remove (requestId : string) (l : list PendingCommandRequest) :
  find (hasId requestId) (remove requestId l) = None.
Proof.
  apply PolicyFacts.find_all_false. intros x Hx.
  unfold remove in Hx. apply filter_In in Hx as [_ Hx].
  now apply negb_true_iff in Hx.
Qed.

(** The only operation that puts a request into executing is the approval
    of that request. *)
Lemma executing_only_by_approve (op : Op) (st : list PendingCommandRequest)
    (r' : PendingCommandRequest) :
  In r' (step op st) -> status r' = executing ->
  op = Approve (id r')
  \/ exists r, In r st /\ id r = id r' /\ status r = executing.
Proof.
  intros Hin Hex.
  assert (Keep : In r' st ->
    op = Approve (id r') \/ exists r, In r st /\ id r = id r' /\ status r = executing)
    by (intros H; right; exists r'; auto).
  destruct op as [generated now r|requestId|requestId outcome|requestId|requestId]; simpl in Hin.
  - destruct (commandRequestOf generated now r) as [request|] eqn:E; [|auto].
    destruct (in_upsert _ _ _ Hin) as [H|H]; [auto|].
    apply created_pending_or_blocked in E. rewrite Hex in H.
    destruct E as [E|E]; rewrite E in H; discriminate.
  - destruct (approvable requestId st); [|auto].
    unfold markExecuting in Hin. apply in_map_iff in Hin as (item & Hi & Hitem).
    destruct (hasId requestId item) eqn:E.
    + left. subst r'. simpl. now rewrite (hasId_eq _ _ E).
    + subst r'. auto.
  - unfold markExecuted in Hin. apply in_map_iff in Hin as (item & Hi & Hitem).
    destruct (hasId requestId item).
    + subst r'. destruct outcome; discriminate.
    + subst r'. auto.
  - destruct (deniable requestId st); [|auto].
    unfold markDenied in Hin. apply in_map_iff in Hin as (item & Hi & Hitem).
    destruct (hasId requestId item).
    + subst r'. discriminate.
    + subst r'. auto.
  - unfold remove in Hin. apply filter_In in Hin as [Hin _]. auto.
Qed.

Section Hook.
Variable executeCommand : string -> list string -> CommandResult + option string.

Lemma approve_executed_noop (requestId : string) (st : list PendingCommandRequest)
    (r : PendingCommandRequest) :
  find (hasId requestId) st = Some r -> status r = executed ->
  approveCommandRequest executeCommand requestId st = (st, [])
  /\ step (Approve requestId) st = st
  /\ runs (Approve requestId) st = [].
Proof.
  intros Hf Hs.
  assert (E : approvable requestId st = None)
    by (unfold approvable; now rewrite Hf, Hs).
  unfold approveCommandRequest. simpl. now rewrite E.
Qed.

Lemma approve_twice_noop (requestId : string) (st : list PendingCommandRequest) :
  let st' := fst (approveCommandRequest executeCommand requestId st) in
  approveCommandRequest executeCommand requestId st' = (st', []).
Proof.
  unfold approveCommandRequest.
  destruct (approvable requestId st) eqn:E; cbn [fst].
  - unfold approvable. now rewrite find_remove.
  - now rewrite E.
Qed.

End Hook.


Definition gitReset (s : RequestStatus) : PendingCommandRequest :=
  {| id := "cmd_7"; req_command := "git"; req_args := ["reset"; "--hard"];
     policy := evaluateCommandPolicy "git" ["reset"; "--hard"];
     createdAt := 1700000000000; status := s; result := None; error := None |}.


(** *** A blocked request can still be approved *)

Definition rmCall : FunctionCall :=
  {| name := "execute_command";
     args := VObject [("command", VString "rm");
                      ("args", VArray [VString "-rf"; VString "/"])] |}.

Definition rmRequest : PendingCommandRequest :=
  {| id := "cmd_1"; req_command := "rm"; req_args := ["-rf"; "/"];
     policy := evaluateCommandPolicy "rm" ["-rf"; "/"];
     createdAt := 1700000000000; status := status_blocked;
     result := None;
     error := Some "Deleting files is never performed automatically." |}.

(** C1.  The command rm -rf / is classified blocked/forbidden and the
    execute_command handler answers it with a blocked failure without
    invoking the host; the request handed to the application has status
    blocked.  An approval of that request is not refused: it moves the
    request to executing and runs rm -rf / on the host. *)
Theorem approve_runs_blocked_forbidden_request :
  forall (executeCommand : string -> list string -> CommandResult + option string)
         (captureWindow : value -> FunctionResponse * list HostEvent),
    let handled := handleFunctionCall executeCommand captureWindow "cmd_1" rmCall in
    let st := step (Notify "cmd_2" 1700000000000 (response (fst handled))) [] in
    (level (evaluateCommandPolicy "rm" ["-rf"; "/"]) = blocked
     /\ category (evaluateCommandPolicy "rm" ["-rf"; "/"]) = forbidden)
    /\ snd handled = []
    /\ resp_blocked (response (fst handled)) = true
    /\ st = [rmRequest]
    /\ map status (step (Approve "cmd_1") st) = [executing]
    /\ runs (Approve "cmd_1") st = [Execute "rm" ["-rf"; "/"]]
    /\ (exists text,
          snd (approveCommandRequest executeCommand "cmd_1" st)
          = [Execute "rm" ["-rf"; "/"]; SendMessage text]).
Proof.
  intros executeCommand captureWindow handled st.
  assert (Hst : st = [rmRequest]) by (vm_compute; reflexivity).
  split; [vm_compute; split; reflexivity|].
  split; [vm_compute; reflexivity|].
  split; [vm_compute; reflexivity|].
  split; [exact Hst|].
  rewrite Hst.
  split; [vm_compute; reflexivity|].
  split; [vm_compute; reflexivity|].
  unfold approveCommandRequest.
  change (approvable "cmd_1" [rmRequest]) with (Some rmRequest).
  cbn beta iota. eexists. reflexivity.
Qed.

End ApprovalFacts.

(** ** The tool-call loop: follow-up prompts and injected calls *)

Module ToolLoopFacts.
Import JsValue Scanner CommandPolicy Orchestrator ToolLoop.

(** *** Follow-up after a command result *)

Lemma followUpCount_commandFollowUp (fr : FunctionResponse) (chunks : list string) :
  followUpCount (commandFollowUp fr chunks)
  = if String.eqb (fr_name fr) "execute_command"
       && negb (awaitingApproval (response fr))
       && (negb (hasResponseText chunks)
           || (hasResponseText chunks && (responseTextLength chunks <? 50)%nat))
    then 1%nat else 0%nat.
Proof.
  unfold commandFollowUp.
  destruct (String.eqb (fr_name fr) "execute_command"); [|reflexivity].
  destruct (awaitingApproval (response fr)); [reflexivity|].
  cbn [negb andb].
  destruct (negb (hasResponseText chunks)
            || (hasResponseText chunks && (responseTextLength chunks <? 50)%nat));
    reflexivity.
Qed.

Lemma followUpCount_app (l1 l2 : list ChatMessage) :
  followUpCount (l1 ++ l2) = (followUpCount l1 + followUpCount l2)%nat.
Proof. unfold followUpCount. now rewrite List.filter_app, length_app. Qed.

Section Handler.
Variable executeCommand : string -> list string -> CommandResult + option string.

Lemma command_response_shape (requestId : string) (args : value) :
  let fr := fst (handleExecuteCommand executeCommand requestId args) in
  fr_name fr = "execute_command" /\ image_base64 (response fr) = None.
Proof.
  unfold handleExecuteCommand.
  destruct (asStrings (commandArgsOf args)) as [strs|]; [|split; reflexivity].
  destruct (level (evaluateCommandPolicy (commandOf args) strs));
    [destruct (executeCommand (commandOf args) strs)| |]; split; reflexivity.
Qed.


End Handler.

(** The answer of handleFunctionCall when the capture tool throws. *)
Definition failedCapture : FunctionResponse :=
  {| fr_name := "capture_window_with_ocr"; response := failure "Function call failed" |}.


(** *** Injected calls *)

Inductive Injected :=
| InjPs
| InjPsAll
| InjLogs (containerName : string).

Definition injectedCall (k : Injected) : FunctionCall :=
  match k with
  | InjPs => dockerPs
  | InjPsAll => dockerPsAll
  | InjLogs containerName => dockerLogs containerName
  end.

(** The test the code makes for a call of the same kind being present. *)
Definition alreadyPresent (k : Injected) (existing : FunctionCall) : bool :=
  match k with
  | InjPs => isPsCommand existing
  | InjPsAll => isPsAllCommand existing
  | InjLogs _ => isLogsCommand existing
  end.

Lemma alreadyPresent_self (k : Injected) : alreadyPresent k (injectedCall k) = true.
Proof. destruct k; reflexivity. Qed.

(** What the handler reads from an injected call, and its classification. *)
Lemma injected_call_auto_context (k : Injected) :
  exists argv,
    commandOf (args (injectedCall k)) = "docker"
    /\ asStrings (commandArgsOf (args (injectedCall k))) = Some argv
    /\ level (evaluateCommandPolicy "docker" argv) = auto
    /\ category (evaluateCommandPolicy "docker" argv) = context.
Proof.
  destruct k as [| |c].
  - exists ["ps"]. vm_compute. repeat split.
  - exists ["ps"; "-a"]. vm_compute. repeat split.
  - exists ["logs"; "--tail"; "200"; c]. repeat split; vm_compute; reflexivity.
Qed.

Definition absentFrom (collected : list FunctionCall) (k : Injected) : Prop :=
  forall e, In e collected -> alreadyPresent k e = false.

Definition Good (collected l : list FunctionCall) : Prop :=
  exists injected,
    l = map injectedCall injected ++ collected /\ Forall (absentFrom collected) injected.

Lemma good_start (collected : list FunctionCall) : Good collected collected.
Proof. exists []. split; [reflexivity|constructor]. Qed.

Lemma good_unshift (collected l : list FunctionCall) (k : Injected) :
  Good collected l -> absentFrom collected k -> Good collected (injectedCall k :: l).
Proof.
  intros (inj & -> & Hf) Hk. exists (k :: inj). split; [reflexivity|].
  constructor; assumption.
Qed.

Lemma good_push (l : list FunctionCall) (k : Injected) :
  Good [] l -> Good [] (l ++ [injectedCall k]).
Proof.
  intros (inj & -> & Hf). exists (inj ++ [k]). split.
  - rewrite map_app, !app_nil_r. reflexivity.
  - apply List.Forall_forall. intros x _ e [].
Qed.

Lemma good_none (collected l : list FunctionCall) (f : FunctionCall -> bool) :
  Good collected l -> existsb f l = false -> forall e, In e collected -> f e = false.
Proof.
  intros (inj & -> & _) H e He.
  rewrite existsb_app in H. apply orb_false_iff in H as [_ H].
  destruct (f e) eqn:E; [|reflexivity].
  assert (existsb f collected = true) by (apply existsb_exists; eauto).
  congruence.
Qed.

(** The state of the blocks: the calls are the collected ones behind
    injected ones, and a false [hasExecuteCommand] means that no collected
    call is an execute_command. *)
Definition Inv (collected : list FunctionCall) (sx : AugState * bool) : Prop :=
  Good collected (calls (fst sx))
  /\ (snd sx = false -> forall e, In e collected -> isExecuteCommand e = false).

Ltac split_conditions :=
  repeat match goal with
  | |- context [if ?b then _ else _] => destruct b eqn:?
  | |- context [match ?x with Some _ => _ | None => _ end] => destruct x eqn:?
  end.

Lemma logsBlock_inv (h : Heuristics) (collected : list FunctionCall) (sx : AugState * bool) :
  Inv collected sx -> Inv collected (logsBlock h sx).
Proof.
  destruct sx as [st hx]. intros [Hg Hx]. unfold logsBlock.
  destruct (logsMatch h) as [c|]; [|split; assumption].
  destruct (negb (wrapConversation h) && wantsLogs h
            && negb (existsb isLogsCommand (calls st))) eqn:E; [|split; assumption].
  apply andb_true_iff in E as [_ E]. apply negb_true_iff in E.
  assert (Hlogs : absentFrom collected (InjLogs c))
    by (intros e He; exact (good_none _ _ _ Hg E e He)).
  split; [|discriminate].
  cbn [fst calls unshift setPendingLog].
  destruct (negb (existsb isPsAllCommand (calls st))) eqn:E2; cbn [calls setPendingLog].
  - apply negb_true_iff in E2.
    destruct (negb (scheduled "docker::ps-a" (setPendingLog c st)));
      cbn [calls markPsAllScheduled schedule unshift setPendingLog].
    + apply (good_unshift _ _ (InjLogs c)); [|exact Hlogs].
      apply (good_unshift _ _ InjPsAll); [exact Hg|].
      intros e He. exact (good_none _ _ _ Hg E2 e He).
    + apply (good_unshift _ _ (InjLogs c)); assumption.
  - apply (good_unshift _ _ (InjLogs c)); assumption.
Qed.

Lemma psBlock_inv (h : Heuristics) (collected : list FunctionCall) (sx : AugState * bool) :
  Inv collected sx -> Inv collected (psBlock h sx).
Proof.
  destruct sx as [st hx]. intros [Hg Hx]. unfold psBlock.
  destruct (negb (wrapConversation h) && needsDockerPs h
            && negb (existsb isPsCommand (calls st))) eqn:E; [|split; assumption].
  apply andb_true_iff in E as [_ E]. apply negb_true_iff in E.
  destruct (negb (scheduled "docker::ps" st)); [|split; assumption].
  split; [|discriminate].
  cbn [fst calls schedule unshift].
  apply (good_unshift _ _ InjPs); [exact Hg|].
  intros e He. exact (good_none _ _ _ Hg E e He).
Qed.

Lemma psAllBlock_inv (h : Heuristics) (collected : list FunctionCall)
    (hasPsAllCommand : bool) (sx : AugState * bool) :
  Inv collected sx ->
  (hasPsAllCommand = false -> absentFrom collected InjPsAll) ->
  Inv collected (psAllBlock h hasPsAllCommand sx).
Proof.
  destruct sx as [st hx]. intros [Hg Hx] Hp. unfold psAllBlock.
  destruct (negb (wrapConversation h) && needsDockerPsAll h && negb hasPsAllCommand
            && negb (dockerPsAllScheduled st)) eqn:E; [|split; assumption].
  apply andb_true_iff in E as [E _]. apply andb_true_iff in E as [_ E].
  apply negb_true_iff in E.
  destruct (negb (scheduled "docker::ps-a" st)); [|split; assumption].
  split; [|discriminate].
  cbn [fst calls schedule unshift markPsAllScheduled].
  apply (good_unshift _ _ InjPsAll); [exact Hg|auto].
Qed.

Lemma captureBlock_good (h : Heuristics) (collected : list FunctionCall)
    (hasDockerCapture : bool) (sx : AugState * bool) :
  Inv collected sx -> Good collected (calls (captureBlock h hasDockerCapture sx)).
Proof.
  destruct sx as [st hx]. intros [Hg Hx]. unfold captureBlock.
  destruct ((isDockerQuestion h || hasDockerContext h) && hasDockerCapture && negb hx) eqn:E;
    [|exact Hg].
  apply andb_true_iff in E as [_ E]. apply negb_true_iff in E.
  cbn [calls unshift]. apply (good_unshift _ _ InjPs); [exact Hg|].
  intros e He. cbn [alreadyPresent]. unfold isPsCommand, isDockerCommand.
  now rewrite (Hx E e He).
Qed.

Lemma injectWhenPresent_good (h : Heuristics) (collected : list FunctionCall)
    (hasDockerCapture : bool) (st : AugState) :
  Good collected (calls st) ->
  Good collected (calls (injectWhenPresent h hasDockerCapture st)).
Proof.
  intros Hg. unfold injectWhenPresent.
  assert (H0 : Inv collected (st, existsb isExecuteCommand (calls st))).
  { split; [exact Hg|]. cbn [snd]. intros E e He. exact (good_none _ _ _ Hg E e He). }
  pose proof (logsBlock_inv h collected _ H0) as H1.
  set (sx := logsBlock h (st, existsb isExecuteCommand (calls st))) in *.
  apply captureBlock_good, psAllBlock_inv; [apply psBlock_inv; exact H1|].
  intros E e He. exact (good_none _ _ _ (proj1 H1) E e He).
Qed.

Lemma injectWhenEmpty_good (h : Heuristics) (collected : list FunctionCall) :
  Good collected (calls (injectWhenEmpty h (startAugment collected))).
Proof.
  unfold injectWhenEmpty.
  destruct collected as [|fc rest]; [|apply good_start].
  cbn [isEmpty calls startAugment].
  assert (G0 : Good [] []) by apply good_start.
  split_conditions;
    cbn [calls push schedule markPsAllScheduled setPendingLog startAugment];
    repeat first
      [ exact G0
      | apply (good_push _ (InjLogs _))
      | apply (good_push _ InjPsAll)
      | apply (good_push _ InjPs) ].
Qed.


Definition statusQuestion : Heuristics :=
  {| lastUserMsg := "which docker containers are running?";
     explicitDockerQuestion := true; mentionsLogs := false; hasActionVerb := false;
     hasTargets := true; mentionsContainersPlural := true; logsMatch := None;
     hasDockerContext := true |}.


End ToolLoopFacts.

(** ** Tool-call extraction *)

Module ScannerFacts.
Import JsValue Scanner.

Lemma fold_left_preserves {A S : Type} (P : S -> Prop) (f : S -> A -> S) (l : list A) :
  (forall x st, P st -> P (f st x)) -> forall st, P st -> P (fold_left f l st).
Proof.
  intros Hf. induction l as [|x l IH]; intros st Hst; simpl; [exact Hst|].
  apply IH, Hf, Hst.
Qed.

Lemma fold_left_agree {A S : Type} (f g : S -> A -> S) (l : list A) :
  (forall x, In x l -> forall st, f st x = g st x) ->
  forall st, fold_left f l st = fold_left g l st.
Proof.
  induction l as [|x l IH]; intros H st; simpl; [reflexivity|].
  rewrite (H x (or_introl eq_refl)). apply IH. intros y Hy. apply H. now right.
Qed.

(** *** Properties kept by every step of the scan *)

Section Preservation.
Variable stringify : value -> string.
Variable P : ScanState -> Prop.
Hypothesis Hadd : forall call st, P st -> P (addFunctionCall stringify call st).
Hypothesis HlogCalls : forall st, P st -> P (logInvoke "functionCalls" st).
Hypothesis HlogCands : forall st, P st -> P (logInvoke "candidates" st).

Section Body.
Variable rec : value -> ScanState -> ScanState.
Hypothesis Hrec : forall v st, P st -> P (rec v st).

Lemma scanAll_preserves l st : P st -> P (scanAll rec l st).
Proof. apply fold_left_preserves. intros; now apply Hrec. Qed.

Lemma scanHelper_preserves source st : P st -> P (scanHelper rec source st).
Proof.
  intros H. unfold scanHelper.
  destruct (get source "functionCalls") as [| | | | | | |r]; try exact H.
  destruct r as [[| | | | |calls| |]|]; try (now apply HlogCalls).
  now apply scanAll_preserves, HlogCalls.
Qed.

Lemma scanDirect_preserves source st : P st -> P (scanDirect rec source st).
Proof.
  intros H. unfold scanDirect.
  destruct (truthy (get source "function_call"));
    destruct (truthy (get source "functionCall") && negb (typeofFunction (get source "functionCall")));
    auto.
Qed.

Lemma readCandidates_preserves source st : P st -> P (snd (readCandidates source st)).
Proof.
  intros H. unfold readCandidates.
  destruct (get source "candidates"); cbn [snd]; auto.
Qed.

Lemma scanPart_preserves part st : P st -> P (scanPart rec part st).
Proof.
  intros H. unfold scanPart.
  destruct (truthy (get part "function_call")); destruct (truthy (get part "functionCall")); auto.
Qed.

Lemma scanCandidate_preserves c st : P st -> P (scanCandidate rec c st).
Proof.
  intros H. unfold scanCandidate.
  destruct (get (get c "content") "parts"); auto.
  apply fold_left_preserves; [|auto]. intros; now apply scanPart_preserves.
Qed.

Lemma scanCandidates_preserves cs st : P st -> P (scanCandidates rec cs st).
Proof.
  intros H. unfold scanCandidates. destruct cs; auto.
  apply fold_left_preserves; [|auto]. intros; now apply scanCandidate_preserves.
Qed.

Lemma scanEntries_preserves props st : P st -> P (scanEntries rec props st).
Proof.
  intros H. unfold scanEntries. apply fold_left_preserves; [|auto].
  intros [key v] st' H'. unfold scanEntry.
  destruct (truthy v && typeofObject v && negb (existsb (String.eqb key) skippedKeys)); auto.
Qed.

Lemma captureSelf_preserves source st : P st -> P (captureSelf stringify source st).
Proof. intros H. unfold captureSelf. destruct (looksLikeCall source); auto. Qed.

Lemma scanBody_preserves source st : P st -> P (scanBody stringify rec source st).
Proof.
  intros H. unfold scanBody.
  destruct (negb (truthy source)); [exact H|].
  destruct source as [| | | | |items|props|r]; try exact H.
  - now apply scanAll_preserves.
  - pose proof (readCandidates_preserves (VObject props)
                  (scanDirect rec (VObject props) (scanHelper rec (VObject props) st))) as Hc.
    destruct (readCandidates (VObject props)
                (scanDirect rec (VObject props) (scanHelper rec (VObject props) st)))
      as [candidates st'].
    cbn [snd] in Hc.
    apply captureSelf_preserves, scanEntries_preserves, scanCandidates_preserves, Hc,
      scanDirect_preserves, scanHelper_preserves, H.
Qed.

End Body.

Lemma scan_preserves n : forall v st, P st -> P (scan stringify n v st).
Proof.
  induction n as [|n IH]; intros v st H; [exact H|].
  cbn [scan]. now apply scanBody_preserves.
Qed.

Lemma collect_preserves chunks fullResponse :
  P emptyScan -> P (collectFunctionCalls stringify chunks fullResponse).
Proof.
  intros H. unfold collectFunctionCalls, scanForFunctionCalls.
  assert (Hc : P (fold_left (fun st chunk => scan stringify (height chunk) chunk st)
                    chunks emptyScan))
    by (apply fold_left_preserves; [intros; now apply scan_preserves|exact H]).
  destruct fullResponse; [now apply scan_preserves|exact Hc].
Qed.

End Preservation.

(** *** One entry per key *)

Section Dedup.
Variable stringify : value -> string.

Definition keys (st : ScanState) : list string :=
  map (entryKey stringify) (functionCalls st).

(** [functionCallSet] holds exactly the keys of [functionCalls], and no
    key occurs twice in [functionCalls]. *)
Definition Deduplicated (st : ScanState) : Prop :=
  NoDup (keys st) /\ forall k, k ∈ functionCallSet st <-> In k (keys st).

Definition OnlyHelpersInvoked (st : ScanState) : Prop :=
  List.Forall (fun k => k = "functionCalls" \/ k = "candidates") (invoked st).

Lemma deduplicated_empty : Deduplicated emptyScan.
Proof.
  split; [constructor|]. intros k. cbn. split; [|intros []].
  intros H. now apply not_elem_of_empty in H.
Qed.

Lemma deduplicated_add call st :
  Deduplicated st -> Deduplicated (addFunctionCall stringify call st).
Proof.
  intros [Hn Hs]. unfold addFunctionCall.
  destruct (negb (truthy call) || negb (typeofObject call)); [now split|].
  destruct (bool_decide (callKey stringify call ∈ functionCallSet st)) eqn:E; [now split|].
  apply bool_decide_eq_false in E.
  unfold Deduplicated, keys. cbn [functionCalls functionCallSet].
  rewrite map_app. cbn [map entryKey name args].
  fold (callKey stringify call). fold (keys st).
  split.
  - apply NoDup_app. split; [exact Hn|]. split; [|apply NoDup_singleton].
    intros k Hk Hk'. apply list_elem_of_singleton in Hk'. subst k.
    apply E, Hs. now apply list_elem_of_In.
  - intros k. rewrite elem_of_union, elem_of_singleton, in_app_iff, Hs. cbn.
    split.
    + intros [H|H]; [right; left; now symmetry | now left].
    + intros [H|[H|[]]]; [now right | left; now symmetry].
Qed.

Lemma deduplicated_log k st : Deduplicated st -> Deduplicated (logInvoke k st).
Proof. intros H. exact H. Qed.

Lemma helpers_add call st :
  OnlyHelpersInvoked st -> OnlyHelpersInvoked (addFunctionCall stringify call st).
Proof.
  intros H. unfold addFunctionCall.
  destruct (negb (truthy call) || negb (typeofObject call)); [exact H|].
  destruct (bool_decide (callKey stringify call ∈ functionCallSet st)); exact H.
Qed.

Lemma helpers_log k st :
  k = "functionCalls" \/ k = "candidates" ->
  OnlyHelpersInvoked st -> OnlyHelpersInvoked (logInvoke k st).
Proof.
  intros Hk H. unfold OnlyHelpersInvoked, logInvoke. cbn [invoked].
  apply List.Forall_app. split; [exact H|]. constructor; [exact Hk|constructor].
Qed.

(** A call object handed to addFunctionCall is recorded, and what is
    recorded stays. *)
Lemma added_call_recorded call st :
  truthy call = true -> typeofObject call = true ->
  callKey stringify call ∈ functionCallSet (addFunctionCall stringify call st).
Proof.
  intros Ht Ho. unfold addFunctionCall. rewrite Ht, Ho. cbn [negb orb].
  destruct (bool_decide (callKey stringify call ∈ functionCallSet st)) eqn:E.
  - now apply bool_decide_eq_true in E.
  - cbn [functionCallSet]. apply elem_of_union. left. now apply elem_of_singleton.
Qed.

Lemma recorded_stays k n v st :
  k ∈ functionCallSet st -> k ∈ functionCallSet (scan stringify n v st).
Proof.
  apply (scan_preserves stringify (fun st => k ∈ functionCallSet st)); [|auto|auto].
  intros call st' H. unfold addFunctionCall.
  destruct (negb (truthy call) || negb (typeofObject call)); [exact H|].
  destruct (bool_decide (callKey stringify call ∈ functionCallSet st')); [exact H|].
  cbn [functionCallSet]. apply elem_of_union. now right.
Qed.

End Dedup.

(** *** The depth of a value is enough fuel *)

Lemma list_max_in (l : list nat) (x : nat) : In x l -> (x <= list_max l)%nat.
Proof.
  induction l as [|y l IH]; intros []; simpl; [subst; lia|].
  specialize (IH H). lia.
Qed.

Lemma height_item (items : list value) (v : value) :
  In v items -> (height v < height (VArray items))%nat.
Proof.
  intros H. cbn [height]. apply Nat.lt_succ_r, list_max_in, in_map, H.
Qed.

Lemma height_prop (props : list (string * value)) (key : string) (v : value) :
  In (key, v) props -> (height v < height (VObject props))%nat.
Proof.
  intros H. cbn [height]. apply Nat.lt_succ_r, list_max_in.
  apply in_map_iff. exists (key, v). split; [reflexivity|exact H].
Qed.

Lemma lookup_in_or_undefined (k : string) (props : list (string * value)) :
  lookup k props = VUndefined \/ exists k', In (k', lookup k props) props.
Proof.
  induction props as [|[k' v] rest IH]; [now left|].
  cbn [lookup]. destruct (String.eqb k k').
  - right. exists k'. now left.
  - destruct IH as [IH|[k'' IH]]; [now left|]. right. exists k''. now right.
Qed.

Lemma height_get (v : value) (k : string) :
  get v k = VUndefined \/ (height (get v k) < height v)%nat.
Proof.
  destruct v as [| | | | | |props|]; try (now left).
  cbn [get]. destruct (lookup_in_or_undefined k props) as [H|[k' H]]; [now left|].
  right. exact (height_prop _ _ _ H).
Qed.

Lemma height_get_truthy (v : value) (k : string) :
  truthy (get v k) = true -> (height (get v k) < height v)%nat.
Proof.
  intros H. destruct (height_get v k) as [E|E]; [|exact E].
  rewrite E in H. discriminate.
Qed.

Section Fuel.
Variable stringify : value -> string.
Variables rec1 rec2 : value -> ScanState -> ScanState.
Variable bound : nat.
Hypothesis Hagree : forall v st, (height v < bound)%nat -> rec1 v st = rec2 v st.

Lemma scanAll_agree l st :
  (forall v, In v l -> (height v < bound)%nat) ->
  scanAll rec1 l st = scanAll rec2 l st.
Proof.
  intros H. apply fold_left_agree. intros v Hv st'. apply Hagree, H, Hv.
Qed.

Lemma scanHelper_agree source st :
  (height source <= bound)%nat ->
  scanHelper rec1 source st = scanHelper rec2 source st.
Proof.
  intros Hb. unfold scanHelper.
  destruct (get source "functionCalls") as [| | | | | | |r] eqn:E; try reflexivity.
  destruct r as [[| | | | |calls| |]|]; try reflexivity.
  apply scanAll_agree. intros v Hv.
  pose proof (height_item _ _ Hv) as H1.
  destruct (height_get source "functionCalls") as [H2|H2]; [congruence|].
  rewrite E in H2. cbn [height] in H1, H2 |- *. lia.
Qed.

Lemma rec_get_agree source k st :
  (height source <= bound)%nat -> truthy (get source k) = true ->
  rec1 (get source k) st = rec2 (get source k) st.
Proof.
  intros Hb Ht. apply Hagree. pose proof (height_get_truthy _ _ Ht). lia.
Qed.

Lemma scanDirect_agree source st :
  (height source <= bound)%nat ->
  scanDirect rec1 source st = scanDirect rec2 source st.
Proof.
  intros Hb. unfold scanDirect.
  destruct (truthy (get source "functionCall")) eqn:E1; cbn [andb].
  - destruct (negb (typeofFunction (get source "functionCall")));
      rewrite ?(rec_get_agree source "functionCall" st Hb E1);
      destruct (truthy (get source "function_call")) eqn:E2;
      rewrite ?(rec_get_agree source "function_call" _ Hb E2); reflexivity.
  - destruct (truthy (get source "function_call")) eqn:E2;
      rewrite ?(rec_get_agree source "function_call" _ Hb E2); reflexivity.
Qed.

Lemma scanPart_agree part st :
  (height part <= bound)%nat ->
  scanPart rec1 part st = scanPart rec2 part st.
Proof.
  intros Hb. unfold scanPart.
  destruct (truthy (get part "functionCall")) eqn:E1;
    rewrite ?(rec_get_agree part "functionCall" st Hb E1);
    destruct (truthy (get part "function_call")) eqn:E2;
    rewrite ?(rec_get_agree part "function_call" _ Hb E2); reflexivity.
Qed.

Lemma scanCandidate_agree c st :
  (height c < bound)%nat ->
  scanCandidate rec1 c st = scanCandidate rec2 c st.
Proof.
  intros Hb. unfold scanCandidate. rewrite (Hagree c st Hb).
  destruct (get (get c "content") "parts") as [| | | | |parts| |] eqn:E; try reflexivity.
  apply fold_left_agree. intros part Hp st'. apply scanPart_agree.
  pose proof (height_item _ _ Hp) as H1.
  destruct (height_get (get c "content") "parts") as [H2|H2]; [congruence|].
  rewrite E in H2.
  destruct (height_get c "content") as [H3|H3]; [rewrite H3 in H2; cbn in H2; lia|].
  lia.
Qed.

Lemma scanCandidates_agree cs st :
  (height cs < bound)%nat ->
  scanCandidates rec1 cs st = scanCandidates rec2 cs st.
Proof.
  intros Hb. unfold scanCandidates.
  destruct cs as [| | | | |items| |]; try reflexivity.
  apply fold_left_agree. intros c Hc st'. apply scanCandidate_agree.
  pose proof (height_item _ _ Hc). lia.
Qed.

Lemma readCandidates_height source st :
  (height source <= bound)%nat ->
  fst (readCandidates source st) = VUndefined
  \/ (height (fst (readCandidates source st)) < bound)%nat.
Proof.
  intros Hb. unfold readCandidates.
  destruct (height_get source "candidates") as [H|H].
  - rewrite H. now left.
  - destruct (get source "candidates") as [| | | | | | |[r|]];
      cbn [fst height] in *; right; lia.
Qed.

Lemma scanEntries_agree props st :
  (height (VObject props) <= bound)%nat ->
  scanEntries rec1 props st = scanEntries rec2 props st.
Proof.
  intros Hb. unfold scanEntries. apply fold_left_agree.
  intros [key v] Hin st'. unfold scanEntry.
  destruct (truthy v && typeofObject v && negb (existsb (String.eqb key) skippedKeys));
    [|reflexivity].
  apply Hagree. pose proof (height_prop _ _ _ Hin). lia.
Qed.

Lemma scanBody_agree source st :
  (height source <= bound)%nat ->
  scanBody stringify rec1 source st = scanBody stringify rec2 source st.
Proof.
  intros Hb. unfold scanBody.
  destruct (negb (truthy source)); [reflexivity|].
  destruct source as [| | | | |items|props|r]; try reflexivity.
  - apply scanAll_agree. intros v Hv. pose proof (height_item _ _ Hv). lia.
  - rewrite (scanHelper_agree _ st Hb), (scanDirect_agree _ _ Hb).
    pose proof (readCandidates_height (VObject props)
                  (scanDirect rec2 (VObject props) (scanHelper rec2 (VObject props) st)) Hb) as Hc.
    destruct (readCandidates (VObject props)
                (scanDirect rec2 (VObject props) (scanHelper rec2 (VObject props) st)))
      as [candidates st'].
    cbn [fst] in Hc.
    assert (E : scanCandidates rec1 candidates st' = scanCandidates rec2 candidates st').
    { destruct Hc as [->|Hc]; [reflexivity|now apply scanCandidates_agree]. }
    rewrite E, (scanEntries_agree _ _ Hb). reflexivity.
Qed.

End Fuel.

(** Any fuel from the depth of the value upwards gives the same scan. *)
Lemma scan_fuel (stringify : value -> string) (n : nat) :
  forall m v st, (height v <= n)%nat -> (height v <= m)%nat ->
  scan stringify n v st = scan stringify m v st.
Proof.
  assert (Flat : forall k v st, height v = 0%nat -> scan stringify k v st = st).
  { intros [|k] v st H; [reflexivity|]. cbn [scan]. unfold scanBody.
    destruct (negb (truthy v)); [reflexivity|].
    destruct v as [| | | | | | |[r|]]; try reflexivity; cbn in H; lia. }
  induction n as [|n IH]; intros m v st Hn Hm.
  - rewrite !Flat by lia. reflexivity.
  - destruct m as [|m]; [rewrite !Flat by lia; reflexivity|].
    cbn [scan]. apply (scanBody_agree stringify _ _ (height v)); [|lia].
    intros w st' Hw. apply IH; lia.
Qed.

Lemma scan_enough_fuel (stringify : value -> string) (n : nat) (v : value) (st : ScanState) :
  (height v <= n)%nat ->
  scan stringify n v st = scanForFunctionCalls stringify v st.
Proof. intros H. unfold scanForFunctionCalls. apply scan_fuel; lia. Qed.

(** *** The claim *)



End ScannerFacts.

(** ** The capture-analysis cache *)

Module CacheFacts.
Import WindowAnalysis.

Section Facts.
Variable A : Type.

Lemma length_cacheSet (key : string) (entry : CacheEntry A) (cache : Cache A) :
  (length (cacheSet A key entry cache) <= S (length cache))%nat.
Proof.
  induction cache as [|[k e] rest IH]; simpl; [lia|].
  destruct (String.eqb k key); simpl; lia.
Qed.

Lemma length_filter_le {B} (f : B -> bool) (l : list B) :
  (length (List.filter f l) <= length l)%nat.
Proof. induction l as [|x l IH]; simpl; [lia|]. destruct (f x); simpl; lia. Qed.

Lemma length_filter_lt {B} (f : B -> bool) (l : list B) (x : B) :
  In x l -> f x = false -> (length (List.filter f l) < length l)%nat.
Proof.
  induction l as [|y l IH]; intros [] Hf; simpl.
  - subst y. rewrite Hf. pose proof (length_filter_le f l). lia.
  - pose proof (IH H Hf). destruct (f y); simpl; lia.
Qed.

(** The loop of evictIfNeeded ends on a key of the cache as soon as some
    entry is older than the sentinel it starts from. *)
Lemma findOldest_from (cache : Cache A) (k0 : option string) (t0 : Z) :
  let '(k, t) :=
    fold_left
      (fun '(oldestKey, oldestTime) e =>
         if (timestamp A (snd e) <? oldestTime)%Z
         then (Some (fst e), timestamp A (snd e))
         else (oldestKey, oldestTime))
      cache (k0, t0) in
  (t <= t0)%Z
  /\ (forall e, In e cache -> (t <= timestamp A (snd e))%Z)
  /\ ((k = k0 /\ t = t0)
      \/ exists e, In e cache /\ k = Some (fst e) /\ t = timestamp A (snd e)).
Proof.
  revert k0 t0. induction cache as [|e rest IH]; intros k0 t0; simpl.
  - split; [lia|]. split; [intros e []|]. now left.
  - destruct (timestamp A (snd e) <? t0)%Z eqn:E.
    + apply Z.ltb_lt in E. specialize (IH (Some (fst e)) (timestamp A (snd e))).
      destruct (fold_left _ rest _) as [k t].
      destruct IH as (H1 & H2 & H3). split; [lia|]. split.
      * intros e' [<-|He']; [exact H1|auto].
      * right. destruct H3 as [[-> ->]|(e' & He' & -> & ->)]; eauto.
    + apply Z.ltb_ge in E. specialize (IH k0 t0).
      destruct (fold_left _ rest _) as [k t].
      destruct IH as (H1 & H2 & H3). split; [lia|]. split.
      * intros e' [<-|He']; [lia|auto].
      * destruct H3 as [H3|(e' & He' & -> & ->)]; [now left|right; eauto].
Qed.

(** With the clock ahead of some entry, evictIfNeeded at capacity removes
    an entry whose timestamp is the least one. *)
Lemma evict_removes_oldest (now : Z) (cache : Cache A) (old : string * CacheEntry A) :
  (MAX_CACHE_SIZE <= length cache)%nat ->
  In old cache -> (timestamp A (snd old) < now)%Z ->
  (forall e, In e cache -> Js.truthy (fst e) = true) ->
  exists victim,
    In victim cache
    /\ (forall e, In e cache -> (timestamp A (snd victim) <= timestamp A (snd e))%Z)
    /\ evictIfNeeded A now cache = cacheDelete A (fst victim) cache
    /\ (length (evictIfNeeded A now cache) < length cache)%nat.
Proof.
  intros Hfull Hold Hlt Hkeys. unfold evictIfNeeded.
  apply Nat.leb_le in Hfull. rewrite Hfull.
  pose proof (findOldest_from cache None now) as H. unfold findOldest.
  destruct (fold_left _ cache (None, now)) as [k t].
  destruct H as (H1 & H2 & H3). cbn [fst].
  destruct H3 as [[-> ->]|(victim & Hv & -> & ->)].
  - specialize (H2 old Hold). lia.
  - exists victim. rewrite (Hkeys victim Hv).
    split; [exact Hv|]. split; [exact H2|]. split; [reflexivity|].
    unfold cacheDelete. apply (length_filter_lt _ _ victim Hv).
    now rewrite String.eqb_refl.
Qed.

(** The cache stays within its capacity across a capture when the clock
    read by evictIfNeeded is ahead of some cached entry. *)
Lemma capacity_kept_when_clock_ahead (clock : Clock) (performed : option A)
    (windowTitle processName imageHash : string) (cache : Cache A) :
  (length cache <= MAX_CACHE_SIZE)%nat ->
  (forall e, In e cache -> (timestamp A (snd e) < atEvict clock)%Z) ->
  (forall e, In e cache -> Js.truthy (fst e) = true) ->
  (length (snd (analyzeWindowCapture A clock performed windowTitle processName imageHash cache))
   <= MAX_CACHE_SIZE)%nat.
Proof.
  intros Hlen Hclock Hkeys. unfold analyzeWindowCapture.
  set (cleaned := cleanExpiredEntries A (atClean clock) cache).
  assert (Hc : (length cleaned <= MAX_CACHE_SIZE)%nat)
    by (pose proof (length_filter_le (fun e => negb (atClean clock - timestamp A (snd e) >? CACHE_TTL)%Z) cache);
        unfold cleaned, cleanExpiredEntries; lia).
  assert (Hin : forall e, In e cleaned -> In e cache)
    by (intros e He; apply filter_In in He; tauto).
  assert (He : (length (evictIfNeeded A (atEvict clock) cleaned) < MAX_CACHE_SIZE)%nat).
  { destruct (Nat.le_gt_cases MAX_CACHE_SIZE (length cleaned)) as [Hfull|Hroom].
    - destruct cleaned as [|old rest] eqn:E; [cbn in Hfull; unfold MAX_CACHE_SIZE in Hfull; lia|].
      destruct (evict_removes_oldest (atEvict clock) (old :: rest) old Hfull
                  (or_introl eq_refl)) as (_ & _ & _ & _ & Hless).
      + apply Hclock, Hin. now left.
      + intros e He. apply Hkeys, Hin, He.
      + lia.
    - unfold evictIfNeeded. apply Nat.leb_gt in Hroom. rewrite Hroom. now apply Nat.leb_gt. }
  assert (Hmiss : forall a,
    (length (cacheSet A (getCacheKey windowTitle processName imageHash) a
               (evictIfNeeded A (atEvict clock) cleaned)) <= MAX_CACHE_SIZE)%nat).
  { intros a. pose proof (length_cacheSet (getCacheKey windowTitle processName imageHash) a
                            (evictIfNeeded A (atEvict clock) cleaned)). lia. }
  destruct (cacheGet A (getCacheKey windowTitle processName imageHash) cleaned) as [cached|].
  - destruct (atLookup clock - timestamp A cached <? CACHE_TTL)%Z; cbn [snd]; [exact Hc|].
    destruct performed; cbn [snd]; [apply Hmiss|lia].
  - destruct performed; cbn [snd]; [apply Hmiss|lia].
Qed.

(** An entry whose age at the lookup has reached the TTL is not answered
    from the cache, purged or not: the answer is what the fresh analysis
    yields. *)
Lemma expired_entry_is_a_miss (clock : Clock) (performed : option A)
    (windowTitle processName imageHash : string) (cache : Cache A) :
  (forall cached,
     cacheGet A (getCacheKey windowTitle processName imageHash)
       (cleanExpiredEntries A (atClean clock) cache) = Some cached ->
     (CACHE_TTL <= atLookup clock - timestamp A cached)%Z) ->
  fst (analyzeWindowCapture A clock performed windowTitle processName imageHash cache)
  = performed.
Proof.
  intros H. unfold analyzeWindowCapture.
  destruct (cacheGet A _ _) as [cached|].
  - specialize (H cached eq_refl). apply Z.ltb_ge in H. rewrite H.
    destruct performed; reflexivity.
  - destruct performed; reflexivity.
Qed.

End Facts.

(** *** A run that leaves 51 entries *)

Definition steadyClock (now : Z) : Clock :=
  {| atClean := now; atLookup := now; atEvict := now; atStore := now |}.

(** The capture of window number [i] of chrome at time [now]; the
    analysis is a description. *)
Definition captureAt (i : nat) (now : Z) : Capture string :=
  {| clock := steadyClock now;
     performed := Some "a browser window";
     windowTitle := "tab " +:+ Scanner.numberToString (Z.of_nat i);
     processName := "chrome";
     imageHash := "9f86d081884c7d65" |}.

Definition startTime : Z := 1700000000000.

(** Fifty captures of fifty windows, one second apart. *)
Definition fiftyCaptures : list (Capture string) :=
  map (fun i => captureAt i (startTime + 1000 * Z.of_nat i)) (seq 0 50).

(** C8.  Fifty windows are analysed one second apart and fill the cache.
    The system clock is then set back by one hour and a further window is
    analysed: evictIfNeeded starts its search from the current time, finds
    no entry older than that, evicts nothing, and the cache holds 51
    entries.  With the clock one second further on instead, the oldest
    entry is evicted and the cache holds 50. *)
Theorem cache_exceeds_capacity_after_clock_step_back :
  length (runCaptures string fiftyCaptures []) = 50%nat
  /\ length (runCaptures string
               (fiftyCaptures ++ [captureAt 50 (startTime - 3600000)]) []) = 51%nat
  /\ (MAX_CACHE_SIZE < 51)%nat
  /\ length (runCaptures string
               (fiftyCaptures ++ [captureAt 50 (startTime + 50000)]) []) = 50%nat
  /\ cacheGet string (getCacheKey "tab 0" "chrome" "9f86d081884c7d65")
       (runCaptures string (fiftyCaptures ++ [captureAt 50 (startTime + 50000)]) [])
     = None.
Proof.
  split; [vm_compute; reflexivity|].
  split; [vm_compute; reflexivity|].
  split; [unfold MAX_CACHE_SIZE; lia|].
  split; vm_compute; reflexivity.
Qed.

End CacheFacts.

(** ** Window selection by ordinal *)

Module SelectionFacts.
Import WindowSelection.

Lemma matchDigits_nonempty (s : string) (digits : string) :
  matchDigits s = Some digits -> Js.truthy s = true.
Proof. destruct s; [discriminate|reflexivity]. Qed.

Lemma includes_nonempty (s word : string) :
  Js.truthy word = true -> Js.includes s word = true -> Js.truthy s = true.
Proof. destruct s; [|reflexivity]. destruct word; [discriminate|]. discriminate. Qed.

Lemma toLowerCase_truthy (s : string) : Js.truthy (Js.toLowerCase s) = Js.truthy s.
Proof. destruct s; reflexivity. Qed.

Lemma cleaned_truthy_requested (requested : string) :
  Js.truthy (Js.trim (removeQuotes requested)) = true -> Js.truthy requested = true.
Proof. destruct requested; [discriminate|reflexivity]. Qed.

Lemma ordinal_words_truthy (word : string) (v : N) :
  In (word, v) ORDINAL_WORDS -> Js.truthy word = true.
Proof.
  unfold ORDINAL_WORDS. simpl.
  intros H. repeat (destruct H as [H|H]; [injection H as <- _; reflexivity|]).
  contradiction.
Qed.

(** What [matchDigits] finds is a standalone number: a non-empty run of
    digits of the text with no word character next to it on either
    side. *)
Definition standaloneAt (prev : option ascii) (s pre digits post : string) : Prop :=
  s = pre +:+ digits +:+ post
  /\ Js.truthy digits = true
  /\ forallb Js.isDigit (list_ascii_of_string digits) = true
  /\ Js.isWordOpt (RegexFacts.lastOr prev pre) = false
  /\ Js.isWordOpt (Js.head post) = false.

Lemma digit_is_word (c : ascii) : Js.isDigit c = true -> Js.isWordChar c = true.
Proof. intros H. unfold Js.isWordChar. now rewrite H. Qed.

Lemma digitRun_spec (s : string) :
  s = fst (digitRun s) +:+ snd (digitRun s)
  /\ forallb Js.isDigit (list_ascii_of_string (fst (digitRun s))) = true.
Proof.
  induction s as [|c r [IH1 IH2]]; [split; reflexivity|].
  cbn [digitRun]. destruct (Js.isDigit c) eqn:E; [|split; reflexivity].
  destruct (digitRun r) as [run rest]. cbn [fst snd] in *.
  rewrite RegexFacts.app_cons. split; [now f_equal|].
  cbn [list_ascii_of_string forallb]. now rewrite E, IH2.
Qed.

Lemma last_digit_is_word (run : string) :
  Js.truthy run = true ->
  forallb Js.isDigit (list_ascii_of_string run) = true ->
  Js.isWordOpt (Js.last run) = true.
Proof.
  induction run as [|c r IH]; [discriminate|]. intros _ H.
  cbn [list_ascii_of_string forallb] in H. apply andb_true_iff in H as [Hc Hr].
  destruct r as [|d r']; [exact (digit_is_word c Hc)|].
  exact (IH eq_refl Hr).
Qed.

Lemma matchDigitsFrom_standalone (s : string) :
  forall prev digits,
    matchDigitsFrom prev s = Some digits ->
    exists pre post, standaloneAt prev s pre digits post.
Proof.
  induction s as [|c r IH]; intros prev digits H; [discriminate|].
  assert (Later : matchDigitsFrom (Some c) r = Some digits ->
                  exists pre post, standaloneAt prev (String c r) pre digits post).
  { intros H'. destruct (IH _ _ H') as (pre & post & E & H1 & H2 & H3 & H4).
    exists (String c pre), post. unfold standaloneAt.
    rewrite RegexFacts.lastOr_cons, RegexFacts.app_cons, <- E. auto. }
  cbn [matchDigitsFrom] in H.
  destruct (Js.isDigit c && Js.wordBoundary prev (Some c)) eqn:E; [|auto].
  apply andb_true_iff in E as [Ec Eb].
  pose proof (digitRun_spec (String c r)) as [S1 S2].
  destruct (digitRun (String c r)) as [run rest] eqn:Er. cbn [fst snd] in S1, S2.
  destruct (Js.wordBoundary (Js.last run) (Js.head rest)) eqn:Ea; [|auto].
  injection H as <-.
  assert (Hrun : Js.truthy run = true).
  { cbn [digitRun] in Er. rewrite Ec in Er. destruct (digitRun r).
    injection Er as <- _. reflexivity. }
  exists EmptyString, rest. unfold standaloneAt.
  split; [exact S1|]. split; [exact Hrun|]. split; [exact S2|].
  unfold Js.wordBoundary in Eb, Ea. cbn [Js.isWordOpt] in Eb.
  rewrite (digit_is_word c Ec) in Eb.
  rewrite (last_digit_is_word run Hrun S2) in Ea.
  split.
  - cbn. now destruct (Js.isWordOpt prev).
  - now destruct (Js.isWordOpt (Js.head rest)).
Qed.

Lemma matchDigits_standalone (input digits : string) :
  matchDigits input = Some digits ->
  exists pre post, standaloneAt None input pre digits post.
Proof. apply matchDigitsFrom_standalone. Qed.

(** The loop over the ordinal words stops at the first word that the text
    contains and that is in range. *)
Lemma firstOrdinalWord_found (lower : string) (total : N)
    (before : list (string * N)) (word : string) (v : N) (after : list (string * N)) :
  (forall w j, In (w, j) before -> Js.includes lower w = false) ->
  Js.includes lower word = true -> inRange v total = true ->
  firstOrdinalWord lower total (before ++ (word, v) :: after) = Some (N.to_nat (v - 1)).
Proof.
  intros Hb Hw Hr. induction before as [|[w j] rest IH]; simpl.
  - now rewrite Hw, Hr.
  - rewrite (Hb w j (or_introl eq_refl)). cbn [andb]. apply IH.
    intros w' j' H. apply (Hb w' j'). now right.
Qed.

Ltac lower_values :=
  let w := fresh in let j := fresh in let Hin := fresh in
  intros w j Hin; simpl in Hin;
  repeat (destruct Hin as [Hin|Hin]; [injection Hin as _ <-; lia|]);
  contradiction.

(** The table lists the words by increasing value. *)
Lemma ordinal_words_split (word : string) (v : N) :
  In (word, v) ORDINAL_WORDS ->
  exists before after,
    ORDINAL_WORDS = before ++ (word, v) :: after
    /\ forall w j, In (w, j) before -> (j < v)%N.
Proof.
  unfold ORDINAL_WORDS. intros H. simpl in H.
  destruct H as [H|H]; [injection H as <- <-; exists []; eexists; split; [reflexivity|lower_values]|].
  destruct H as [H|H]; [injection H as <- <-; exists [("first", 1%N)]; eexists; split; [reflexivity|lower_values]|].
  destruct H as [H|H]; [injection H as <- <-;
    exists [("first", 1%N); ("second", 2%N)]; eexists; split; [reflexivity|lower_values]|].
  destruct H as [H|H]; [injection H as <- <-;
    exists [("first", 1%N); ("second", 2%N); ("third", 3%N)]; eexists; split; [reflexivity|lower_values]|].
  destruct H as [H|H]; [injection H as <- <-;
    exists [("first", 1%N); ("second", 2%N); ("third", 3%N); ("fourth", 4%N)];
    eexists; split; [reflexivity|lower_values]|].
  destruct H as [H|H]; [injection H as <- <-;
    exists [("first", 1%N); ("second", 2%N); ("third", 3%N); ("fourth", 4%N); ("fifth", 5%N)];
    eexists; split; [reflexivity|lower_values]|].
  destruct H as [H|H]; [injection H as <- <-;
    exists [("first", 1%N); ("second", 2%N); ("third", 3%N); ("fourth", 4%N); ("fifth", 5%N);
            ("sixth", 6%N)];
    eexists; split; [reflexivity|lower_values]|].
  destruct H as [H|H]; [injection H as <- <-;
    exists [("first", 1%N); ("second", 2%N); ("third", 3%N); ("fourth", 4%N); ("fifth", 5%N);
            ("sixth", 6%N); ("seventh", 7%N)];
    eexists; split; [reflexivity|lower_values]|].
  destruct H as [H|H]; [injection H as <- <-;
    exists [("first", 1%N); ("second", 2%N); ("third", 3%N); ("fourth", 4%N); ("fifth", 5%N);
            ("sixth", 6%N); ("seventh", 7%N); ("eighth", 8%N)];
    eexists; split; [reflexivity|lower_values]|].
  destruct H as [H|H]; [injection H as <- <-;
    exists [("first", 1%N); ("second", 2%N); ("third", 3%N); ("fourth", 4%N); ("fifth", 5%N);
            ("sixth", 6%N); ("seventh", 7%N); ("eighth", 8%N); ("ninth", 9%N)];
    eexists; split; [reflexivity|lower_values]|].
  contradiction.
Qed.

(** What the request asks for, in the order the code looks: the first
    standalone number of the text when it is [k]; otherwise, that number
    being absent or out of range, the ordinal word of value [k] when no
    ordinal word of a lower value occurs in the text. *)
Definition asksFor (cleaned : string) (total k : nat) : Prop :=
  (exists digits, matchDigits cleaned = Some digits /\ parseInt digits = N.of_nat k)
  \/ ((forall digits, matchDigits cleaned = Some digits ->
         inRange (parseInt digits) (N.of_nat total) = false)
      /\ (exists word, In (word, N.of_nat k) ORDINAL_WORDS
                       /\ Js.includes (Js.toLowerCase cleaned) word = true)
      /\ (forall word j, In (word, j) ORDINAL_WORDS -> (j < N.of_nat k)%N ->
            Js.includes (Js.toLowerCase cleaned) word = false)).

Lemma extractRequestedIndex_asked (cleaned : string) (total k : nat) :
  (1 <= k <= total)%nat -> asksFor cleaned total k ->
  extractRequestedIndex cleaned total = Some (k - 1)%nat.
Proof.
  intros Hk Hask.
  assert (Hr : inRange (N.of_nat k) (N.of_nat total) = true).
  { unfold inRange. apply andb_true_iff. split; apply N.leb_le; lia. }
  assert (Hi : N.to_nat (N.of_nat k - 1) = (k - 1)%nat) by lia.
  unfold extractRequestedIndex.
  destruct Hask as [(digits & Hm & Hp)|(Hd & (word & Hin & Hw) & Hlow)].
  - rewrite Hm, Hp, Hr, Hi. reflexivity.
  - assert (Hwords : firstOrdinalWord (Js.toLowerCase cleaned) (N.of_nat total) ORDINAL_WORDS
                     = Some (k - 1)%nat).
    { destruct (ordinal_words_split _ _ Hin) as (before & after & E & Hb).
      rewrite E, <- Hi. apply firstOrdinalWord_found; [|exact Hw|exact Hr].
      intros w j Hj. apply (Hlow w j); [|exact (Hb w j Hj)].
      rewrite E. apply in_or_app. now left. }
    destruct (matchDigits cleaned) as [digits|]; [|exact Hwords].
    rewrite (Hd digits eq_refl). exact Hwords.
Qed.

(** C9, as the code has it.  The first standalone number of the cleaned
    request, when it is in range, and otherwise the lowest-valued ordinal
    word that the request contains, when in range, selects the option at
    the zero-based index one below it, whatever the titles of the options
    are: the matching stages do not take part. *)
Theorem ordinal_resolved_before_matching (processName : string)
    (options : list WindowSelectionOption) (requested : string) (k : nat)
    (chosen : WindowSelectionOption) :
  (1 <= k)%nat ->
  options !! (k - 1)%nat = Some chosen ->
  asksFor (Js.trim (removeQuotes requested)) (length options) k ->
  resolveWindowSelectionFromOptions processName options requested
  = Some (select processName chosen).
Proof.
  intros Hk Hopt Hask.
  assert (Hrange : (1 <= k <= length options)%nat).
  { apply lookup_lt_Some in Hopt. lia. }
  assert (Hclean : Js.truthy (Js.trim (removeQuotes requested)) = true).
  { destruct Hask as [(digits & Hm & _)|(_ & (word & Hin & Hw) & _)].
    - exact (matchDigits_nonempty _ _ Hm).
    - rewrite <- toLowerCase_truthy.
      exact (includes_nonempty _ _ (ordinal_words_truthy _ _ Hin) Hw). }
  unfold resolveWindowSelectionFromOptions.
  rewrite (cleaned_truthy_requested _ Hclean), Hclean. cbn [negb].
  rewrite (extractRequestedIndex_asked _ _ _ Hrange Hask), Hopt. reflexivity.
Qed.

Definition chromeDocs : WindowSelectionOption :=
  {| title := "Docs - Google Chrome"; displayName := "Docs";
     processName := "chrome"; isActive := true |}.
Definition chromeMail : WindowSelectionOption :=
  {| title := "Inbox - Google Chrome"; displayName := "Inbox";
     processName := "chrome"; isActive := false |}.
Definition chromeNews : WindowSelectionOption :=
  {| title := "News - Google Chrome"; displayName := "News";
     processName := "chrome"; isActive := false |}.

Lemma ordinal_resolved_before_matching_witness :
  resolveWindowSelectionFromOptions "chrome" [chromeDocs; chromeMail] "the second one"
  = Some (select "chrome" chromeMail).
Proof.
  apply (ordinal_resolved_before_matching "chrome"
           [chromeDocs; chromeMail] "the second one" 2 chromeMail).
  - lia.
  - reflexivity.
  - right. split; [|split].
    + intros digits H. vm_compute in H. discriminate.
    + exists "second". split; [|vm_compute; reflexivity].
      right. left. reflexivity.
    + intros word j Hin Hj. unfold ORDINAL_WORDS in Hin. simpl in Hin.
      destruct Hin as [Hin|Hin]; [injection Hin as <- <-; vm_compute; reflexivity|].
      repeat (destruct Hin as [Hin|Hin]; [injection Hin as _ <-; lia|]).
      contradiction.
Defined.

(** The matching stages on a request without an ordinal. *)
Lemma matching_examples :
  normalizeWindowText "Open the Inbox window, please" = "inbox ,"
  /\ normalizeWindowText "panels on the pane" = "panels"
  /\ resolveWindowSelectionFromOptions "chrome" [chromeDocs; chromeMail] "inbox"
     = Some (select "chrome" chromeMail)
  /\ resolveWindowSelectionFromOptions "chrome" [chromeDocs; chromeMail] "the docs tab"
     = Some (select "chrome" chromeDocs)
  /\ resolveWindowSelectionFromOptions "chrome" [chromeDocs; chromeMail] "spreadsheet"
     = None.
Proof. vm_compute. repeat split. Qed.

(** C9, as stated, fails.  The first request below contains the word
    second and three options are cached, yet the number 3 is looked at
    first and the third option is returned.  Of two ordinal words the
    lower-valued one is taken.  And the digit of 2nd, which has a letter
    after it, is not found at all: the request goes to the matching
    stages, which resolve nothing. *)
Lemma ordinal_in_request_not_selected :
  (Js.includes (Js.toLowerCase "the second of the 3 windows") "second" = true
   /\ In ("second", 2%N) ORDINAL_WORDS
   /\ [chromeDocs; chromeMail; chromeNews] !! 1%nat = Some chromeMail
   /\ resolveWindowSelectionFromOptions "chrome"
        [chromeDocs; chromeMail; chromeNews] "the second of the 3 windows"
      = Some (select "chrome" chromeNews)
   /\ select "chrome" chromeNews <> select "chrome" chromeMail)
  /\ (Js.includes (Js.toLowerCase "not the first tab, the second one") "second" = true
      /\ resolveWindowSelectionFromOptions "chrome"
           [chromeDocs; chromeMail] "not the first tab, the second one"
         = Some (select "chrome" chromeDocs)
      /\ select "chrome" chromeDocs <> select "chrome" chromeMail)
  /\ (Js.includes "the 2nd one" "2" = true
      /\ extractRequestedIndex "the 2nd one" 2 = None
      /\ resolveWindowSelectionFromOptions "chrome" [chromeDocs; chromeMail] "the 2nd one"
         = None).
Proof.
  split; [|split].
  - split; [vm_compute; reflexivity|].
    split; [right; left; reflexivity|].
    split; [reflexivity|].
    split; [vm_compute; reflexivity|discriminate].
  - split; [vm_compute; reflexivity|].
    split; [vm_compute; reflexivity|discriminate].
  - vm_compute. repeat split.
Qed.

End SelectionFacts.

(** ** Wrap-up messages *)

Module WrapFacts.
Import Orchestrator.

Lemma wrap_examples :
  isConversationWrapMessage "All good, thanks!" = true
  /\ isConversationWrapMessage "  Just checking  " = true
  /\ isConversationWrapMessage "ok, done for now." = true
  /\ isConversationWrapMessage "thanksy that" = true
  /\ isConversationWrapMessage "thanksgiving plans" = false
  /\ isConversationWrapMessage "show me the docker logs" = false.
Proof. vm_compute. repeat split. Qed.

(** The wrap-up pattern, as the regular expression reads: the message is
    not empty and, trimmed and lower-cased, it holds one of the phrases
    with a word boundary before it and after it. *)
Definition matchesWrapPattern (message : string) : Prop :=
  message <> EmptyString
  /\ exists pre alt matched post,
       In alt wrapPhrases
       /\ RegexFacts.occursAt None (Js.toLowerCase (Js.trim message)) pre alt matched post.

Lemma isConversationWrapMessage_spec (message : string) :
  isConversationWrapMessage message = true <-> matchesWrapPattern message.
Proof.
  unfold isConversationWrapMessage, matchesWrapPattern, Js.testBounded.
  rewrite <- RegexFacts.testBoundedFrom_occurs.
  destruct message as [|c r]; cbn [Js.truthy negb].
  - split; [discriminate|]. intros [H _]. now contradiction H.
  - split; [intros H; split; [discriminate|exact H]|intros [_ H]; exact H].
Qed.

Section SendMessage.
Variable Model : Type.
Variable restOfTurn : Model -> list Message -> list string -> TurnResult * list Effect.

(** C10, as the code has it.  With the model initialised, a conversation
    whose last user message matches the wrap-up pattern is answered by a
    stream holding the fixed acknowledgement only, and the turn performs
    no reasoning-service call, no tool-call scan and no host call: the
    rest of the turn is not run. *)
Theorem wrap_message_short_circuits (model : Model) (messages : list Message)
    (screenshots : list string) :
  matchesWrapPattern (lastUserMessageContent messages) ->
  sendMessageWithVision Model restOfTurn (Some model) messages screenshots
  = (Stream [wrapAcknowledgement], []).
Proof.
  intros H. apply isConversationWrapMessage_spec in H.
  unfold sendMessageWithVision. now rewrite H.
Qed.

(** Without an initialised model the function throws before it looks at
    the messages. *)
Lemma uninitialised_model_throws (messages : list Message) (screenshots : list string) :
  sendMessageWithVision Model restOfTurn None messages screenshots
  = (Throws "Gemini not initialized. Please set API key in settings.", []).
Proof. reflexivity. Qed.

End SendMessage.

Definition thanksConversation : list Message := [
  {| role := user; content := "can you see my editor?" |};
  {| role := assistant; content := "Yes, I can see your editor window." |};
  {| role := user; content := "All good, thanks!" |}
].

(** A turn that would call the reasoning service were it run. *)
Definition busyTurn (_ : unit) (_ : list Message) (_ : list string)
  : TurnResult * list Effect :=
  (Stream ["..."], [HostCall "getSystemContext"; ReasoningCall "sendMessageStream"]).

Lemma wrap_message_short_circuits_witness :
  matchesWrapPattern (lastUserMessageContent thanksConversation)
  /\ sendMessageWithVision unit busyTurn (Some tt) thanksConversation []
     = (Stream [wrapAcknowledgement], []).
Proof.
  assert (H : matchesWrapPattern (lastUserMessageContent thanksConversation)).
  { split; [discriminate|].
    exists EmptyString, (Js.lit "all good"), "all good", ", thanks!".
    split; [left; reflexivity|].
    split; [reflexivity|]. split; [reflexivity|]. split; reflexivity. }
  split; [exact H|].
  exact (wrap_message_short_circuits unit busyTurn tt thanksConversation [] H).
Defined.

(** C10, as stated, fails when the model has not been initialised: the
    last user message is a wrap-up message, yet the call throws instead
    of returning the acknowledgement stream. *)
Lemma wrap_message_with_uninitialised_model_throws :
  isConversationWrapMessage (lastUserMessageContent thanksConversation) = true
  /\ matchesWrapPattern (lastUserMessageContent thanksConversation)
  /\ sendMessageWithVision unit busyTurn None thanksConversation []
     = (Throws "Gemini not initialized. Please set API key in settings.", [])
  /\ sendMessageWithVision unit busyTurn None thanksConversation []
     <> (Stream [wrapAcknowledgement], []).
Proof.
  assert (H : isConversationWrapMessage (lastUserMessageContent thanksConversation) = true)
    by (vm_compute; reflexivity).
  split; [exact H|].
  split; [now apply isConversationWrapMessage_spec|].
  split; [reflexivity|discriminate].
Qed.

End WrapFacts.

(** * Properties of the further parts *)

(** ** The command policy, for every command *)

Module PolicyCoverage.
Import CommandPolicy.

Definition isAuto (l : CommandApprovalLevel) : bool :=
  match l with auto => true | _ => false end.
Definition isBlocked (l : CommandApprovalLevel) : bool :=
  match l with blocked => true | _ => false end.

(** The level and the category of a rule go together, and so does the
    confirmation text of the decision built from it. *)
Definition ruleCoherent (r : CommandRule) : bool :=
  match rule_level r, rule_category r with
  | auto, context | approval_required, critical | blocked, forbidden => true
  | _, _ => false
  end.

Lemma rules_coherent : forallb ruleCoherent allRules = true.
Proof. vm_compute. reflexivity. Qed.

(** X1.  Whatever the command and its arguments, the decision pairs the
    level auto with the category context, approval_required with critical
    and blocked with forbidden, and it carries a confirmation text exactly
    when the level is approval_required. *)
Theorem level_and_category_agree (cmd : string) (args : list string) :
  let d := evaluateCommandPolicy cmd args in
  (level d = auto <-> category d = context)
  /\ (level d = approval_required <-> category d = critical)
  /\ (level d = blocked <-> category d = forbidden)
  /\ (level d = approval_required <-> suggestedConfirmation d <> None).
Proof.
  cbv zeta. unfold evaluateCommandPolicy.
  destruct (find _ allRules) as [r|] eqn:E.
  - apply find_some in E as [Hin _].
    pose proof rules_coherent as H. rewrite forallb_forall in H.
    specialize (H r Hin). unfold ruleCoherent in H.
    unfold buildDecision; cbn [level category suggestedConfirmation].
    destruct (rule_level r), (rule_category r); try discriminate H;
      cbn [is_approval_required]; repeat split; intros; congruence.
  - cbn [defaultDecision level category suggestedConfirmation].
    repeat split; intros; congruence.
Qed.

Lemma lowerChar_idem (c : ascii) : Js.lowerChar (Js.lowerChar c) = Js.lowerChar c.
Proof. destruct c as [[] [] [] [] [] [] [] []]; vm_compute; reflexivity. Qed.

Lemma toLowerCase_idem (s : string) : Js.toLowerCase (Js.toLowerCase s) = Js.toLowerCase s.
Proof. induction s as [|c s IH]; cbn; [reflexivity|]. now rewrite lowerChar_idem, IH. Qed.

Lemma map_toLowerCase_idem (l : list string) :
  map Js.toLowerCase (map Js.toLowerCase l) = map Js.toLowerCase l.
Proof. induction l as [|s l IH]; cbn; [reflexivity|]. now rewrite toLowerCase_idem, IH. Qed.

Definition prefixOf (r : CommandRule) : list string :=
  match argsPrefix r with Some p => p | None => [] end.

Lemma prefixLoop_short (p a : list string) :
  (length a < length p)%nat -> prefixLoop p a = false.
Proof.
  revert a; induction p as [|x p IH]; intros [|y a] H; cbn in *; try lia; try reflexivity.
  destruct (String.eqb x y); [apply IH; lia|reflexivity].
Qed.

(** The length test of matchesRule only saves the loop. *)
Lemma matchesRule_eq (r : CommandRule) (c : string) (a : list string) :
  matchesRule r c a = String.eqb (command r) c && prefixLoop (prefixOf r) a.
Proof.
  unfold matchesRule, prefixOf.
  destruct (String.eqb (command r) c); cbn [negb andb]; [|reflexivity].
  destruct (argsPrefix r) as [[|x p]|]; try reflexivity.
  destruct (Nat.ltb_spec (length a) (length (x :: p))); [|reflexivity].
  symmetry. now apply prefixLoop_short.
Qed.

Lemma prefixLoop_spec (p a : list string) :
  prefixLoop p a = true <-> exists rest, a = p ++ rest.
Proof.
  revert a; induction p as [|x p IH]; intros a; cbn.
  - split; [eauto|reflexivity].
  - destruct a as [|y a].
    + split; [discriminate|]. intros [rest H]. discriminate H.
    + destruct (String.eqb_spec x y) as [->|Hne].
      * rewrite IH. split; intros [rest H]; exists rest; cbn in *; congruence.
      * split; [discriminate|]. intros [rest H]. cbn in H. congruence.
Qed.

Lemma find_filter {A} (f g : A -> bool) (l : list A) :
  find (fun x => f x && g x) l = find g (List.filter f l).
Proof.
  induction l as [|x l IH]; cbn; [reflexivity|].
  destruct (f x); cbn; [destruct (g x); auto|auto].
Qed.

Lemma existsb_filter {A} (f g : A -> bool) (l : list A) :
  existsb (fun x => f x && g x) l = existsb g (List.filter f l).
Proof.
  induction l as [|x l IH]; cbn; [reflexivity|].
  destruct (f x); cbn; [now rewrite IH|auto].
Qed.

Lemma find_agree {A} (f g : A -> bool) (l : list A) :
  (forall x, f x = g x) -> find f l = find g l.
Proof. intros H. induction l as [|x l IH]; cbn; [reflexivity|]. now rewrite H, IH. Qed.

Lemma find_agree_in {A} (f g : A -> bool) (l : list A) :
  (forall x, In x l -> f x = g x) -> find f l = find g l.
Proof.
  intros H. induction l as [|x l IH]; cbn; [reflexivity|].
  rewrite H by now left. rewrite IH; [reflexivity|]. intros y Hy. apply H. now right.
Qed.

(** The rule that decides, found among the rules of the command. *)
Lemma deciding_rule_by_command (c : string) (a : list string) :
  find (fun r => matchesRule r c a) allRules
  = find (fun r => prefixLoop (prefixOf r) a)
      (List.filter (fun r => String.eqb (command r) c) allRules).
Proof.
  rewrite <- find_filter. apply find_agree. intros r. apply matchesRule_eq.
Qed.


Definition commandNames : list string :=
  Eval vm_compute in
    fold_right (fun c acc => if existsb (String.eqb c) acc then acc else c :: acc) []
      (map command allRules).

Lemma commands_named : forallb (fun r => existsb (String.eqb (command r)) commandNames) allRules = true.
Proof. vm_compute. reflexivity. Qed.

Lemma no_rule_for_other_commands (c : string) :
  ~ In c commandNames ->
  List.filter (fun r => String.eqb (command r) c) allRules = [].
Proof.
  intros Hc. pose proof commands_named as H. rewrite forallb_forall in H.
  induction allRules as [|r l IH]; cbn; [reflexivity|].
  destruct (String.eqb_spec (command r) c) as [<-|_].
  - exfalso. apply Hc. specialize (H r (or_introl eq_refl)).
    apply existsb_exists in H as (n & Hn & E). apply String.eqb_eq in E. now rewrite E.
  - apply IH. intros x Hx. apply H. now right.
Qed.

(** An invocation: a command name and the arguments it begins with. *)
Definition invokedBy (cmd : string) (args : list string) (inv : string * list string) : Prop :=
  Js.toLowerCase cmd = fst inv /\ exists rest, map Js.toLowerCase args = snd inv ++ rest.

Definition invokedByb (c : string) (a : list string) (inv : string * list string) : bool :=
  String.eqb (fst inv) c && prefixLoop (snd inv) a.

Lemma Exists_invokedBy (cmd : string) (args : list string) (l : list (string * list string)) :
  Exists (invokedBy cmd args) l
  <-> existsb (invokedByb (Js.toLowerCase cmd) (map Js.toLowerCase args)) l = true.
Proof.
  rewrite List.Exists_exists, existsb_exists.
  split; intros (inv & Hin & H); exists inv; (split; [exact Hin|]).
  - destruct H as [H1 H2]. unfold invokedByb. apply andb_true_intro. split.
    + apply String.eqb_eq. now symmetry.
    + now apply prefixLoop_spec.
  - unfold invokedByb in H. apply andb_prop in H as [H1 H2]. split.
    + apply String.eqb_eq in H1. now symmetry.
    + now apply prefixLoop_spec.
Qed.

(** The invocations that run without the user's approval. *)
Definition readOnlyInvocations : list (string * list string) := [
  ("docker", ["ps"]); ("docker", ["logs"]); ("docker", ["stats"]); ("docker", ["inspect"]);
  ("git", ["status"]); ("git", ["branch"]); ("git", ["log"]); ("git", ["show"]);
  ("git", ["config"; "--list"]);
  ("npm", ["ls"]); ("node", ["--version"]); ("python", ["--version"]);
  ("cmd", ["/c"; "tasklist"]); ("wmic", ["process"; "list"; "brief"]);
  ("systeminfo", []); ("whoami", []); ("hostname", []); ("ls", []); ("dir", [])
].

(** The invocations that are refused. *)
Definition forbiddenInvocations : list (string * list string) := [
  ("rm", []); ("rd", []); ("del", []); ("erase", []); ("format", []);
  ("shutdown", []); ("reboot", []); ("poweroff", []); ("mkfs", []); ("diskpart", []);
  ("docker", ["rm"]); ("docker", ["compose"; "down"]); ("docker", ["compose"; "rm"])
].

Lemma invocations_named (l : list (string * list string)) (c : string) (a : list string) :
  forallb (fun inv => existsb (String.eqb (fst inv)) commandNames) l = true ->
  ~ In c commandNames -> existsb (invokedByb c a) l = false.
Proof.
  intros H Hc. rewrite forallb_forall in H.
  apply not_true_is_false. intros E. apply existsb_exists in E as (inv & Hin & E).
  unfold invokedByb in E. apply andb_prop in E as [E _]. apply String.eqb_eq in E.
  specialize (H inv Hin). apply existsb_exists in H as (n & Hn & E').
  apply String.eqb_eq in E'. apply Hc. congruence.
Qed.

Definition levelOf (c : string) (a : list string) : CommandApprovalLevel :=
  match find (fun r => matchesRule r c a) allRules with
  | Some r => rule_level r
  | None => approval_required
  end.

Lemma level_levelOf (cmd : string) (args : list string) :
  level (evaluateCommandPolicy cmd args)
  = levelOf (Js.toLowerCase cmd) (map Js.toLowerCase args).
Proof.
  unfold evaluateCommandPolicy, levelOf. now destruct (find _ allRules).
Qed.

Definition allLower (a : list string) : Prop :=
  List.Forall (fun s => Js.toLowerCase s = s) a.

Lemma allLower_map (args : list string) : allLower (map Js.toLowerCase args).
Proof.
  induction args as [|s l IH]; constructor; [apply toLowerCase_idem|exact IH].
Qed.

Ltac eval_closed_eqb :=
  repeat match goal with
  | |- context [String.eqb ?s ?t] =>
      let b := eval vm_compute in (String.eqb s t) in
      match b with
      | true => change (String.eqb s t) with true
      | false => change (String.eqb s t) with false
      end
  end.

Ltac not_lower :=
  match goal with
  | H : Js.toLowerCase ?s = ?s |- _ =>
      let b := eval cbv in (String.eqb (Js.toLowerCase s) s) in
      match b with
      | false => exfalso; cbv in H; discriminate H
      end
  end.

Ltac by_arguments :=
  repeat first
    [ progress cbn [find existsb prefixOf argsPrefix rule_level fst snd andb orb
                    isAuto isBlocked]
    | match goal with
      | |- context [prefixLoop (_ :: _) ?a] => is_var a; destruct a
      end
    | progress cbn [prefixLoop]
    | match goal with
      | |- context [match ?a with [] => _ | _ :: _ => _ end] => is_var a; destruct a
      end
    | progress eval_closed_eqb
    | match goal with
      | H : List.Forall _ (_ :: _) |- _ => inversion_clear H
      end
    | match goal with
      | |- context [String.eqb ?s ?x] =>
          is_var x; destruct (String.eqb_spec s x); [subst x; try not_lower|]
      end
    | reflexivity ].

(** The levels by invocation, for lower-cased arguments. *)
Lemma levels_by_invocation (c : string) (a : list string) :
  allLower a ->
  isAuto (levelOf c a) = existsb (invokedByb c a) readOnlyInvocations
  /\ isBlocked (levelOf c a) = existsb (invokedByb c a) forbiddenInvocations.
Proof.
  intros Ha. unfold allLower in Ha. unfold levelOf. rewrite deciding_rule_by_command.
  destruct (In_dec string_dec c commandNames) as [Hc|Hc].
  - unfold invokedByb. rewrite !existsb_filter.
    unfold commandNames in Hc. cbn [In] in Hc.
    repeat (destruct Hc as [<-|Hc]; [
      match goal with |- context [List.filter ?f allRules] =>
        let l := eval vm_compute in (List.filter f allRules) in
        change (List.filter f allRules) with l end;
      match goal with |- context [List.filter ?f readOnlyInvocations] =>
        let l := eval vm_compute in (List.filter f readOnlyInvocations) in
        change (List.filter f readOnlyInvocations) with l end;
      match goal with |- context [List.filter ?f forbiddenInvocations] =>
        let l := eval vm_compute in (List.filter f forbiddenInvocations) in
        change (List.filter f forbiddenInvocations) with l end;
      split; by_arguments |]).
    destruct Hc.
  - rewrite (no_rule_for_other_commands c Hc). cbn [find isAuto isBlocked].
    rewrite !invocations_named; auto.
Qed.


(** X2.  A command runs without the user's approval exactly when, lower-cased,
    it is one of the read-only invocations: the command name is the
    invocation's and the arguments begin with the invocation's. *)
Theorem auto_exactly_for_read_only_invocations (cmd : string) (args : list string) :
  isContextOnlyCommand cmd args = true
  <-> Exists (invokedBy cmd args) readOnlyInvocations.
Proof.
  rewrite Exists_invokedBy. unfold isContextOnlyCommand. rewrite level_levelOf.
  destruct (levels_by_invocation (Js.toLowerCase cmd) (map Js.toLowerCase args)
              (allLower_map args)) as [H _].
  rewrite <- H. now destruct (levelOf _ _).
Qed.

(** X3.  A command is blocked exactly when, lower-cased, it is one of the
    forbidden invocations. *)
Theorem blocked_exactly_for_forbidden_invocations (cmd : string) (args : list string) :
  level (evaluateCommandPolicy cmd args) = blocked
  <-> Exists (invokedBy cmd args) forbiddenInvocations.
Proof.
  rewrite Exists_invokedBy, level_levelOf.
  destruct (levels_by_invocation (Js.toLowerCase cmd) (map Js.toLowerCase args)
              (allLower_map args)) as [_ H].
  rewrite <- H. destruct (levelOf _ _); cbn; split; congruence.
Qed.

(** X4.  kubectl, pwsh and powershell always need the user's approval,
    whatever their arguments: the rule for kubectl without arguments
    stands before the context rules kubectl get and kubectl describe, and
    the arguments -Command Get-Process of the rules for pwsh and
    powershell are never met by lower-cased arguments. *)
Theorem kubectl_and_powershell_always_need_approval (cmd : string) (args : list string) :
  In (Js.toLowerCase cmd) ["kubectl"; "pwsh"; "powershell"] ->
  level (evaluateCommandPolicy cmd args) = approval_required
  /\ category (evaluateCommandPolicy cmd args) = critical.
Proof.
  intros Hc. unfold evaluateCommandPolicy. rewrite deciding_rule_by_command.
  pose proof (allLower_map args) as Ha. unfold allLower in Ha.
  revert Ha. generalize (map Js.toLowerCase args) as a. intros a Ha.
  cbn [In] in Hc.
  repeat (destruct Hc as [<-|Hc]; [
    match goal with |- context [List.filter ?f allRules] =>
      let l := eval vm_compute in (List.filter f allRules) in
      change (List.filter f allRules) with l end;
    split; by_arguments |]).
  destruct Hc.
Qed.

Lemma kubectl_and_powershell_always_need_approval_witness :
  In (Js.toLowerCase "kubectl") ["kubectl"; "pwsh"; "powershell"]
  /\ level (evaluateCommandPolicy "kubectl" ["get"; "pods"]) = approval_required
  /\ category (evaluateCommandPolicy "kubectl" ["get"; "pods"]) = critical.
Proof.
  split; [left; reflexivity|].
  apply (kubectl_and_powershell_always_need_approval "kubectl" ["get"; "pods"]).
  left; reflexivity.
Defined.

Lemma prefixLoop_take (n : nat) (p a : list string) :
  (length p <= n)%nat -> prefixLoop p (take n a) = prefixLoop p a.
Proof.
  revert n a; induction p as [|x p IH]; intros n a H; [reflexivity|].
  destruct n as [|n]; [cbn in H; lia|].
  destruct a as [|y a]; [reflexivity|]. cbn.
  destruct (String.eqb x y); [apply IH; cbn in H; lia|reflexivity].
Qed.

Lemma prefixes_short : forallb (fun r => (length (prefixOf r) <=? 3)%nat) allRules = true.
Proof. vm_compute. reflexivity. Qed.

(** X5.  The decision depends on the command and its first three
    arguments only. *)
Theorem decision_reads_three_arguments (cmd : string) (args : list string) :
  evaluateCommandPolicy cmd args = evaluateCommandPolicy cmd (take 3 args).
Proof.
  unfold evaluateCommandPolicy.
  change (map Js.toLowerCase (take 3 args)) with (Js.toLowerCase <$> take 3 args).
  rewrite fmap_take. change (Js.toLowerCase <$> args) with (map Js.toLowerCase args).
  generalize (map Js.toLowerCase args) as a, (Js.toLowerCase cmd) as c. intros a c.
  rewrite (find_agree_in (fun r => matchesRule r c (take 3 a))
             (fun r => matchesRule r c a) allRules); [reflexivity|].
  intros r Hr. rewrite !matchesRule_eq, prefixLoop_take; [reflexivity|].
  pose proof prefixes_short as H. rewrite forallb_forall in H.
  apply Nat.leb_le, H, Hr.
Qed.

(** X6.  The decision does not depend on the letter case of the command
    and of its arguments. *)
Theorem decision_ignores_letter_case (cmd : string) (args : list string) :
  evaluateCommandPolicy (Js.toLowerCase cmd) (map Js.toLowerCase args)
  = evaluateCommandPolicy cmd args.
Proof.
  unfold evaluateCommandPolicy. now rewrite toLowerCase_idem, map_toLowerCase_idem.
Qed.

End PolicyCoverage.

(** ** The handler and the approval hook, for every request *)

Module ApprovalCoverage.
Import JsValue Scanner CommandPolicy Orchestrator ToolLoop UseChat.

(** X7.  For a call that is not a window capture, handleFunctionCall
    invokes the host only for an execute_command call whose arguments are
    strings and whose decision is auto, and then once, with the command
    and the arguments that were classified. *)
Theorem host_runs_exactly_the_auto_commands
    (executeCommand : string -> list string -> CommandResult + option string)
    (captureWindow : value -> FunctionResponse * list HostEvent)
    (requestId : string) (functionCall : FunctionCall) :
  name functionCall <> "capture_window_with_ocr" ->
  let callArgs := argsOrEmpty (args functionCall) in
  snd (handleFunctionCall executeCommand captureWindow requestId functionCall)
  = match asStrings (commandArgsOf callArgs) with
    | Some strs =>
        if String.eqb (name functionCall) "execute_command"
           && isContextOnlyCommand (commandOf callArgs) strs
        then [ExecuteCommand (commandOf callArgs) strs]
        else []
    | None => []
    end.
Proof.
  intros Hname. cbv zeta. unfold handleFunctionCall.
  destruct (Js.truthy (name functionCall)) eqn:Ht; cbn [negb].
  2:{ destruct (name functionCall); [|discriminate Ht].
      cbn. now destruct (asStrings _). }
  destruct (String.eqb_spec (name functionCall) "capture_window_with_ocr"); [contradiction|].
  destruct (String.eqb (name functionCall) "execute_command"); cbn [andb].
  2:{ now destruct (asStrings _). }
  unfold handleExecuteCommand, isContextOnlyCommand.
  destruct (asStrings _) as [strs|]; [|reflexivity].
  destruct (level (evaluateCommandPolicy _ strs)); try reflexivity.
  now destruct (executeCommand _ strs).
Qed.

Definition dockerPsCall : FunctionCall :=
  {| name := "execute_command";
     args := VObject [("command", VString "docker"); ("args", VArray [VString "ps"])] |}.

Lemma host_runs_exactly_the_auto_commands_witness :
  name dockerPsCall <> "capture_window_with_ocr"
  /\ snd (handleFunctionCall (fun _ _ => inr None)
            (fun _ => ({| fr_name := "capture_window_with_ocr";
                          response := failure "no window" |}, []))
            "cmd_1" dockerPsCall)
     = [ExecuteCommand "docker" ["ps"]].
Proof.
  split; [discriminate|].
  rewrite (host_runs_exactly_the_auto_commands (fun _ _ => inr None)
             (fun _ => ({| fr_name := "capture_window_with_ocr";
                           response := failure "no window" |}, []))
             "cmd_1" dockerPsCall); [|discriminate].
  vm_compute. reflexivity.
Defined.

(** X8.  The request handed to the application after an execute_command
    call carries the identifier of the handler, the command and the
    arguments that were classified and the classifier's decision for
    them; it is pending when the decision is approval_required, blocked
    when it is blocked, and there is no request for an auto decision. *)
Theorem request_carries_the_decision
    (executeCommand : string -> list string -> CommandResult + option string)
    (requestId generated : string) (now : Z) (callArgs : value) (strs : list string) :
  asStrings (commandArgsOf callArgs) = Some strs ->
  Js.truthy requestId = true ->
  let decision := evaluateCommandPolicy (commandOf callArgs) strs in
  commandRequestOf generated now
    (response (fst (handleExecuteCommand executeCommand requestId callArgs)))
  = match level decision with
    | auto => None
    | approval_required =>
        Some {| id := requestId; req_command := commandOf callArgs; req_args := strs;
                policy := decision; createdAt := now; status := pending;
                result := None; error := None |}
    | blocked =>
        Some {| id := requestId; req_command := commandOf callArgs; req_args := strs;
                policy := decision; createdAt := now; status := status_blocked;
                result := None; error := Some (reason decision) |}
    end.
Proof.
  intros Hargs Hid. cbv zeta. unfold handleExecuteCommand. rewrite Hargs.
  destruct (level (evaluateCommandPolicy (commandOf callArgs) strs)) eqn:E.
  - now destruct (executeCommand _ strs).
  - unfold commandRequestOf. cbn. rewrite Hid. now destruct (commandOf callArgs).
  - unfold commandRequestOf. cbn. rewrite Hid. now destruct (commandOf callArgs).
Qed.

Definition gitResetArgs : value :=
  VObject [("command", VString "git"); ("args", VArray [VString "reset"; VString "--hard"])].

Lemma request_carries_the_decision_witness :
  asStrings (commandArgsOf gitResetArgs) = Some ["reset"; "--hard"]
  /\ Js.truthy "cmd_7" = true
  /\ option_map (fun r => (id r, req_command r, req_args r, status r, level (policy r)))
       (commandRequestOf "cmd_8" 1700000000000
          (response (fst (handleExecuteCommand (fun _ _ => inr None) "cmd_7" gitResetArgs))))
     = Some ("cmd_7", "git", ["reset"; "--hard"], pending, approval_required).
Proof.
  split; [reflexivity|]. split; [reflexivity|].
  rewrite (request_carries_the_decision (fun _ _ => inr None) "cmd_7" "cmd_8"
             1700000000000 gitResetArgs ["reset"; "--hard"] eq_refl eq_refl).
  vm_compute. reflexivity.
Defined.

(** *** The pending list *)

Lemma id_setStatus (s : RequestStatus) (res : option CommandResult) (err : option string)
    (item : PendingCommandRequest) :
  id (setStatus s res err item) = id item.
Proof. reflexivity. Qed.

Lemma ids_map_same (f : PendingCommandRequest -> PendingCommandRequest)
    (st : list PendingCommandRequest) :
  (forall item, id (f item) = id item) -> map id (map f st) = map id st.
Proof.
  intros H. induction st as [|x st IH]; cbn; [reflexivity|]. now rewrite H, IH.
Qed.

Lemma ids_markExecuting (requestId : string) (st : list PendingCommandRequest) :
  map id (markExecuting requestId st) = map id st.
Proof. apply ids_map_same. intros item. now destruct (hasId requestId item). Qed.

Lemma ids_markExecuted (requestId : string) (outcome : CommandResult + option string)
    (st : list PendingCommandRequest) :
  map id (markExecuted requestId outcome st) = map id st.
Proof.
  apply ids_map_same. intros item.
  destruct (hasId requestId item); [|reflexivity]. now destruct outcome.
Qed.

Lemma ids_markDenied (requestId : string) (st : list PendingCommandRequest) :
  map id (markDenied requestId st) = map id st.
Proof. apply ids_map_same. intros item. now destruct (hasId requestId item). Qed.

Lemma ids_upsert (request : PendingCommandRequest) (st : list PendingCommandRequest) :
  map id (upsert request st)
  = if existsb (hasId (id request)) st then map id st else map id st ++ [id request].
Proof.
  induction st as [|x st IH]; cbn; [reflexivity|].
  destruct (hasId (id request) x) eqn:E; cbn.
  - unfold hasId in E. apply String.eqb_eq in E. now rewrite E.
  - rewrite IH. now destruct (existsb _ st).
Qed.

Lemma NoDup_ids_remove (requestId : string) (st : list PendingCommandRequest) :
  NoDup (map id st) -> NoDup (map id (remove requestId st)).
Proof.
  induction st as [|x st IH]; cbn; intros H; [exact H|].
  apply NoDup_cons in H as [Hx Hst].
  destruct (hasId requestId x); cbn; [auto|].
  apply NoDup_cons. split; [|auto]. intros Hin. apply Hx.
  apply list_elem_of_In, in_map_iff in Hin as (y & Hy & Hin).
  apply list_elem_of_In, in_map_iff. exists y. split; [exact Hy|].
  unfold remove in Hin. apply filter_In in Hin. tauto.
Qed.

Lemma NoDup_ids_upsert (request : PendingCommandRequest) (st : list PendingCommandRequest) :
  NoDup (map id st) -> NoDup (map id (upsert request st)).
Proof.
  intros H. rewrite ids_upsert.
  destruct (existsb (hasId (id request)) st) eqn:E; [exact H|].
  apply NoDup_app. split; [exact H|]. split; [|apply NoDup_singleton].
  intros x Hx Hx'. apply list_elem_of_singleton in Hx'. subst x.
  apply list_elem_of_In, in_map_iff in Hx as (y & Hy & Hin).
  assert (existsb (hasId (id request)) st = true); [|congruence].
  apply existsb_exists. exists y. split; [exact Hin|].
  unfold hasId. now apply String.eqb_eq.
Qed.

(** The marks of an approval or a denial touch the request they name
    only, and that request is removed at the end. *)
Lemma remove_after_marks (requestId : string)
    (f : PendingCommandRequest -> PendingCommandRequest) (st : list PendingCommandRequest) :
  (forall item, id (f item) = id item) ->
  remove requestId (map (fun item => if hasId requestId item then f item else item) st)
  = remove requestId st.
Proof.
  intros H.
  assert (Hh : forall item, hasId requestId (f item) = hasId requestId item)
    by (intros item; unfold hasId; now rewrite H).
  unfold remove. induction st as [|x st IH]; [reflexivity|].
  cbn [map List.filter]. destruct (hasId requestId x) eqn:E.
  - rewrite Hh, E. exact IH.
  - rewrite E. cbn [negb]. now rewrite IH.
Qed.

(** X9.  The identifiers of the pending list stay pairwise distinct under
    every update of the hook: a request notified, an approval, its
    completion, a denial, a removal, and the two callbacks run to their
    end. *)
Theorem request_ids_stay_distinct
    (executeCommand : string -> list string -> CommandResult + option string)
    (op : Op) (requestId : string) (st : list PendingCommandRequest) :
  NoDup (map id st) ->
  NoDup (map id (step op st))
  /\ NoDup (map id (fst (approveCommandRequest executeCommand requestId st)))
  /\ NoDup (map id (fst (denyCommandRequest requestId st))).
Proof.
  intros H. split; [|split].
  - destruct op as [generated now r|rid|rid outcome|rid|rid]; cbn [step].
    + destruct (commandRequestOf generated now r); [|exact H].
      now apply NoDup_ids_upsert.
    + destruct (approvable rid st); [|exact H]. now rewrite ids_markExecuting.
    + now rewrite ids_markExecuted.
    + destruct (deniable rid st); [|exact H]. now rewrite ids_markDenied.
    + now apply NoDup_ids_remove.
  - unfold approveCommandRequest. destruct (approvable requestId st); [|exact H].
    cbn [fst]. apply NoDup_ids_remove. now rewrite ids_markExecuted, ids_markExecuting.
  - unfold denyCommandRequest. destruct (deniable requestId st); [|exact H].
    cbn [fst]. apply NoDup_ids_remove. now rewrite ids_markDenied.
Qed.

Definition pendingRequest (requestId command : string) : PendingCommandRequest :=
  {| id := requestId; req_command := command; req_args := [];
     policy := evaluateCommandPolicy command [];
     createdAt := 1700000000000; status := pending; result := None; error := None |}.

Definition twoRequests : list PendingCommandRequest :=
  [pendingRequest "cmd_1" "apt"; pendingRequest "cmd_2" "brew"].

Lemma request_ids_stay_distinct_witness :
  NoDup (map id twoRequests)
  /\ NoDup (map id (step (Approve "cmd_1") twoRequests))
  /\ NoDup (map id (fst (approveCommandRequest (fun _ _ => inr None) "cmd_1" twoRequests)))
  /\ NoDup (map id (fst (denyCommandRequest "cmd_1" twoRequests))).
Proof.
  assert (Hdistinct : NoDup (map id twoRequests)).
  { cbn. apply NoDup_cons. split; [|apply NoDup_singleton].
    intros Hin. apply list_elem_of_In in Hin. destruct Hin as [E|[]]. discriminate E. }
  split; [exact Hdistinct|].
  exact (request_ids_stay_distinct (fun _ _ => inr None) (Approve "cmd_1") "cmd_1"
           twoRequests Hdistinct).
Defined.


Lemma find_remove_none (requestId : string) (st : list PendingCommandRequest) :
  find (hasId requestId) (remove requestId st) = None.
Proof.
  induction st as [|x st IH]; cbn; [reflexivity|].
  destruct (hasId requestId x) eqn:E; cbn; [exact IH|]. now rewrite E.
Qed.



End ApprovalCoverage.

(** ** The capture-analysis cache, for every window *)

Module CacheCoverage.
Import WindowAnalysis.

Lemma find_filter_found {B} (p q : B -> bool) (l : list B) (e : B) :
  find p l = Some e -> q e = true -> find p (List.filter q l) = Some e.
Proof.
  induction l as [|x l IH]; cbn; [discriminate|]. intros Hf Hq.
  destruct (p x) eqn:Hp.
  - injection Hf as ->. rewrite Hq. cbn. now rewrite Hp.
  - destruct (q x); cbn; [rewrite Hp|]; auto.
Qed.

Section Facts.
Variable A : Type.

Lemma cacheGet_cacheSet (key : string) (entry : CacheEntry A) (cache : Cache A) :
  cacheGet A key (cacheSet A key entry cache) = Some entry.
Proof.
  unfold cacheGet. induction cache as [|[k e] rest IH]; cbn.
  - now rewrite String.eqb_refl.
  - destruct (String.eqb k key) eqn:E; cbn; rewrite E; [reflexivity|exact IH].
Qed.

Lemma cacheGet_clean (now : Z) (key : string) (entry : CacheEntry A) (cache : Cache A) :
  cacheGet A key cache = Some entry ->
  (now - timestamp A entry <= CACHE_TTL)%Z ->
  cacheGet A key (cleanExpiredEntries A now cache) = Some entry.
Proof.
  unfold cacheGet, cleanExpiredEntries. intros Hg Hfresh.
  destruct (find _ cache) as [[k e]|] eqn:E; [|discriminate].
  cbn in Hg. injection Hg as ->.
  rewrite (find_filter_found _ _ _ _ E); [reflexivity|].
  cbn. apply negb_true_iff. rewrite Z.gtb_ltb. apply Z.ltb_ge. exact Hfresh.
Qed.

Lemma getCacheKey_hash (windowTitle processName imageHash laterHash : string) :
  take 16 laterHash = take 16 imageHash ->
  getCacheKey windowTitle processName laterHash
  = getCacheKey windowTitle processName imageHash.
Proof. unfold getCacheKey. now intros ->. Qed.

(** X12.  An analysis stored for a window that was not in the cache is
    the answer for the same window title, process and first sixteen
    characters of the image hash as long as its age stays below the TTL:
    the later call does not use what a fresh analysis would yield, and it
    leaves the cache as its purge left it. *)
Theorem stored_analysis_is_served_while_fresh
    (first later : Clock) (a : A) (performedLater : option A)
    (windowTitle processName imageHash laterHash : string) (cache : Cache A) :
  cacheGet A (getCacheKey windowTitle processName imageHash)
    (cleanExpiredEntries A (atClean first) cache) = None ->
  take 16 laterHash = take 16 imageHash ->
  (atClean later - atStore first <= CACHE_TTL)%Z ->
  (atLookup later - atStore first < CACHE_TTL)%Z ->
  let stored :=
    snd (analyzeWindowCapture A first (Some a) windowTitle processName imageHash cache) in
  analyzeWindowCapture A later performedLater windowTitle processName laterHash stored
  = (Some a, cleanExpiredEntries A (atClean later) stored).
Proof.
  intros Hmiss Hhash Hclean Hlookup. cbv zeta.
  set (key := getCacheKey windowTitle processName imageHash) in *.
  assert (Hs : snd (analyzeWindowCapture A first (Some a) windowTitle processName imageHash
                      cache)
               = cacheSet A key {| analysis := a; timestamp := atStore first |}
                   (evictIfNeeded A (atEvict first)
                      (cleanExpiredEntries A (atClean first) cache))).
  { unfold analyzeWindowCapture. fold key. now rewrite Hmiss. }
  rewrite Hs. set (stored := cacheSet A key _ _).
  unfold analyzeWindowCapture. rewrite (getCacheKey_hash _ _ _ _ Hhash). fold key.
  rewrite (cacheGet_clean (atClean later) key {| analysis := a; timestamp := atStore first |});
    [|apply cacheGet_cacheSet|exact Hclean].
  cbn [timestamp analysis]. apply Z.ltb_lt in Hlookup. now rewrite Hlookup.
Qed.

Lemma keys_cacheSet (key : string) (entry : CacheEntry A) (cache : Cache A) :
  map fst (cacheSet A key entry cache)
  = if existsb (fun e => String.eqb (fst e) key) cache
    then map fst cache else map fst cache ++ [key].
Proof.
  induction cache as [|[k e] rest IH]; cbn; [reflexivity|].
  destruct (String.eqb k key); cbn; [reflexivity|].
  rewrite IH. now destruct (existsb _ rest).
Qed.

Lemma NoDup_keys_filter (f : string * CacheEntry A -> bool) (cache : Cache A) :
  NoDup (map fst cache) -> NoDup (map fst (List.filter f cache)).
Proof.
  induction cache as [|x rest IH]; cbn; intros H; [exact H|].
  apply NoDup_cons in H as [Hx Hrest].
  destruct (f x); cbn; [|auto].
  apply NoDup_cons. split; [|auto]. intros Hin. apply Hx.
  apply list_elem_of_In, in_map_iff in Hin as (y & Hy & Hin).
  apply list_elem_of_In, in_map_iff. exists y. split; [exact Hy|].
  apply filter_In in Hin. tauto.
Qed.

Lemma NoDup_keys_cacheSet (key : string) (entry : CacheEntry A) (cache : Cache A) :
  NoDup (map fst cache) -> NoDup (map fst (cacheSet A key entry cache)).
Proof.
  intros H. rewrite keys_cacheSet.
  destruct (existsb _ cache) eqn:E; [exact H|].
  apply NoDup_app. split; [exact H|]. split; [|apply NoDup_singleton].
  intros x Hx Hx'. apply list_elem_of_singleton in Hx'. subst x.
  apply list_elem_of_In, in_map_iff in Hx as (y & Hy & Hin).
  assert (existsb (fun e => String.eqb (fst e) key) cache = true); [|congruence].
  apply existsb_exists. exists y. split; [exact Hin|]. now apply String.eqb_eq.
Qed.

Lemma NoDup_keys_evict (now : Z) (cache : Cache A) :
  NoDup (map fst cache) -> NoDup (map fst (evictIfNeeded A now cache)).
Proof.
  intros H. unfold evictIfNeeded.
  destruct (MAX_CACHE_SIZE <=? length cache)%nat; [|exact H].
  destruct (fst (findOldest A now cache)) as [k|]; [|exact H].
  destruct (Js.truthy k); [|exact H]. now apply NoDup_keys_filter.
Qed.


(** X14.  When the entry held for a window has reached the TTL at the
    lookup, purged or not, the call answers with what the fresh analysis
    yields; when there is one it takes the place of the old entry, with
    the time of the store. *)
Theorem stale_analysis_is_replaced (clock : Clock) (performed : option A)
    (windowTitle processName imageHash : string) (cache : Cache A) :
  (forall cached,
     cacheGet A (getCacheKey windowTitle processName imageHash)
       (cleanExpiredEntries A (atClean clock) cache) = Some cached ->
     (CACHE_TTL <= atLookup clock - timestamp A cached)%Z) ->
  let '(answer, after) :=
    analyzeWindowCapture A clock performed windowTitle processName imageHash cache in
  answer = performed
  /\ forall a, performed = Some a ->
       cacheGet A (getCacheKey windowTitle processName imageHash) after
       = Some {| analysis := a; timestamp := atStore clock |}.
Proof.
  intros H. unfold analyzeWindowCapture.
  assert (Hmiss : forall a, performed = Some a ->
            cacheGet A (getCacheKey windowTitle processName imageHash)
              (cacheSet A (getCacheKey windowTitle processName imageHash)
                 {| analysis := a; timestamp := atStore clock |}
                 (evictIfNeeded A (atEvict clock)
                    (cleanExpiredEntries A (atClean clock) cache)))
            = Some {| analysis := a; timestamp := atStore clock |})
    by (intros a _; apply cacheGet_cacheSet).
  destruct (cacheGet A _ (cleanExpiredEntries A (atClean clock) cache)) as [cached|].
  - specialize (H cached eq_refl). apply Z.ltb_ge in H. rewrite H.
    destruct performed as [a|]; (split; [reflexivity|]); [|discriminate].
    intros a' Ha. injection Ha as <-. now apply Hmiss.
  - destruct performed as [a|]; (split; [reflexivity|]); [|discriminate].
    intros a' Ha. injection Ha as <-. now apply Hmiss.
Qed.

Lemma getCacheKey_truthy (windowTitle processName imageHash : string) :
  Js.truthy (getCacheKey windowTitle processName imageHash) = true.
Proof. destruct windowTitle; reflexivity. Qed.

Lemma in_cacheSet (key : string) (entry : CacheEntry A) (cache : Cache A)
    (e : string * CacheEntry A) :
  In e (cacheSet A key entry cache) -> In e cache \/ e = (key, entry).
Proof.
  induction cache as [|[k old] rest IH]; cbn.
  - intros [<-|[]]. now right.
  - destruct (String.eqb_spec k key) as [->|_]; cbn.
    + intros [<-|Hin]; [now right|left; now right].
    + intros [<-|Hin]; [left; now left|]. destruct (IH Hin); [left; now right|now right].
Qed.

Lemma in_evict (now : Z) (cache : Cache A) (e : string * CacheEntry A) :
  In e (evictIfNeeded A now cache) -> In e cache.
Proof.
  unfold evictIfNeeded. destruct (MAX_CACHE_SIZE <=? length cache)%nat; [|auto].
  destruct (fst (findOldest A now cache)) as [k|]; [|auto].
  destruct (Js.truthy k); [|auto]. unfold cacheDelete. intros H. apply filter_In in H. tauto.
Qed.

(** The entries after a capture: entries held before, or the one
    stored. *)
Lemma entries_after_capture (clock : Clock) (performed : option A)
    (windowTitle processName imageHash : string) (cache : Cache A)
    (e : string * CacheEntry A) :
  In e (snd (analyzeWindowCapture A clock performed windowTitle processName imageHash cache)) ->
  In e cache
  \/ (Js.truthy (fst e) = true /\ timestamp A (snd e) = atStore clock).
Proof.
  unfold analyzeWindowCapture.
  assert (Hc : forall x, In x (cleanExpiredEntries A (atClean clock) cache) -> In x cache)
    by (intros x Hx; apply filter_In in Hx; tauto).
  assert (Hm : In e (snd match performed with
                         | Some a =>
                             (Some a,
                              cacheSet A (getCacheKey windowTitle processName imageHash)
                                {| analysis := a; timestamp := atStore clock |}
                                (evictIfNeeded A (atEvict clock)
                                   (cleanExpiredEntries A (atClean clock) cache)))
                         | None =>
                             (None,
                              evictIfNeeded A (atEvict clock)
                                (cleanExpiredEntries A (atClean clock) cache))
                         end) ->
               In e cache
               \/ (Js.truthy (fst e) = true /\ timestamp A (snd e) = atStore clock)).
  { destruct performed as [a|]; cbn [snd]; intros Hin.
    - apply in_cacheSet in Hin as [Hin| ->].
      + left. now apply in_evict, Hc in Hin.
      + right. split; [apply getCacheKey_truthy|reflexivity].
    - left. now apply in_evict, Hc in Hin. }
  destruct (cacheGet A _ _) as [cached|]; [|exact Hm].
  destruct (_ <? _)%Z; [|exact Hm]. cbn [snd]. intros Hin. left. now apply Hc.
Qed.


End Facts.

Definition oneEntry : Cache string :=
  [(getCacheKey "inbox" "chrome" "9f86d081884c7d65",
    {| analysis := "a mail client"; timestamp := 1700000000000 |})].

Definition clockAt (now : Z) : Clock :=
  {| atClean := now; atLookup := now; atEvict := now; atStore := now |}.

Lemma stored_analysis_is_served_while_fresh_witness :
  analyzeWindowCapture string (clockAt 1700000060000) None "docs" "chrome"
    "0123456789abcdefXYZ"
    (snd (analyzeWindowCapture string (clockAt 1700000000000) (Some "a text editor")
            "docs" "chrome" "0123456789abcdef0000" oneEntry))
  = (Some "a text editor",
     cleanExpiredEntries string 1700000060000
       (snd (analyzeWindowCapture string (clockAt 1700000000000) (Some "a text editor")
               "docs" "chrome" "0123456789abcdef0000" oneEntry))).
Proof.
  apply (stored_analysis_is_served_while_fresh string (clockAt 1700000000000)
           (clockAt 1700000060000) "a text editor" None "docs" "chrome"
           "0123456789abcdef0000" "0123456789abcdefXYZ" oneEntry).
  - vm_compute. reflexivity.
  - vm_compute. reflexivity.
  - vm_compute. discriminate.
  - vm_compute. reflexivity.
Defined.


Definition laterClock : Clock :=
  {| atClean := 1700000100000; atLookup := 1700000600000;
     atEvict := 1700000600000; atStore := 1700000600001 |}.

Lemma stale_analysis_is_replaced_witness :
  (forall cached,
     cacheGet string (getCacheKey "inbox" "chrome" "9f86d081884c7d65")
       (cleanExpiredEntries string (atClean laterClock) oneEntry) = Some cached ->
     (CACHE_TTL <= atLookup laterClock - timestamp string cached)%Z)
  /\ let '(answer, after) :=
       analyzeWindowCapture string laterClock (Some "a calendar") "inbox" "chrome"
         "9f86d081884c7d65" oneEntry in
     answer = Some "a calendar"
     /\ forall a, Some "a calendar" = Some a ->
          cacheGet string (getCacheKey "inbox" "chrome" "9f86d081884c7d65") after
          = Some {| analysis := a; timestamp := atStore laterClock |}.
Proof.
  assert (Hstale : forall cached,
     cacheGet string (getCacheKey "inbox" "chrome" "9f86d081884c7d65")
       (cleanExpiredEntries string (atClean laterClock) oneEntry) = Some cached ->
     (CACHE_TTL <= atLookup laterClock - timestamp string cached)%Z).
  { intros cached Hc. vm_compute in Hc. injection Hc as <-. vm_compute. discriminate. }
  split; [exact Hstale|].
  exact (stale_analysis_is_replaced string laterClock (Some "a calendar") "inbox" "chrome"
           "9f86d081884c7d65" oneEntry Hstale).
Defined.

Definition threeCaptures : list (Capture string) :=
  [CacheFacts.captureAt 0 1700000000000; CacheFacts.captureAt 1 1700000001000;
   CacheFacts.captureAt 2 1700000002000].


End CacheCoverage.

(** ** Window selection: what can be resolved *)

Module SelectionCoverage.
Import WindowSelection SelectionCache.

Lemma firstOrdinalWord_bound (lower : string) (total : N) (words : list (string * N))
    (i : nat) :
  firstOrdinalWord lower total words = Some i -> (i < N.to_nat total)%nat.
Proof.
  induction words as [|[word value] rest IH]; cbn; [discriminate|].
  destruct (Js.includes lower word && inRange value total) eqn:E; [|exact IH].
  apply andb_prop in E as [_ E]. unfold inRange in E.
  apply andb_prop in E as [E1 E2]. apply N.leb_le in E1, E2.
  intros [= <-]. lia.
Qed.

(** X16.  The index extractRequestedIndex returns is an index of the
    list: it is below the number of options it is given. *)
Theorem requested_index_is_in_range (input : string) (total i : nat) :
  extractRequestedIndex input total = Some i -> (i < total)%nat.
Proof.
  unfold extractRequestedIndex. intros H.
  assert (Hw : forall j,
            firstOrdinalWord (Js.toLowerCase input) (N.of_nat total) ORDINAL_WORDS = Some j ->
            (j < total)%nat).
  { intros j Hj. apply firstOrdinalWord_bound in Hj. lia. }
  destruct (matchDigits input) as [digits|]; [|auto].
  destruct (inRange (parseInt digits) (N.of_nat total)) eqn:E; [|auto].
  unfold inRange in E. apply andb_prop in E as [E1 E2]. apply N.leb_le in E1, E2.
  injection H as <-. lia.
Qed.

Lemma requested_index_is_in_range_witness :
  extractRequestedIndex "the 2nd or the third" 3 = Some 2%nat /\ (2 < 3)%nat.
Proof.
  assert (H : extractRequestedIndex "the 2nd or the third" 3 = Some 2%nat)
    by (vm_compute; reflexivity).
  split; [exact H|].
  exact (requested_index_is_in_range "the 2nd or the third" 3 2 H).
Defined.

Lemma bestScored_listed (normalizedRequested : string) (tokens : list string)
    (options : list WindowSelectionOption) (o : WindowSelectionOption) :
  fst (bestScored normalizedRequested tokens options) = Some o -> In o options.
Proof.
  unfold bestScored.
  assert (H : forall acc,
            fst (fold_left
                   (fun '(bestOption, bestScore) option =>
                      let score := scoreOption normalizedRequested tokens option in
                      if (bestScore <? score)%nat then (Some option, score)
                      else (bestOption, bestScore))
                   options acc) = Some o ->
            fst acc = Some o \/ In o options).
  { induction options as [|x rest IH]; intros [b s]; cbn [fold_left]; [now left|].
    cbv zeta. intros E. apply IH in E as [E|E]; [|right; now right].
    destruct (s <? scoreOption normalizedRequested tokens x)%nat; cbn [fst] in E.
    - injection E as ->. right. now left.
    - now left. }
  intros E. apply H in E as [E|E]; [discriminate E|exact E].
Qed.

Lemma matchStages_listed (processName : string) (options : list WindowSelectionOption)
    (cleaned : string) (sel : Selection) :
  matchStages processName options cleaned = Some sel ->
  exists o, In o options /\ sel = select processName o.
Proof.
  unfold matchStages. cbv zeta.
  do 3 (match goal with
        | |- match find ?f options with _ => _ end = _ -> _ =>
            let E := fresh "E" in
            destruct (find f options) as [o|] eqn:E;
            [intros E'; injection E' as <-; exists o; apply find_some in E; tauto|]
        end).
  destruct (bestScored _ _ options) as [[o|] score] eqn:E4; [|discriminate].
  destruct (15 <=? score)%nat; [|discriminate].
  intros E'. injection E' as <-. exists o. split; [|reflexivity].
  apply (bestScored_listed (normalizeWindowText cleaned)
           (tokensOf (normalizeWindowText cleaned))). now rewrite E4.
Qed.

Lemma resolved_from_options (processName : string) (options : list WindowSelectionOption)
    (requested : string) (sel : Selection) :
  resolveWindowSelectionFromOptions processName options requested = Some sel ->
  exists o, In o options /\ sel = select processName o.
Proof.
  unfold resolveWindowSelectionFromOptions.
  destruct (negb (Js.truthy requested)); [discriminate|].
  destruct (negb (Js.truthy _)); [discriminate|].
  destruct (extractRequestedIndex _ _) as [i|]; [|apply matchStages_listed].
  destruct (options !! i) as [o|] eqn:E; [|apply matchStages_listed].
  intros E'. injection E' as <-. exists o. split; [|reflexivity].
  apply list_elem_of_In. now apply list_elem_of_lookup_2 in E.
Qed.

(** X17.  resolveWindowSelectionFromOptions answers with an option of the
    list it is given, under the process name it is given: the title and
    the display name of the answer are those of one listed window. *)
Theorem resolved_window_is_a_listed_option (processName : string)
    (options : list WindowSelectionOption) (requested : string) (sel : Selection) :
  resolveWindowSelectionFromOptions processName options requested = Some sel ->
  exists o, In o options
            /\ sel_title sel = title o
            /\ sel_displayName sel = displayName o
            /\ sel_processName sel = processName.
Proof.
  intros H. apply resolved_from_options in H as (o & Hin & ->).
  exists o. now repeat split.
Qed.

Definition editorWindow : WindowSelectionOption :=
  {| title := "main.py - demo - Visual Studio Code"; displayName := "Visual Studio Code";
     processName := "Code"; isActive := true |}.
Definition notesWindow : WindowSelectionOption :=
  {| title := "notes.md - demo - Visual Studio Code"; displayName := "Visual Studio Code";
     processName := "Code"; isActive := false |}.

Lemma resolved_window_is_a_listed_option_witness :
  resolveWindowSelectionFromOptions "code" [editorWindow; notesWindow] "notes.md"
  = Some (select "code" notesWindow)
  /\ exists o, In o [editorWindow; notesWindow]
               /\ sel_title (select "code" notesWindow) = title o
               /\ sel_displayName (select "code" notesWindow) = displayName o
               /\ sel_processName (select "code" notesWindow) = "code".
Proof.
  assert (H : resolveWindowSelectionFromOptions "code" [editorWindow; notesWindow] "notes.md"
              = Some (select "code" notesWindow))
    by (vm_compute; reflexivity).
  split; [exact H|].
  exact (resolved_window_is_a_listed_option "code" [editorWindow; notesWindow] "notes.md"
           (select "code" notesWindow) H).
Defined.

(** *** The selection cache *)

Lemma mapGet_mapSet (key : string) (v : CachedWindowSelection) (m : SelectionMap) :
  mapGet key (mapSet key v m) = Some v.
Proof.
  unfold mapGet. induction m as [|[k old] rest IH]; cbn.
  - now rewrite String.eqb_refl.
  - destruct (String.eqb k key) eqn:E; cbn; rewrite E; [reflexivity|exact IH].
Qed.

Lemma mapGet_mapDelete (key : string) (m : SelectionMap) :
  mapGet key (mapDelete key m) = None.
Proof.
  unfold mapGet, mapDelete. induction m as [|[k v] rest IH]; cbn; [reflexivity|].
  destruct (String.eqb k key) eqn:E; cbn; [exact IH|]. now rewrite E.
Qed.

Lemma mapGet_listed (key : string) (m : SelectionMap) (cached : CachedWindowSelection) :
  mapGet key m = Some cached -> In (key, cached) m.
Proof.
  unfold mapGet. destruct (find _ m) as [[k v]|] eqn:E; [|discriminate].
  intros [= <-]. apply find_some in E as [Hin E]. cbn in E.
  apply String.eqb_eq in E. now subst k.
Qed.

(** X18.  Options cached under a process name are returned for every
    spelling of the name that differs in letter case or surrounding white
    space only, as long as they are at most two minutes old; after that
    the read returns nothing and removes the entry.  A name that is blank
    is not cached. *)
Theorem cached_options_are_served_for_two_minutes (now later : Z)
    (processName spelling : string) (opts : list WindowSelectionOption) (m : SelectionMap) :
  keyOf spelling = keyOf processName ->
  let cached := cacheWindowOptions now processName opts m in
  (if Js.truthy (keyOf processName)
   then getCachedWindowOptions later spelling cached
        = (if (later - now >? WINDOW_SELECTION_TTL)%Z
           then (None, mapDelete (keyOf processName) cached)
           else (Some opts, cached))
   else cached = m)
  /\ mapGet (keyOf processName) (mapDelete (keyOf processName) cached) = None.
Proof.
  intros Hkey. cbv zeta. split; [|apply mapGet_mapDelete].
  unfold cacheWindowOptions, getCachedWindowOptions. rewrite Hkey.
  destruct (Js.truthy (keyOf processName)); cbn [negb]; [|reflexivity].
  rewrite mapGet_mapSet. cbn [timestamp options]. reflexivity.
Qed.

Lemma cached_options_are_served_for_two_minutes_witness :
  keyOf "  Chrome " = keyOf "chrome"
  /\ getCachedWindowOptions 1700000120000 "  Chrome "
       (cacheWindowOptions 1700000000000 "chrome" [editorWindow] [])
     = (Some [editorWindow], cacheWindowOptions 1700000000000 "chrome" [editorWindow] [])
  /\ fst (getCachedWindowOptions 1700000120001 "  Chrome "
            (cacheWindowOptions 1700000000000 "chrome" [editorWindow] []))
     = None.
Proof.
  assert (Hkey : keyOf "  Chrome " = keyOf "chrome") by (vm_compute; reflexivity).
  split; [exact Hkey|].
  destruct (cached_options_are_served_for_two_minutes 1700000000000 1700000120000
              "chrome" "  Chrome " [editorWindow] [] Hkey) as [H1 _].
  destruct (cached_options_are_served_for_two_minutes 1700000000000 1700000120001
              "chrome" "  Chrome " [editorWindow] [] Hkey) as [H2 _].
  change (Js.truthy (keyOf "chrome")) with true in H1, H2. cbv iota in H1, H2.
  split; [rewrite H1|rewrite H2]; vm_compute; reflexivity.
Defined.

Lemma sweepFrom_live (clock : nat -> Z) (m : SelectionMap) :
  forall k key opts,
    In (key, opts) (fst (sweepFrom clock k m)) ->
    exists cached j,
      In (key, cached) m /\ opts = options cached
      /\ (clock j - timestamp cached <= WINDOW_SELECTION_TTL)%Z.
Proof.
  induction m as [|[k0 c0] rest IH]; intros k key opts; cbn; [intros []|].
  destruct (sweepFrom clock (S k) rest) as [entries kept] eqn:E.
  specialize (IH (S k) key opts). rewrite E in IH. cbn [fst] in IH.
  destruct (Z.leb_spec (clock k - timestamp c0) WINDOW_SELECTION_TTL) as [Hle|_]; cbn [fst].
  - intros [[= <- <-]|Hin].
    + exists c0, k. split; [now left|]. split; [reflexivity|exact Hle].
    + destruct (IH Hin) as (cached & j & H1 & H2 & H3).
      exists cached, j. split; [now right|]. now split.
  - intros Hin. destruct (IH Hin) as (cached & j & H1 & H2 & H3).
    exists cached, j. split; [now right|]. now split.
Qed.

Lemma bestAcross_resolved (requested : string)
    (allOptions : list (string * list WindowSelectionOption)) (sel : Selection) :
  fst (bestAcross requested allOptions) = Some sel ->
  exists entry,
    In entry allOptions
    /\ resolveWindowSelectionFromOptions (fst entry) (snd entry) requested = Some sel.
Proof.
  unfold bestAcross.
  assert (H : forall acc,
            fst (fold_left
                   (fun '(bestMatch, bestScore) entry =>
                      match resolveWindowSelectionFromOptions (fst entry) (snd entry)
                              requested with
                      | Some resolved =>
                          let score := crossScore requested resolved in
                          if (bestScore <? score)%nat then (Some resolved, score)
                          else (bestMatch, bestScore)
                      | None => (bestMatch, bestScore)
                      end)
                   allOptions acc) = Some sel ->
            fst acc = Some sel
            \/ exists entry,
                 In entry allOptions
                 /\ resolveWindowSelectionFromOptions (fst entry) (snd entry) requested
                    = Some sel).
  { induction allOptions as [|x rest IH]; intros [b s]; cbn [fold_left]; [now left|].
    intros E. apply IH in E as [E|(entry & Hin & E)].
    2:{ right. exists entry. split; [now right|exact E]. }
    destruct (resolveWindowSelectionFromOptions (fst x) (snd x) requested)
      as [resolved|] eqn:R; [|now left].
    cbv zeta in E. destruct (s <? crossScore requested resolved)%nat; cbn [fst] in E.
    - injection E as ->. right. exists x. split; [now left|exact R].
    - now left. }
  intros E. apply H in E as [E|E]; [discriminate E|exact E].
Qed.

Lemma mapDelete_listed (key : string) (m : SelectionMap) (e : string * CachedWindowSelection) :
  In e (mapDelete key m) -> In e m.
Proof. unfold mapDelete. intros H. apply filter_In in H. tauto. Qed.

(** X19.  A window resolved by resolveWindowSelection is one that was
    enumerated: its title and display name are those of an option of a
    cached entry, and that entry was at most two minutes old when the
    call read the clock for it. *)
Theorem resolved_window_was_enumerated (clock : Clock) (processName : option string)
    (requested : string) (m m' : SelectionMap) (sel : Selection) :
  resolveWindowSelection clock processName requested m = (Some sel, m') ->
  exists key cached o,
    In (key, cached) m /\ In o (options cached)
    /\ sel_title sel = title o /\ sel_displayName sel = displayName o
    /\ ((atScoped clock - timestamp cached <= WINDOW_SELECTION_TTL)%Z
        \/ exists k, (atSweep clock k - timestamp cached <= WINDOW_SELECTION_TTL)%Z).
Proof.
  unfold resolveWindowSelection.
  destruct (negb (Js.truthy requested)); [discriminate|].
  destruct (scopedOptions clock processName m) as [scoped m1] eqn:Es.
  assert (Hm1 : forall e, In e m1 -> In e m).
  { unfold scopedOptions in Es. destruct processName as [p|]; [|now injection Es as _ <-].
    destruct (Js.truthy p); [|now injection Es as _ <-].
    unfold getCachedWindowOptions in Es. destruct (mapGet (keyOf p) m); [|now injection Es as _ <-].
    destruct (_ >? _)%Z; injection Es as _ <-; [apply mapDelete_listed|auto]. }
  assert (Hscoped : forall p opts,
            processName = Some p -> scoped = Some opts ->
            exists cached,
              In (keyOf p, cached) m /\ opts = options cached
              /\ (atScoped clock - timestamp cached <= WINDOW_SELECTION_TTL)%Z).
  { intros p opts -> ->. unfold scopedOptions in Es.
    destruct (Js.truthy p); [|discriminate Es].
    unfold getCachedWindowOptions in Es.
    destruct (mapGet (keyOf p) m) as [cached|] eqn:G; [|discriminate Es].
    destruct (Z.gtb_spec (atScoped clock - timestamp cached) WINDOW_SELECTION_TTL);
      [discriminate Es|].
    injection Es as <- _. exists cached. split; [now apply mapGet_listed|]. split; [reflexivity|lia]. }
  set (resolvedInProcess :=
         match processName, scoped with
         | Some p, Some opts =>
             if (0 <? length opts)%nat then resolveWindowSelectionFromOptions p opts requested
             else None
         | _, _ => None
         end).
  destruct resolvedInProcess as [resolved|] eqn:R.
  - intros [= -> <-]. subst resolvedInProcess.
    destruct processName as [p|]; [|discriminate R].
    destruct scoped as [opts|]; [|discriminate R].
    destruct (0 <? length opts)%nat; [|discriminate R].
    destruct (Hscoped p opts eq_refl eq_refl) as (cached & Hin & -> & Hfresh).
    apply resolved_from_options in R as (o & Ho & ->).
    exists (keyOf p), cached, o. repeat split; auto.
  - destruct (getAllCachedWindowOptions (atSweep clock) m1) as [allOptions m2] eqn:Ea.
    intros [= E <-]. apply bestAcross_resolved in E as ([key opts] & Hin & E).
    cbn [fst snd] in E. apply resolved_from_options in E as (o & Ho & ->).
    unfold getAllCachedWindowOptions in Ea.
    pose proof (sweepFrom_live (atSweep clock) m1 0 key opts) as Hl.
    rewrite Ea in Hl. destruct (Hl Hin) as (cached & j & H1 & -> & H3).
    exists key, cached, o. repeat split; eauto.
Qed.

Definition twoProcesses : SelectionMap :=
  cacheWindowOptions 1700000000000 "Code" [editorWindow; notesWindow]
    (cacheWindowOptions 1699999990000 "chrome" [SelectionFacts.chromeDocs] []).

Definition steady (now : Z) : Clock := {| atScoped := now; atSweep := fun _ => now |}.

Lemma resolved_window_was_enumerated_witness :
  resolveWindowSelection (steady 1700000060000) (Some "code") "docs" twoProcesses
  = (Some (select "chrome" SelectionFacts.chromeDocs), twoProcesses)
  /\ exists key cached o,
       In (key, cached) twoProcesses /\ In o (options cached)
       /\ sel_title (select "chrome" SelectionFacts.chromeDocs) = title o
       /\ sel_displayName (select "chrome" SelectionFacts.chromeDocs) = displayName o
       /\ ((atScoped (steady 1700000060000) - timestamp cached <= WINDOW_SELECTION_TTL)%Z
           \/ exists k, (atSweep (steady 1700000060000) k - timestamp cached
                         <= WINDOW_SELECTION_TTL)%Z).
Proof.
  assert (H : resolveWindowSelection (steady 1700000060000) (Some "code") "docs" twoProcesses
              = (Some (select "chrome" SelectionFacts.chromeDocs), twoProcesses))
    by (vm_compute; reflexivity).
  split; [exact H|].
  exact (resolved_window_was_enumerated (steady 1700000060000) (Some "code") "docs"
           twoProcesses twoProcesses (select "chrome" SelectionFacts.chromeDocs) H).
Defined.

End SelectionCoverage.

(** ** The capture case: what is shown and what is captured *)

Module CaptureCoverage.
Import WindowSelection SelectionCache JsString CaptureCase.
Import Orchestrator (orElse).

(** *** The pieces of a split *)

Lemma splitFrom_nonempty (sep : string) (s : string) :
  forall skip, splitFrom sep skip s <> [].
Proof.
  induction s as [|c r IH]; intros skip; cbn; [discriminate|].
  destruct skip as [|k]; [|apply IH].
  destruct (Js.startsWith (String c r) sep); [discriminate|].
  destruct (splitFrom sep 0 r); discriminate.
Qed.

Lemma startsWith_app (first rest q : string) :
  Js.startsWith first q = true -> Js.startsWith (first +:+ rest) q = true.
Proof.
  revert first; induction q as [|a q IH]; intros first; [reflexivity|].
  destruct first as [|b first]; cbn; [discriminate|].
  rewrite RegexFacts.app_cons. cbn. destruct (Ascii.eqb a b); [apply IH|discriminate].
Qed.

(** The first piece is what stands before the first occurrence. *)
Lemma first_piece_prefix (sep : string) (s : string) :
  exists rest, s = List.hd EmptyString (splitFrom sep 0 s) +:+ rest.
Proof.
  induction s as [|c r [rest IH]]; cbn.
  - exists EmptyString. reflexivity.
  - destruct (Js.startsWith (String c r) sep); cbn.
    + exists (String c r). reflexivity.
    + destruct (splitFrom sep 0 r) as [|first others]; cbn in *.
      * exists r. reflexivity.
      * exists rest. rewrite RegexFacts.app_cons. now rewrite <- IH.
Qed.

Lemma pieces_without_separator (sep : string) :
  Js.truthy sep = true ->
  forall s skip, List.Forall (fun p => Js.includes p sep = false) (splitFrom sep skip s).
Proof.
  intros Hsep. induction s as [|c r IH]; intros skip.
  - constructor; [|constructor]. cbn. destruct sep; [discriminate Hsep|reflexivity].
  - destruct skip as [|k]; [|apply IH]. cbn [splitFrom].
    destruct (Js.startsWith (String c r) sep) eqn:E.
    + constructor; [|apply IH]. cbn. destruct sep; [discriminate Hsep|reflexivity].
    + pose proof (IH 0%nat) as Hr. pose proof (first_piece_prefix sep r) as [rest Hp].
      pose proof (splitFrom_nonempty sep r 0) as Hn.
      destruct (splitFrom sep 0 r) as [|first others]; [contradiction|].
      inversion_clear Hr as [|? ? Hfirst Hothers]. constructor; [|exact Hothers].
      cbn [Js.includes]. rewrite Hfirst, orb_false_r.
      apply not_true_is_false. intros Hs. cbn [List.hd] in Hp.
      assert (Js.startsWith (String c r) sep = true); [|congruence].
      rewrite Hp, <- RegexFacts.app_cons. now apply startsWith_app.
Qed.

Lemma single_piece (sep : string) (s p : string) :
  splitFrom sep 0 s = [p] -> p = s.
Proof.
  revert p; induction s as [|c r IH]; intros p; cbn; [congruence|].
  destruct (Js.startsWith (String c r) sep).
  - intros H. injection H as _ H. now apply splitFrom_nonempty in H.
  - pose proof (splitFrom_nonempty sep r 0) as Hn.
    destruct (splitFrom sep 0 r) as [|first others] eqn:E; [contradiction|].
    intros H. injection H as H1 H2. subst others p. now rewrite (IH first eq_refl).
Qed.

Lemma last_listed {B} (l : list B) (d : B) : l <> [] -> In (List.last l d) l.
Proof.
  induction l as [|x [|y l] IH]; intros H; [contradiction|now left|].
  right. apply IH. discriminate.
Qed.

(** X20.  The display name of a window holds no [" - "]: it is the part
    of the title after the last separator, the process suffix apart. *)
Theorem display_name_has_no_separator (w : WindowInfo) :
  Js.includes (displayName (optionOf w)) " - " = false.
Proof.
  cbn [optionOf displayName]. unfold displayNameOf.
  set (cleaned := if endsWith _ _ then _ else _).
  pose proof (pieces_without_separator " - " eq_refl cleaned 0) as Hp.
  pose proof (splitFrom_nonempty " - " cleaned 0) as Hn.
  unfold split. destruct (splitFrom " - " 0 cleaned) as [|p [|q rest]] eqn:E; [contradiction| |].
  - cbn [length Nat.ltb Nat.leb]. apply single_piece in E. subst p.
    now inversion_clear Hp.
  - cbn [length Nat.ltb Nat.leb]. rewrite List.Forall_forall in Hp. apply Hp.
    apply (last_listed (p :: q :: rest)). discriminate.
Qed.


(** *** What the case captures *)

Lemma keyOf_truthy (p : string) : Js.truthy (keyOf p) = true -> Js.truthy p = true.
Proof. destruct p; [discriminate|reflexivity]. Qed.

Lemma firstOrdinalWord_includes (lower : string) (total : N) (words : list (string * N))
    (j : nat) :
  firstOrdinalWord lower total words = Some j ->
  exists word v, In (word, v) words /\ Js.includes lower word = true.
Proof.
  induction words as [|[word v] rest IH]; cbn; [discriminate|].
  destruct (Js.includes lower word) eqn:E; cbn [andb].
  - intros _. exists word, v. split; [now left|exact E].
  - intros H. destruct (IH H) as (w & u & Hin & Hw). exists w, u. split; [now right|exact Hw].
Qed.

(** A request that names an index is not empty. *)
Lemma index_request_truthy (s : string) (total k : nat) :
  extractRequestedIndex s total = Some k -> Js.truthy s = true.
Proof.
  unfold extractRequestedIndex. intros H.
  destruct (matchDigits s) as [digits|] eqn:D.
  - now apply SelectionFacts.matchDigits_nonempty in D.
  - apply firstOrdinalWord_includes in H as (word & v & Hin & Hw).
    rewrite <- SelectionFacts.toLowerCase_truthy.
    apply (SelectionFacts.includes_nonempty _ word); [|exact Hw].
    now apply (SelectionFacts.ordinal_words_truthy word v).
Qed.

Lemma single_option_resolves (p t : string) (o : WindowSelectionOption) :
  Js.truthy t = true -> removeQuotes t = t -> Js.trim t = t -> title o = t ->
  resolveWindowSelectionFromOptions p [o] t = Some (select p o).
Proof.
  intros Ht Hq Htrim Ho. unfold resolveWindowSelectionFromOptions.
  rewrite Ht, Hq, Htrim, Ht. cbn [negb].
  assert (Hm : matchStages p [o] t = Some (select p o)).
  { unfold matchStages. cbn [find]. unfold sameIgnoringCase.
    now rewrite Ho, String.eqb_refl. }
  destruct (extractRequestedIndex t (length [o])) as [[|i]|]; [reflexivity|exact Hm|exact Hm].
Qed.

Lemma indexed_option_resolves (p answer : string) (opts : list WindowSelectionOption)
    (k : nat) (o : WindowSelectionOption) :
  extractRequestedIndex (Js.trim (removeQuotes answer)) (length opts) = Some k ->
  opts !! k = Some o ->
  resolveWindowSelectionFromOptions p opts answer = Some (select p o).
Proof.
  intros Hk Ho. unfold resolveWindowSelectionFromOptions.
  pose proof (index_request_truthy _ _ _ Hk) as Hc.
  rewrite (SelectionFacts.cleaned_truthy_requested _ Hc), Hc. cbn [negb].
  now rewrite Hk, Ho.
Qed.

Section Case.

Variable WindowAnalysis : Type.
Variable listWindowsByProcess : string -> list WindowInfo + option string.
Variable listWindowsAgain : string -> list WindowInfo + option string.
Variable captureWindowWithOCR :
  option string -> option string -> WindowCaptureResult WindowAnalysis + option string.

Definition isCapture (e : HostCall) : bool :=
  match e with CaptureWindow _ _ => true | _ => false end.

Definition captures (events : list HostCall) : list HostCall := List.filter isCapture events.

(** What the events of an outcome say about captures, by response. *)
Definition capturedAsAnswered (outcome : Outcome WindowAnalysis) : Prop :=
  let '(resp, events, _) := outcome in
  match resp with
  | Captured _ _ _ _ _ _ => exists p t, captures events = [CaptureWindow p t]
  | NoWindows _ _ | ChooseWindow _ _ _ => captures events = []
  | Failed _ _ => (length (captures events) <= 1)%nat
  end.

Lemma captures_app (a b : list HostCall) : captures (a ++ b) = captures a ++ captures b.
Proof. apply List.filter_app. Qed.

Lemma proceed_answered (args : CaptureArgs) (events : list HostCall) (m : SelectionMap) :
  captures events = [] ->
  capturedAsAnswered
    (proceedWithCapture WindowAnalysis captureWindowWithOCR args events m).
Proof.
  intros H. unfold proceedWithCapture, caught, capturedAsAnswered.
  destruct (captureWindowWithOCR _ _); rewrite !captures_app, H; cbn; eauto.
Qed.

Lemma prompt_answered (clock : CaptureClock) (p reason : string) (events : list HostCall)
    (m : SelectionMap) :
  captures events = [] ->
  capturedAsAnswered
    (buildWindowSelectionPrompt WindowAnalysis listWindowsAgain clock p reason events m).
Proof.
  intros H. unfold buildWindowSelectionPrompt, caught, capturedAsAnswered.
  destruct (listWindowsAgain p) as [[|w ws]|]; rewrite ?captures_app, H; cbn; lia || reflexivity.
Qed.

Lemma focus_answered (clock : CaptureClock) (args : CaptureArgs) (events : list HostCall)
    (m : SelectionMap) :
  captures events = [] ->
  capturedAsAnswered
    (focusAndCapture WindowAnalysis listWindowsAgain captureWindowWithOCR clock args events m).
Proof.
  intros H. unfold focusAndCapture.
  assert (He : captures (events ++ [StatusUpdate "Focusing on app..."]) = [])
    by now rewrite captures_app, H.
  destruct (given (window_title args)); [|now apply proceed_answered].
  destruct (resolveWindowSelection _ _ _ _) as [[resolved|] m1].
  - now apply proceed_answered.
  - destruct (given (process_name args)); [now apply prompt_answered|now apply proceed_answered].
Qed.

(** X21.  One call captures at most one window.  It captures exactly one
    when it answers with a capture, and none when it answers that there
    is no window or asks the user to choose. *)
Theorem window_captured_at_most_once (clock : CaptureClock) (args : CaptureArgs)
    (m : SelectionMap) :
  let '(resp, events, _) :=
    captureWindowCase WindowAnalysis listWindowsByProcess listWindowsAgain
      captureWindowWithOCR clock args m in
  match resp with
  | Captured _ _ _ _ _ _ => exists p t, captures events = [CaptureWindow p t]
  | NoWindows _ _ | ChooseWindow _ _ _ => captures events = []
  | Failed _ _ => (length (captures events) <= 1)%nat
  end.
Proof.
  change (capturedAsAnswered
            (captureWindowCase WindowAnalysis listWindowsByProcess listWindowsAgain
               captureWindowWithOCR clock args m)).
  unfold captureWindowCase.
  destruct (given (process_name args) && negb (given (window_title args)));
    [|now apply focus_answered].
  destruct (listWindowsByProcess _) as [[|w [|w' ws]]|]; cbn [map].
  - cbn. reflexivity.
  - now apply focus_answered.
  - cbn. reflexivity.
  - cbn. lia.
Qed.

(** X22.  When the process has a single window whose title holds no
    quote and no white space at its ends, the case captures that window
    without asking: the capture is made with the process name and that
    title. *)
Theorem single_window_is_captured_directly (clock : CaptureClock) (p : string)
    (w : WindowInfo) (m : SelectionMap) :
  listWindowsByProcess p = inl [w] ->
  Js.truthy (keyOf p) = true ->
  removeQuotes (wi_title w) = wi_title w ->
  Js.trim (wi_title w) = wi_title w ->
  (atScoped (atResolve clock) - atCache clock <= WINDOW_SELECTION_TTL)%Z ->
  captureWindowCase WindowAnalysis listWindowsByProcess listWindowsAgain
    captureWindowWithOCR clock {| process_name := Some p; window_title := None |} m
  = proceedWithCapture WindowAnalysis captureWindowWithOCR
      {| process_name := Some p; window_title := Some (wi_title w) |}
      [StatusUpdate "Checking for windows..."; ListWindows p;
       StatusUpdate "Focusing on app..."]
      (cacheWindowOptions (atCache clock) p [optionOf w] m).
Proof.
  intros Hlist Hkey Hq Htrim Hfresh.
  pose proof (keyOf_truthy p Hkey) as Hp.
  unfold captureWindowCase. cbn [process_name window_title given].
  rewrite Hp. cbn [negb andb orElse]. rewrite Hp, Hlist. cbn [map].
  unfold focusAndCapture. cbn [process_name window_title given title optionOf app].
  destruct (Js.truthy (wi_title w)) eqn:Ht; [|reflexivity].
  cbn [orElse]. rewrite Ht.
  unfold resolveWindowSelection. rewrite Ht. cbn [negb].
  unfold scopedOptions. rewrite Hp. unfold getCachedWindowOptions, cacheWindowOptions.
  rewrite Hkey. cbn [negb]. rewrite SelectionCoverage.mapGet_mapSet.
  cbn [SelectionCache.timestamp options].
  replace (atScoped (atResolve clock) - atCache clock >? WINDOW_SELECTION_TTL)%Z with false
    by (symmetry; rewrite Z.gtb_ltb; now apply Z.ltb_ge).
  cbn [length Nat.ltb Nat.leb].
  rewrite (single_option_resolves p (wi_title w) (optionOf w) Ht Hq Htrim eq_refl).
  reflexivity.
Qed.

(** X23.  After the case has listed the windows of a process and asked
    the user to choose, an answer that names a listed window by its
    number, given while the listing is at most two minutes old, makes the
    next call capture that window: the capture is made with the title the
    host listed at that number. *)
Theorem numbered_answer_captures_the_listed_window (first later : CaptureClock)
    (p answer : string) (windows : list WindowInfo) (k : nat) (w : WindowInfo)
    (m : SelectionMap) :
  listWindowsByProcess p = inl windows ->
  (2 <= length windows)%nat ->
  Js.truthy (keyOf p) = true ->
  extractRequestedIndex (Js.trim (removeQuotes answer)) (length windows) = Some k ->
  windows !! k = Some w ->
  (atScoped (atResolve later) - atCache first <= WINDOW_SELECTION_TTL)%Z ->
  let asked :=
    captureWindowCase WindowAnalysis listWindowsByProcess listWindowsAgain
      captureWindowWithOCR first {| process_name := Some p; window_title := None |} m in
  fst (fst asked)
  = ChooseWindow WindowAnalysis (severalWindowsMessage (map optionOf windows))
      (map optionOf windows)
  /\ captureWindowCase WindowAnalysis listWindowsByProcess listWindowsAgain
       captureWindowWithOCR later
       {| process_name := Some p; window_title := Some answer |} (snd asked)
     = proceedWithCapture WindowAnalysis captureWindowWithOCR
         {| process_name := Some p; window_title := Some (wi_title w) |}
         [StatusUpdate "Checking for windows..."; StatusUpdate "Focusing on app..."]
         (snd asked).
Proof.
  intros Hlist Hlen Hkey Hk Hw Hfresh. cbv zeta.
  pose proof (keyOf_truthy p Hkey) as Hp.
  pose proof (index_request_truthy _ _ _ Hk) as Hc.
  pose proof (SelectionFacts.cleaned_truthy_requested _ Hc) as Ha.
  assert (Hasked :
    captureWindowCase WindowAnalysis listWindowsByProcess listWindowsAgain
      captureWindowWithOCR first {| process_name := Some p; window_title := None |} m
    = (ChooseWindow WindowAnalysis (severalWindowsMessage (map optionOf windows))
         (map optionOf windows),
       [StatusUpdate "Checking for windows..."; ListWindows p],
       cacheWindowOptions (atCache first) p (map optionOf windows) m)).
  { unfold captureWindowCase. cbn [process_name window_title given].
    rewrite Hp. cbn [negb andb orElse]. rewrite Hp, Hlist.
    destruct windows as [|w1 [|w2 ws]]; cbn in Hlen; try lia. reflexivity. }
  rewrite Hasked. cbn [fst snd]. split; [reflexivity|].
  unfold captureWindowCase. cbn [process_name window_title given].
  rewrite Hp, Ha. cbn [negb andb].
  unfold focusAndCapture. cbn [process_name window_title given orElse app].
  rewrite Ha. unfold resolveWindowSelection. rewrite Ha. cbn [negb].
  unfold scopedOptions. rewrite Hp. unfold getCachedWindowOptions, cacheWindowOptions.
  rewrite Hkey. cbn [negb]. rewrite SelectionCoverage.mapGet_mapSet.
  cbn [SelectionCache.timestamp options].
  replace (atScoped (atResolve later) - atCache first >? WINDOW_SELECTION_TTL)%Z with false
    by (symmetry; rewrite Z.gtb_ltb; now apply Z.ltb_ge).
  rewrite length_map.
  replace (0 <? length windows)%nat with true by (symmetry; apply Nat.ltb_lt; lia).
  rewrite (indexed_option_resolves p answer (map optionOf windows) k (optionOf w)).
  - reflexivity.
  - now rewrite length_map.
  - change (map optionOf windows) with (optionOf <$> windows).
    now rewrite list_lookup_fmap, Hw.
Qed.

End Case.

(** *** A host with one editor window, and one with two browser windows *)

Definition notepadWindow : WindowInfo :=
  {| wi_title := "notes.txt - Notepad"; wi_process_name := "notepad"; wi_is_active := true |}.
Definition docsWindow : WindowInfo :=
  {| wi_title := "Docs - Google Chrome"; wi_process_name := "chrome"; wi_is_active := true |}.
Definition inboxWindow : WindowInfo :=
  {| wi_title := "Inbox - Google Chrome"; wi_process_name := "chrome"; wi_is_active := false |}.

Definition listing (processName : string) : list WindowInfo + option string :=
  if String.eqb processName "notepad" then inl [notepadWindow]
  else if String.eqb processName "chrome" then inl [docsWindow; inboxWindow]
  else inl [].

(** The capture of the host: the window asked for, with no text and no
    analysis. *)
Definition captured (processName windowTitle : option string)
  : WindowCaptureResult unit + option string :=
  inl {| cap_image_base64 := "iVBORw0KGgo="; cap_hash := "9f86d081884c7d65";
         cap_ocr_text := None;
         cap_window_title := orElse windowTitle EmptyString;
         cap_process_name := orElse processName EmptyString;
         cap_analysis := None |}.

Definition captureClock (now : Z) : CaptureClock :=
  {| atCache := now;
     atResolve := {| atScoped := now; atSweep := fun _ => now |};
     atCacheAgain := now |}.

Lemma single_window_is_captured_directly_witness :
  captures
    (snd (fst (captureWindowCase unit listing listing captured (captureClock 1700000000000)
                 {| process_name := Some "notepad"; window_title := None |} [])))
  = [CaptureWindow (Some "notepad") (Some "notes.txt - Notepad")].
Proof.
  rewrite (single_window_is_captured_directly unit listing listing captured
             (captureClock 1700000000000) "notepad" notepadWindow []).
  - vm_compute. reflexivity.
  - vm_compute. reflexivity.
  - vm_compute. reflexivity.
  - vm_compute. reflexivity.
  - vm_compute. reflexivity.
  - vm_compute. discriminate.
Defined.

Lemma numbered_answer_captures_the_listed_window_witness :
  captures
    (snd (fst (captureWindowCase unit listing listing captured (captureClock 1700000090000)
                 {| process_name := Some "chrome"; window_title := Some "2" |}
                 (snd (captureWindowCase unit listing listing captured
                         (captureClock 1700000000000)
                         {| process_name := Some "chrome"; window_title := None |} [])))))
  = [CaptureWindow (Some "chrome") (Some "Inbox - Google Chrome")].
Proof.
  destruct (numbered_answer_captures_the_listed_window unit listing listing captured
              (captureClock 1700000000000) (captureClock 1700000090000)
              "chrome" "2" [docsWindow; inboxWindow] 1 inboxWindow []) as [_ H].
  - vm_compute. reflexivity.
  - vm_compute. lia.
  - vm_compute. reflexivity.
  - vm_compute. reflexivity.
  - vm_compute. reflexivity.
  - vm_compute. discriminate.
  - rewrite H. vm_compute. reflexivity.
Defined.

End CaptureCoverage.

(** ** Docker containers: what is recorded and what is run *)

Module DockerCoverage.
Import CommandPolicy Docker.

(** A container name as recordDockerContainers takes it from a line: not
    empty, with no comma and no space. *)
Definition isToken (s : string) : bool :=
  Js.truthy s && forallb (fun c => negb (isNameSeparator c)) (list_ascii_of_string s).

Lemma prepend_tokens (c : ascii) (pieces : list string) :
  isNameSeparator c = false ->
  List.Forall (fun p => forallb (fun c => negb (isNameSeparator c)) (list_ascii_of_string p)
                        = true) pieces ->
  List.Forall (fun p => forallb (fun c => negb (isNameSeparator c)) (list_ascii_of_string p)
                        = true) (prepend c pieces).
Proof.
  intros Hc H. destruct pieces as [|first rest]; cbn.
  - constructor; [|constructor]. cbn. now rewrite Hc.
  - inversion_clear H as [|? ? H1 H2]. constructor; [|exact H2]. cbn. now rewrite Hc, H1.
Qed.

Lemma splitNames_pieces (s : string) :
  forall inSeparator,
    List.Forall (fun p => forallb (fun c => negb (isNameSeparator c)) (list_ascii_of_string p)
                          = true) (splitNamesFrom inSeparator s).
Proof.
  induction s as [|c r IH]; intros inSeparator; cbn.
  - constructor; [reflexivity|constructor].
  - destruct (isNameSeparator c) eqn:E.
    + destruct inSeparator; [apply IH|]. constructor; [reflexivity|apply IH].
    + now apply prepend_tokens.
Qed.

Lemma names_are_tokens (names : string) :
  List.Forall (fun n => isToken n = true) (List.filter Js.truthy (splitNames names)).
Proof.
  apply List.Forall_forall. intros n Hn. apply filter_In in Hn as [Hin Ht].
  pose proof (splitNames_pieces names false) as H. rewrite List.Forall_forall in H.
  unfold isToken. now rewrite Ht, (H n Hin).
Qed.

(** What a recording adds to the list. *)
Definition extends (before after : list DockerContainer) : Prop :=
  NoDup (map name after)
  /\ exists added,
       after = before ++ added /\ List.Forall (fun c => isToken (name c) = true) added.

Lemma extends_refl (cs : list DockerContainer) : NoDup (map name cs) -> extends cs cs.
Proof. intros H. split; [exact H|]. exists []. split; [now rewrite app_nil_r|constructor]. Qed.

Lemma extends_trans (a b c : list DockerContainer) : extends a b -> extends b c -> extends a c.
Proof.
  intros [_ (x & -> & Hx)] [Hc (y & -> & Hy)]. split; [exact Hc|].
  exists (x ++ y). split; [now rewrite app_assoc|]. now apply List.Forall_app.
Qed.

Lemma known_spec (n : string) (cs : list DockerContainer) :
  known n cs = false -> n ∉ map name cs.
Proof.
  intros H Hin. apply list_elem_of_In, in_map_iff in Hin as (c & Hc & Hin).
  assert (known n cs = true); [|congruence].
  apply existsb_exists. exists c. split; [exact Hin|]. now apply String.eqb_eq.
Qed.

Lemma recordNames_extends (containerId containerStatus : string) (names : list string)
    (cs : list DockerContainer) :
  List.Forall (fun n => isToken n = true) names ->
  NoDup (map name cs) ->
  extends cs (recordNames containerId containerStatus names cs).
Proof.
  unfold recordNames. revert cs. induction names as [|n rest IH]; intros cs Hn Hcs.
  - now apply extends_refl.
  - inversion_clear Hn as [|? ? Hn1 Hn2]. cbn [fold_left].
    destruct (known n cs) eqn:E; [now apply IH|].
    apply (extends_trans _ (cs ++ [{| name := n; id := containerId;
                                       status := containerStatus |}])).
    + split.
      * rewrite map_app. apply NoDup_app. split; [exact Hcs|]. split; [|apply NoDup_singleton].
        intros x Hx Hx'. apply list_elem_of_singleton in Hx'. cbn in Hx'. subst x.
        now apply known_spec in E.
      * eexists. split; [reflexivity|]. constructor; [exact Hn1|constructor].
    + apply IH; [exact Hn2|].
      rewrite map_app. apply NoDup_app. split; [exact Hcs|]. split; [|apply NoDup_singleton].
      intros x Hx Hx'. apply list_elem_of_singleton in Hx'. cbn in Hx'. subst x.
      now apply known_spec in E.
Qed.

Lemma recordLine_extends (cs : list DockerContainer) (line : string) :
  NoDup (map name cs) -> extends cs (recordLine cs line).
Proof.
  intros H. unfold recordLine.
  destruct (2 <=? length _)%nat; [|now apply extends_refl].
  apply recordNames_extends; [apply names_are_tokens|exact H].
Qed.

(** X24.  Recording the output of docker ps keeps what was recorded, in
    place, and adds containers at the end; the names stay pairwise
    distinct, and each name added is a token: not empty, with no comma
    and no space.  Output of one line or none, the header, adds
    nothing. *)
Theorem recorded_containers_have_distinct_names (stdout : string)
    (dockerContainers : list DockerContainer) :
  NoDup (map name dockerContainers) ->
  let recorded := recordDockerContainers stdout dockerContainers in
  NoDup (map name recorded)
  /\ (exists added,
        recorded = dockerContainers ++ added
        /\ List.Forall (fun c => isToken (name c) = true) added)
  /\ ((length (List.filter Js.truthy (splitLines stdout)) <= 1)%nat ->
      recorded = dockerContainers).
Proof.
  intros H. cbv zeta. unfold recordDockerContainers.
  destruct (Nat.leb_spec (length (List.filter Js.truthy (splitLines stdout))) 1) as [Hl|Hl].
  - split; [exact H|]. split; [|reflexivity].
    exists []. split; [now rewrite app_nil_r|constructor].
  - assert (He : extends dockerContainers
                   (fold_left recordLine (List.tl (List.filter Js.truthy (splitLines stdout)))
                      dockerContainers)).
    { generalize (List.tl (List.filter Js.truthy (splitLines stdout))) as lines.
      intros lines. revert dockerContainers H.
      induction lines as [|line rest IH]; intros cs Hcs; [now apply extends_refl|].
      cbn [fold_left]. pose proof (recordLine_extends cs line Hcs) as H1.
      apply (extends_trans _ _ _ H1). apply IH. apply H1. }
    destruct He as [H1 H2]. split; [exact H1|]. split; [exact H2|]. lia.
Qed.


Definition psOutput : string :=
  "CONTAINER ID   IMAGE      COMMAND    CREATED       STATUS                   PORTS    NAMES"
  +:+ JsString.nl
  +:+ "abc123         nginx      nginx -g   2 hours ago   Up 2 hours               80/tcp   web"
  +:+ JsString.nl
  +:+ "def456         postgres   postgres   3 days ago    Exited (0) 2 days ago             db,web"
  +:+ JsString.nl.

Definition cacheContainer : DockerContainer :=
  {| name := "cache"; id := "0a1b2c"; status := "Up 5 minutes" |}.

Lemma recorded_containers_have_distinct_names_witness :
  NoDup (map name [cacheContainer])
  /\ map name (recordDockerContainers psOutput [cacheContainer]) = ["cache"; "web"; "db"]
  /\ NoDup (map name (recordDockerContainers psOutput [cacheContainer])).
Proof.
  assert (Hdistinct : NoDup (map name [cacheContainer])) by apply NoDup_singleton.
  split; [exact Hdistinct|]. split; [vm_compute; reflexivity|].
  exact (proj1 (recorded_containers_have_distinct_names psOutput [cacheContainer] Hdistinct)).
Defined.

Lemma startsWith_refl (s : string) : Js.startsWith s s = true.
Proof. induction s as [|c s IH]; cbn; [reflexivity|]. now rewrite Ascii.eqb_refl. Qed.

Lemma startsWith_includes (s p : string) : Js.startsWith s p = true -> Js.includes s p = true.
Proof. intros H. destruct s; cbn in *; now rewrite H. Qed.

Lemma resolved_name_recorded (requested : string) (dockerContainers : list DockerContainer)
    (n : string) :
  res_name (resolveContainerName requested dockerContainers) = Some n ->
  exists c, In c dockerContainers /\ n = name c.
Proof.
  unfold resolveContainerName. destruct dockerContainers as [|c0 cs]; [discriminate|].
  set (all := c0 :: cs). cbv zeta.
  set (f1 := fun c : DockerContainer => String.eqb _ _).
  set (f2 := fun c : DockerContainer => Js.startsWith _ _).
  set (f3 := fun c : DockerContainer => Js.includes _ _).
  destruct (find f1 all) as [c|] eqn:E1; cbn [res_name].
  { intros H. injection H as <-. exists c. apply find_some in E1. tauto. }
  destruct (find f2 all) as [c|] eqn:E2; cbn [res_name].
  { intros H. injection H as <-. exists c. apply find_some in E2. tauto. }
  destruct (find f3 all) as [c|] eqn:E3; cbn [res_name]; [|discriminate].
  intros H. injection H as <-. exists c. apply find_some in E3. tauto.
Qed.

(** X25.  A container name resolved by resolveContainerName is the name
    of a recorded container that contains the request, letter case
    apart; the first container whose name is the request wins over
    containers whose names only begin with it or contain it.  When no
    name is resolved, the suggestions are the names of the first five
    recorded containers. *)
Theorem resolved_container_is_recorded (requested : string)
    (dockerContainers : list DockerContainer) :
  let resolution := resolveContainerName requested dockerContainers in
  let sameName (c : DockerContainer) :=
    String.eqb (Js.toLowerCase (name c)) (Js.toLowerCase requested) in
  (forall n, res_name resolution = Some n ->
     suggestions resolution = []
     /\ exists c, In c dockerContainers /\ n = name c
                  /\ Js.includes (Js.toLowerCase (name c)) (Js.toLowerCase requested) = true)
  /\ (forall c, find sameName dockerContainers = Some c ->
        res_name resolution = Some (name c))
  /\ (res_name resolution = None ->
      suggestions resolution = map name (take 5 dockerContainers))
  /\ (length (suggestions resolution) <= 5)%nat.
Proof.
  cbv zeta. unfold resolveContainerName.
  destruct dockerContainers as [|c0 cs].
  { cbn. split; [discriminate|]. split; [discriminate|]. split; [reflexivity|lia]. }
  set (all := c0 :: cs).
  set (f1 := fun c : DockerContainer => String.eqb _ _).
  set (f2 := fun c : DockerContainer => Js.startsWith _ _).
  set (f3 := fun c : DockerContainer => Js.includes _ _).
  destruct (find f1 all) as [exact|] eqn:E1; cbn [res_name suggestions].
  { apply find_some in E1 as [Hin E]. apply String.eqb_eq in E.
    split; [|split; [|split; [discriminate|cbn; lia]]].
    - intros n Hn. injection Hn as <-. split; [reflexivity|].
      exists exact. split; [exact Hin|]. split; [reflexivity|].
      rewrite E. apply startsWith_includes, startsWith_refl.
    - intros c Hc. now injection Hc as ->. }
  split; [|split; [discriminate|]].
  - destruct (find f2 all) as [starts|] eqn:E2; cbn [res_name suggestions].
    { apply find_some in E2 as [Hin E]. intros n Hn. injection Hn as <-.
      split; [reflexivity|]. exists starts. split; [exact Hin|]. split; [reflexivity|].
      now apply startsWith_includes. }
    destruct (find f3 all) as [contains|] eqn:E3; cbn [res_name suggestions]; [|discriminate].
    apply find_some in E3 as [Hin E]. intros n Hn. injection Hn as <-.
    split; [reflexivity|]. exists contains. now repeat split.
  - destruct (find f2 all) as [starts|]; cbn [res_name suggestions];
      [split; [discriminate|cbn; lia]|].
    destruct (find f3 all) as [contains|]; cbn [res_name suggestions];
      [split; [discriminate|cbn; lia]|].
    split; [reflexivity|]. rewrite length_map, length_take. lia.
Qed.

(** The arguments before the container name: ["--tail"] and its value,
    or nothing. *)
Lemma tailArguments_short (argsArray : list string) :
  (length (tailArguments argsArray) <= 2)%nat.
Proof.
  unfold tailArguments.
  assert (H : (length match argsArray !! 1%nat, argsArray !! 2%nat with
                      | Some flag, Some value =>
                          if String.eqb flag "--tail" then ["--tail"; value] else []
                      | _, _ => []
                      end <= 2)%nat).
  { destruct (argsArray !! 1%nat) as [flag|]; [|cbn; lia].
    destruct (argsArray !! 2%nat); [|cbn; lia].
    destruct (String.eqb flag "--tail"); cbn; lia. }
  destruct (findIndex _ argsArray) as [i|]; [|exact H].
  destruct (argsArray !! (i + 1)%nat); [cbn; lia|exact H].
Qed.

(** X26.  When a docker logs call meets a pending log request, the call
    that goes on to be handled has the arguments logs, the --tail value
    of the original call if it has one, and the name of a recorded
    container; it is classified auto, so it runs without approval.  When
    no recorded container matches, the call is not handled at all.  In
    both cases the pending request is cleared. *)
Theorem rewritten_logs_call_is_read_only (cmd : string) (argsArray : list string)
    (pending : PendingLog) (dockerContainers : list DockerContainer) :
  Js.toLowerCase cmd = "docker" ->
  In "logs" argsArray ->
  match prepareExecuteCommand (Some (Js.toLowerCase cmd)) argsArray (Some pending)
          dockerContainers with
  | Proceed newArgs after =>
      after = None
      /\ (exists c, In c dockerContainers
                    /\ newArgs = ["logs"] ++ tailArguments argsArray ++ [name c])
      /\ (length newArgs <= 4)%nat
      /\ isContextOnlyCommand cmd newArgs = true
  | NoSuchContainer _ after => after = None
  end.
Proof.
  intros Hcmd Hlogs. unfold prepareExecuteCommand. rewrite Hcmd.
  change (String.eqb "docker" "docker") with true. cbn [andb].
  replace (existsb (String.eqb "logs") argsArray) with true.
  2:{ symmetry. apply existsb_exists. exists "logs". split; [exact Hlogs|reflexivity]. }
  pose proof (resolved_name_recorded (requested pending) dockerContainers) as Hr.
  destruct (res_name _) as [n|] eqn:En.
  - destruct (Js.truthy n) eqn:Hn.
    + split; [reflexivity|]. destruct (Hr n eq_refl) as (c & Hin & ->).
      split; [exists c; now split|]. split.
      * pose proof (tailArguments_short argsArray). cbn. rewrite length_app. cbn. lia.
      * unfold isContextOnlyCommand. rewrite PolicyCoverage.level_levelOf, Hcmd.
        destruct (PolicyCoverage.levels_by_invocation "docker"
                    (map Js.toLowerCase (["logs"] ++ tailArguments argsArray ++ [name c]))
                    (PolicyCoverage.allLower_map _)) as [Ha _].
        assert (Hx : PolicyCoverage.isAuto
                       (PolicyCoverage.levelOf "docker"
                          (map Js.toLowerCase
                             (["logs"] ++ tailArguments argsArray ++ [name c]))) = true).
        { rewrite Ha. apply existsb_exists. exists ("docker", ["logs"]).
          split; [cbn; tauto|reflexivity]. }
        now destruct (PolicyCoverage.levelOf _ _).
    + reflexivity.
  - reflexivity.
Qed.


Definition webLogs : PendingLog := {| requested := "we"; original := "We" |}.

Lemma rewritten_logs_call_is_read_only_witness :
  Js.toLowerCase "Docker" = "docker"
  /\ In "logs" ["logs"; "--TAIL"; "50"; "wbe"]
  /\ prepareExecuteCommand (Some (Js.toLowerCase "Docker")) ["logs"; "--TAIL"; "50"; "wbe"]
       (Some webLogs) (recordDockerContainers psOutput [])
     = Proceed ["logs"; "--tail"; "50"; "web"] None
  /\ isContextOnlyCommand "Docker" ["logs"; "--tail"; "50"; "web"] = true.
Proof.
  split; [reflexivity|]. split; [left; reflexivity|].
  pose proof (rewritten_logs_call_is_read_only "Docker" ["logs"; "--TAIL"; "50"; "wbe"]
                webLogs (recordDockerContainers psOutput []) eq_refl (or_introl eq_refl))
    as H.
  assert (E : prepareExecuteCommand (Some (Js.toLowerCase "Docker"))
                ["logs"; "--TAIL"; "50"; "wbe"] (Some webLogs)
                (recordDockerContainers psOutput [])
              = Proceed ["logs"; "--tail"; "50"; "web"] None)
    by (vm_compute; reflexivity).
  rewrite E in H. split; [exact E|]. apply H.
Defined.

End DockerCoverage.

(** ** The conversation history *)

Module HistoryCoverage.
Import Orchestrator CaptureHistory.

Lemma searchBack_found (processName windowTitle : option string) (total : nat)
    (recent : list Message) :
  (length recent <= total)%nat ->
  forall countdown k,
    (countdown <= length recent)%nat ->
    searchBack processName windowTitle total recent countdown = Some k ->
    exists i msg,
      (i < countdown)%nat
      /\ k = (total - (length recent - i))%nat
      /\ recent !! i = Some msg
      /\ followsCapture processName windowTitle msg = true
      /\ (0 < k)%nat
      /\ forall j later,
           (i < j < countdown)%nat -> recent !! j = Some later ->
           followsCapture processName windowTitle later = false.
Proof.
  intros Htotal. induction countdown as [|i IH]; intros k Hc; cbn [searchBack];
    [discriminate|]. cbv zeta.
  destruct (recent !! i) as [msg|] eqn:E.
  2:{ apply lookup_ge_None in E. lia. }
  destruct (followsCapture processName windowTitle msg
            && (0 <? total - (length recent - i))%nat) eqn:T.
  - intros Hk. injection Hk as <-. apply andb_prop in T as [T1 T2]. apply Nat.ltb_lt in T2.
    exists i, msg. repeat split; auto. intros j later Hj. lia.
  - intros H. destruct (IH k ltac:(lia) H) as (i' & msg' & Hi & -> & Hl & Hf & Hk & Hlater).
    exists i', msg'. repeat split; auto. intros j later Hj Hlook.
    destruct (Nat.eq_dec j i) as [->|Hne]; [|apply (Hlater j later); [lia|exact Hlook]].
    rewrite E in Hlook. injection Hlook as <-.
    apply andb_false_iff in T as [T|T]; [exact T|]. apply Nat.ltb_ge in T. lia.
Qed.

Lemma recent_is_a_suffix (maxMessagesBack : nat) (messages : list Message) :
  recentMessages maxMessagesBack messages
  = drop (length messages - length (recentMessages maxMessagesBack messages)) messages
  /\ (length (recentMessages maxMessagesBack messages) <= length messages)%nat
  /\ (maxMessagesBack <> 0%nat ->
      (length messages - maxMessagesBack
       <= length messages - length (recentMessages maxMessagesBack messages))%nat).
Proof.
  unfold recentMessages. destruct maxMessagesBack as [|n].
  - rewrite Nat.sub_diag. cbn. split; [reflexivity|]. split; [lia|congruence].
  - rewrite !length_drop. split; [|split; lia].
    f_equal. lia.
Qed.

(** X27.  The index hasRecentCapture returns is that of a message of the
    conversation other than the first one; the message is from the
    assistant, is not empty, and names the process or the window or
    holds a capture keyword; it is among the last [maxMessagesBack]
    messages, and no later message of the conversation passes that
    test. *)
Theorem recent_capture_is_the_latest_match (messages : list Message)
    (processName windowTitle : option string) (maxMessagesBack k : nat) :
  hasRecentCapture messages processName windowTitle maxMessagesBack = Some k ->
  (0 < k < length messages)%nat
  /\ (exists msg, messages !! k = Some msg
                  /\ followsCapture processName windowTitle msg = true)
  /\ (maxMessagesBack <> 0%nat -> (length messages - maxMessagesBack <= k)%nat)
  /\ (forall j later,
        (k < j)%nat -> messages !! j = Some later ->
        followsCapture processName windowTitle later = false).
Proof.
  unfold hasRecentCapture. intros H.
  destruct (recent_is_a_suffix maxMessagesBack messages) as (Hs & Hlen & Hback).
  set (recent := recentMessages maxMessagesBack messages) in *.
  destruct (searchBack_found processName windowTitle (length messages) recent Hlen
              (length recent) k (Nat.le_refl _) H)
    as (i & msg & Hi & -> & Hl & Hf & Hk & Hlater).
  set (off := (length messages - length recent)%nat) in *.
  assert (Hidx : (length messages - (length recent - i) = off + i)%nat) by (unfold off; lia).
  rewrite Hidx in *.
  assert (Hlook : forall j, recent !! j = messages !! (off + j)%nat).
  { intros j. rewrite Hs at 1. apply lookup_drop. }
  split; [unfold off in *; lia|]. split; [|split].
  - exists msg. split; [|exact Hf]. now rewrite <- Hlook.
  - intros Hm. specialize (Hback Hm). lia.
  - intros j later Hj Hjl. apply lookup_lt_Some in Hjl as Hjlen.
    apply (Hlater (j - off)%nat later); [unfold off in *; lia|].
    rewrite Hlook. replace (off + (j - off))%nat with j by lia. exact Hjl.
Qed.

Definition said (r : Role) (text : string) : Message := {| role := r; content := text |}.

Definition chat : list Message := [
  said user "can you look at chrome?";
  said assistant "I captured the Chrome window: it shows your inbox.";
  said user "thanks";
  said assistant "You're welcome."
].

Lemma recent_capture_is_the_latest_match_witness :
  hasRecentCapture chat (Some "chrome") None 5 = Some 1%nat
  /\ (0 < 1 < length chat)%nat
  /\ (forall j later,
        (1 < j)%nat -> chat !! j = Some later ->
        followsCapture (Some "chrome") None later = false).
Proof.
  assert (H : hasRecentCapture chat (Some "chrome") None 5 = Some 1%nat)
    by (vm_compute; reflexivity).
  split; [exact H|].
  destruct (recent_capture_is_the_latest_match chat (Some "chrome") None 5 1 H)
    as (H1 & _ & _ & H4).
  split; [exact H1|exact H4].
Defined.

End HistoryCoverage.

Module ContextCoverage.
Import ContextManager.

Lemma keepScreenshots_twice (keep : bool) (msg : Message) :
  keepScreenshots false (keepScreenshots keep msg) = keepScreenshots false msg.
Proof. reflexivity. Qed.

Lemma stripped_imap (f : nat -> bool) (l : list Message) :
  map (keepScreenshots false) (imap (fun index msg => keepScreenshots (f index) msg) l)
  = map (keepScreenshots false) l.
Proof.
  revert f. induction l as [|x l IH]; intros f; [reflexivity|].
  rewrite imap_cons. cbn [map]. rewrite keepScreenshots_twice. f_equal.
  apply (IH (fun n => f (S n))).
Qed.

(** X28.  With room for at least two messages, the history built has at
    most [maxMessages] messages: all of them when they fit, otherwise the
    first message and the last [maxMessages - 1], in their order and,
    screenshots apart, unchanged.  When the conversation is at least
    twice as long as [maxMessages], no message of the history keeps its
    screenshots. *)
Theorem optimized_history_is_bounded (messages : list Message) (maxMessages : nat) :
  (2 <= maxMessages)%nat ->
  let history := buildOptimizedHistory messages maxMessages in
  length history = Nat.min (length messages) maxMessages
  /\ map (keepScreenshots false) history
     = map (keepScreenshots false)
         (if (length messages <=? maxMessages)%nat then messages
          else take 1 messages ++ drop (length messages - (maxMessages - 1)) messages)
  /\ ((2 * maxMessages <= length messages)%nat ->
      List.Forall (fun msg => screenshots msg = None) history).
Proof.
  intros Hmax. cbv zeta. unfold buildOptimizedHistory.
  destruct (Nat.leb_spec (length messages) maxMessages) as [Hfit|Hlong].
  - rewrite length_imap. split; [lia|]. split; [|lia].
    apply (stripped_imap (fun index => (Z.of_nat (length messages) - 2 <=? Z.of_nat index)%Z)).
  - destruct messages as [|first rest]; [cbn in Hlong; lia|].
    set (messages := first :: rest) in *.
    assert (Hlast : lastMessages maxMessages messages
                    = drop (length messages - (maxMessages - 1)) messages).
    { unfold lastMessages. destruct maxMessages as [|[|n]]; try lia.
      f_equal; lia. }
    rewrite Hlast. split; [|split].
    + cbn [length]. rewrite length_imap, length_drop. lia.
    + change (take 1 messages) with [first]. cbn [map app]. f_equal.
      apply (stripped_imap
               (fun index =>
                  (Z.of_nat (length messages) - Z.of_nat maxMessages + 1 - 2
                   <=? Z.of_nat index)%Z)).
    + intros Htwice. constructor; [reflexivity|].
      apply List.Forall_forall. intros msg Hin.
      apply list_elem_of_In, elem_of_lookup_imap_1 in Hin as (i & y & -> & Hy).
      apply lookup_lt_Some in Hy. rewrite length_drop in Hy.
      cbn [keepScreenshots screenshots].
      destruct (Z.leb_spec (Z.of_nat (length messages) - Z.of_nat maxMessages + 1 - 2)
                  (Z.of_nat i)); [lia|reflexivity].
Qed.

Definition message (n : Z) : Message :=
  {| id := "m"; role := Orchestrator.user; content := "message";
     timestamp := n; screenshots := Some ["iVBORw0KGgo="] |}.

Definition sixteen : list Message :=
  map message [1; 2; 3; 4; 5; 6; 7; 8; 9; 10; 11; 12; 13; 14; 15; 16]%Z.

Lemma optimized_history_is_bounded_witness :
  (2 <= 8)%nat
  /\ map timestamp (buildOptimizedHistory sixteen 8) = [1; 10; 11; 12; 13; 14; 15; 16]%Z
  /\ length (buildOptimizedHistory sixteen 8) = 8%nat
  /\ List.Forall (fun msg => screenshots msg = None) (buildOptimizedHistory sixteen 8).
Proof.
  assert (Hmax : (2 <= 8)%nat) by lia.
  split; [exact Hmax|]. split; [vm_compute; reflexivity|].
  destruct (optimized_history_is_bounded sixteen 8 Hmax) as (H1 & _ & H3).
  split; [exact H1|]. apply H3. vm_compute. lia.
Defined.

End ContextCoverage.
